(** * AI Headshot Photographer: media codec, generation client and view-state
    controller.

    A shallow embedding of [services/geminiService.ts] (the media codec
    helpers and the three synthesis operations) and of the controller in
    [App.tsx], with the properties of the specification checked against it. *)

From Stdlib Require Import ZArith NArith Lia List Bool String Ascii.
Import ListNotations.

Local Open Scope Z_scope.

(** ** JavaScript values *)

(** A JavaScript string is a sequence of UTF-16 code units. *)
Definition char := N.
Definition jsstring := list char.

Definition js (s : string) : jsstring :=
  List.map N_of_ascii (list_ascii_of_string s).

(** [a === b] on strings. *)
Fixpoint jsstring_eqb (a b : jsstring) : bool :=
  match a, b with
  | [], [] => true
  | x :: a', y :: b' => (x =? y)%N && jsstring_eqb a' b'
  | _, _ => false
  end.

(** Truthiness of a string ([!s] is [negb (truthy s)]) and of a
    [string | null] slot. *)
Definition truthy (s : jsstring) : bool :=
  match s with [] => false | _ :: _ => true end.

Definition truthy_slot (s : option jsstring) : bool :=
  match s with None => false | Some v => truthy v end.

(** A value that has been thrown: an [Error] instance carrying its [message],
    or anything else ([error instanceof Error] is false). *)
Inductive Thrown :=
| ThrownError (message : jsstring)
| ThrownOther.

(** Completion of a call that either returns or throws; for an [async]
    function, a promise that resolved or rejected. *)
Inductive Outcome (A : Type) :=
| Returns (a : A)
| Throws (e : Thrown).
Arguments Returns {A} a.
Arguments Throws {A} e.

Definition bind {A B} (m : Outcome A) (k : A -> Outcome B) : Outcome B :=
  match m with
  | Returns a => k a
  | Throws e => Throws e
  end.

Notation "x <- m ;; k" := (bind m (fun x => k))
  (at level 61, m at next level, right associativity).

(** ** Media codec helper: [pcmToWav] *)

Module Wav.

(** A [Uint8Array] is a window of [byteLength] bytes, starting at
    [byteOffset], on a backing [ArrayBuffer]. *)
Record Uint8Array := {
  buffer : list Z;
  byteOffset : nat;
  byteLength : nat
}.

(** [new Uint8Array(n)] filled from [bytes], as [decode] builds it: the window
    is the whole of a fresh buffer. *)
Definition Uint8Array_of (bytes : list Z) : Uint8Array :=
  {| buffer := bytes; byteOffset := 0; byteLength := List.length bytes |}.

(** [new Uint8Array(buf)]: a window on the whole of [buf]. *)
Definition Uint8Array_on (buf : list Z) : Uint8Array :=
  {| buffer := buf; byteOffset := 0; byteLength := List.length buf |}.

(** [a.subarray(b, e)] for [0 <= b <= e <= a.length]. *)
Definition subarray (a : Uint8Array) (b e : nat) : Uint8Array :=
  {| buffer := buffer a; byteOffset := byteOffset a + b; byteLength := e - b |}.

(** The elements seen through the window, [a[0] .. a[a.length - 1]]. *)
Definition elements (a : Uint8Array) : list Z :=
  firstn (byteLength a) (skipn (byteOffset a) (buffer a)).

(** A [DataView] on the whole of a buffer: the buffer's bytes. *)
Definition DataView := list Z.

(** [new DataView(new ArrayBuffer(n))]: [n] zero bytes. *)
Definition newDataView (n : nat) : DataView := repeat 0 n.

Definition rangeError : Thrown :=
  ThrownError (js "Offset is outside the bounds of the DataView").

Fixpoint store (view : DataView) (offset : nat) (b : Z) : DataView :=
  match view, offset with
  | [], _ => []
  | _ :: rest, O => b :: rest
  | x :: rest, S o => x :: store rest o b
  end.

(** [view.setUint8(offset, value)]: the value is reduced modulo 2^8; writing
    outside the view throws a RangeError. *)
Definition setUint8 (view : DataView) (offset : nat) (value : Z)
  : Outcome DataView :=
  if (offset + 1 <=? List.length view)%nat
  then Returns (store view offset (value mod 256))
  else Throws rangeError.

(** [view.setUint16(offset, value, true)]: two bytes, little-endian, of the
    value modulo 2^16. *)
Definition setUint16 (view : DataView) (offset : nat) (value : Z)
  : Outcome DataView :=
  if (offset + 2 <=? List.length view)%nat
  then
    let v := value mod 2 ^ 16 in
    Returns (store (store view offset (v mod 256))
                   (offset + 1) (v / 256 mod 256))
  else Throws rangeError.

(** [view.setUint32(offset, value, true)]: four bytes, little-endian, of the
    value modulo 2^32. *)
Definition setUint32 (view : DataView) (offset : nat) (value : Z)
  : Outcome DataView :=
  if (offset + 4 <=? List.length view)%nat
  then
    let v := value mod 2 ^ 32 in
    Returns (store (store (store (store view offset (v mod 256))
                                 (offset + 1) (v / 256 mod 256))
                          (offset + 2) (v / 65536 mod 256))
                   (offset + 3) (v / 16777216 mod 256))
  else Throws rangeError.

(** [writeString]: one [setUint8] per code unit of [str], from [offset]. *)
Fixpoint writeString (view : DataView) (offset : nat) (str : jsstring)
  : Outcome DataView :=
  match str with
  | [] => Returns view
  | c :: rest =>
      view' <- setUint8 view offset (Z.of_N c) ;;
      writeString view' (S offset) rest
  end.

(** The copy loop of [pcmToWav]:
    [for (i = 0; i < pcmBytes.length; i++) view.setUint8(44 + i, pcmBytes[i])],
    entered at index [i] with the elements still to be copied. *)
Fixpoint copyBytes (view : DataView) (i : nat) (pcmBytes : list Z)
  : Outcome DataView :=
  match pcmBytes with
  | [] => Returns view
  | b :: rest =>
      view' <- setUint8 view (44 + i) b ;;
      copyBytes view' (S i) rest
  end.

Record Blob := {
  blobBytes : list Z;
  blobType : jsstring
}.

(** [sampleRate] is taken as an integer; [setUint32] reduces it modulo 2^32. *)
Definition pcmToWav (pcmData : Uint8Array) (sampleRate : Z) : Outcome Blob :=
  let numChannels := 1 in
  let bitsPerSample := 16 in
  let blockAlign := (numChannels * bitsPerSample) / 8 in
  let byteRate := sampleRate * blockAlign in
  let dataSize := byteLength pcmData in
  let view := newDataView (44 + dataSize) in
  (* RIFF header *)
  view <- writeString view 0 (js "RIFF") ;;
  view <- setUint32 view 4 (36 + Z.of_nat dataSize) ;;
  view <- writeString view 8 (js "WAVE") ;;
  (* fmt chunk *)
  view <- writeString view 12 (js "fmt ") ;;
  view <- setUint32 view 16 16 ;;
  view <- setUint16 view 20 1 ;;
  view <- setUint16 view 22 numChannels ;;
  view <- setUint32 view 24 sampleRate ;;
  view <- setUint32 view 28 byteRate ;;
  view <- setUint16 view 32 blockAlign ;;
  view <- setUint16 view 34 bitsPerSample ;;
  (* data chunk *)
  view <- writeString view 36 (js "data") ;;
  view <- setUint32 view 40 (Z.of_nat dataSize) ;;
  (* Write PCM data *)
  let pcmBytes := Uint8Array_on (buffer pcmData) in
  view <- copyBytes view 0 (elements pcmBytes) ;;
  Returns {| blobBytes := view; blobType := js "audio/wav" |}.

(** Bytes [offset .. offset + 3] of a byte stream read as a little-endian
    32-bit unsigned integer. *)
Definition readUint32LE (bytes : list Z) (offset : nat) : Z :=
  nth offset bytes 0
  + 256 * nth (offset + 1) bytes 0
  + 65536 * nth (offset + 2) bytes 0
  + 16777216 * nth (offset + 3) bytes 0.

End Wav.

(** ** Regular expressions, as [String.prototype.match] runs them *)

Module RegExp.

Local Open Scope nat_scope.

(** The fragment of the pattern language the service uses: literals,
    character classes, sequence, greedy repetition, capture groups and the
    two anchors (no flags: [^] and [$] are the ends of the input). *)
Inductive regex :=
| Empty
| Char (c : char)
| Class (p : char -> bool)
| Seq (r1 r2 : regex)
| Star (r : regex)
| Group (n : nat) (r : regex)
| AssertStart
| AssertEnd.

(** [r+] is [rr*]. *)
Definition Plus (r : regex) : regex := Seq r (Star r).

(** A literal run of characters. *)
Fixpoint Lit (s : jsstring) : regex :=
  match s with
  | [] => Empty
  | c :: rest => Seq (Char c) (Lit rest)
  end.

(** [\w]: [A-Za-z0-9_]. *)
Definition isWordChar (c : char) : bool :=
  ((97 <=? c) && (c <=? 122) || (65 <=? c) && (c <=? 90)
   || (48 <=? c) && (c <=? 57) || (c =? 95))%N.

(** Line terminators: LF, CR, U+2028 and U+2029. *)
Definition isLineTerminator (c : char) : bool :=
  ((c =? 10) || (c =? 13) || (c =? 8232) || (c =? 8233))%N.

(** [.] without the [s] flag: any code unit but a line terminator. *)
Definition Dot : regex := Class (fun c => negb (isLineTerminator c)).
Definition Word : regex := Class isWordChar.

(** Captures: group number to the [start, end) range it matched last. *)
Definition captures := list (nat * (nat * nat)).

(** The state a successful match ends in: end index and captures. *)
Definition MatchState := (nat * captures)%type.

(** The backtracking matcher: [matcher r s i caps k] matches [r] in [s] from
    index [i] and hands the end index and captures to the continuation [k];
    when [k] fails the matcher tries its next alternative (a shorter
    repetition).  An iteration of [Star] that consumes nothing is rejected,
    so at most [length s] iterations are ever needed. *)
Fixpoint matcher (r : regex) (s : jsstring) (i : nat) (caps : captures)
    (k : nat -> captures -> option MatchState) {struct r}
  : option MatchState :=
  match r with
  | Empty => k i caps
  | Char c =>
      match nth_error s i with
      | Some d => if (c =? d)%N then k (S i) caps else None
      | None => None
      end
  | Class p =>
      match nth_error s i with
      | Some d => if p d then k (S i) caps else None
      | None => None
      end
  | Seq r1 r2 =>
      matcher r1 s i caps (fun j caps' => matcher r2 s j caps' k)
  | Star r' =>
      (fix loop (fuel i : nat) (caps : captures) {struct fuel}
         : option MatchState :=
         match fuel with
         | O => k i caps
         | S fuel' =>
             match
               matcher r' s i caps
                 (fun j caps' => if j =? i then None else loop fuel' j caps')
             with
             | Some st => Some st
             | None => k i caps
             end
         end) (List.length s) i caps
  | Group n r' =>
      matcher r' s i caps (fun j caps' => k j ((n, (i, j)) :: caps'))
  | AssertStart => if i =? 0 then k i caps else None
  | AssertEnd => if i =? List.length s then k i caps else None
  end.

(** [RegExpBuiltinExec] for a pattern without the [g] and [y] flags: the
    match is attempted at start index 0, 1, ..., [length s] in turn. *)
Fixpoint builtinExec (r : regex) (s : jsstring) (fuel lastIndex : nat)
  : option (nat * MatchState) :=
  match matcher r s lastIndex [] (fun j caps => Some (j, caps)) with
  | Some st => Some (lastIndex, st)
  | None =>
      match fuel with
      | O => None
      | S fuel' => builtinExec r s fuel' (S lastIndex)
      end
  end.

Definition substring (s : jsstring) (from to : nat) : jsstring :=
  firstn (to - from) (skipn from s).

Fixpoint lookupGroup (caps : captures) (n : nat) : option (nat * nat) :=
  match caps with
  | [] => None
  | (m, range) :: rest => if m =? n then Some range else lookupGroup rest n
  end.

(** The array [s.match(r)] returns, or [None] for [null]: element 0 is the
    matched text, element [n] the text of group [n] ([None] for a group that
    took no part in the match). *)
Record MatchArray := {
  matchStart : nat;
  matchEnd : nat;
  matchCaptures : captures;
  matchInput : jsstring
}.

Definition stringMatch (s : jsstring) (r : regex) : option MatchArray :=
  match builtinExec r s (List.length s) 0 with
  | Some (start, (stop, caps)) =>
      Some {| matchStart := start; matchEnd := stop;
              matchCaptures := caps; matchInput := s |}
  | None => None
  end.

Definition matchGroup (m : MatchArray) (n : nat) : option jsstring :=
  match n with
  | O => Some (substring (matchInput m) (matchStart m) (matchEnd m))
  | _ =>
      match lookupGroup (matchCaptures m) n with
      | Some (from, to) => Some (substring (matchInput m) from to)
      | None => None
      end
  end.

End RegExp.

(** ** Media codec helper: [fileToGenerativePart] *)

Module DataUrl.

Import RegExp.

Record InlineData := {
  data : jsstring;
  mimeType : jsstring
}.

(** The pattern of [fileToGenerativePart]: start of input, [data:], group 1
    = [image/] and one or more word characters, [;base64,], group 2 = any
    run of characters other than line terminators, end of input. *)
Definition dataUrlPattern : regex :=
  Seq AssertStart
 (Seq (Lit (js "data:"))
 (Seq (Group 1 (Seq (Lit (js "image/")) (Plus Word)))
 (Seq (Lit (js ";base64,"))
 (Seq (Group 2 (Star Dot))
      AssertEnd)))).

Definition invalidFormat : Thrown :=
  ThrownError (js "Invalid base64 string format").

(** A group that took no part in a match reads as [undefined]; both groups
    of [dataUrlPattern] take part in every match, so the reading of
    [undefined] as the empty string below is never used. *)
Definition groupText (m : MatchArray) (n : nat) : jsstring :=
  match matchGroup m n with Some t => t | None => [] end.

Definition fileToGenerativePart (base64 : jsstring) : Outcome InlineData :=
  match stringMatch base64 dataUrlPattern with
  | None => Throws invalidFormat
  | Some m =>
      let mimeType := groupText m 1 in
      let data := groupText m 2 in
      Returns {| data := data; mimeType := mimeType |}
  end.

End DataUrl.

(** ** Generation client *)

Module Gemini.

Import Wav DataUrl.

Local Open Scope nat_scope.

Fixpoint startsWith (s prefix : jsstring) : bool :=
  match prefix, s with
  | [], _ => true
  | _ :: _, [] => false
  | p :: prefix', c :: s' => (p =? c)%N && startsWith s' prefix'
  end.

(** [s.includes(search)] *)
Fixpoint includes (s search : jsstring) : bool :=
  startsWith s search
  || match s with
     | [] => false
     | _ :: s' => includes s' search
     end.

(** *** What the remote service and the browser answer *)

(** The inline data of a part of the answer; the service may leave out its
    [data] and its [mimeType] ([None] for [undefined]). *)
Module Inline.
Record InlineData := {
  data : option jsstring;
  mimeType : option jsstring
}.
End Inline.

Record Part := {
  inlineData : option Inline.InlineData;
  text : option jsstring
}.

Record Content := { parts : option (list Part) }.
Record Candidate := { content : option Content }.
Record GenerateContentResponse := { candidates : option (list Candidate) }.

Inductive ContentRequest :=
| ImageRequest (model : jsstring) (image : InlineData) (prompt : jsstring)
| SpeechRequest (model : jsstring) (prompt : jsstring) (voiceName : jsstring).

Inductive AspectRatio := Landscape | Portrait.

Definition aspectRatioText (r : AspectRatio) : jsstring :=
  match r with
  | Landscape => js "16:9"
  | Portrait => js "9:16"
  end.

Record VideoRequest := {
  videoModel : jsstring;
  videoPrompt : jsstring;
  imageBytes : jsstring;
  imageMimeType : jsstring;
  numberOfVideos : nat;
  resolution : jsstring;
  videoAspectRatio : AspectRatio
}.

(** A [GenerateVideosOperation]: [done], and
    [response?.generatedVideos?.[0]?.video?.uri] ([None] for [undefined]). *)
Record Operation := {
  done : bool;
  videoUri : option jsstring
}.

(** What [fetch] resolves to: [ok], [statusText] and the outcome of
    [blob()]. *)
Record Response := {
  ok : bool;
  statusText : jsstring;
  blob : Outcome Blob
}.

(** Everything outside the repository that a synthesis call talks to.
    [getVideosOperation] lists the answers of the successive polls. *)
Record Remote := {
  apiKey : option jsstring;
  generateContent : ContentRequest -> Outcome GenerateContentResponse;
  newGoogleGenAI : Outcome unit;
  generateVideos : VideoRequest -> Outcome Operation;
  getVideosOperation : list (Outcome Operation);
  fetch : jsstring -> Outcome Response;
  atob : jsstring -> Outcome jsstring;
  createObjectURL : Blob -> jsstring
}.

(** Reading a property of [undefined], or iterating [undefined], throws a
    TypeError; its message is the engine's. *)
Definition typeError : Thrown :=
  ThrownError (js "Cannot read properties of undefined").

(** [`${x}`] for a [string | undefined]. *)
Definition templateText (x : option jsstring) : jsstring :=
  match x with
  | Some s => s
  | None => js "undefined"
  end.

(** [decode]: [atob], then one byte per code unit ([Uint8Array] stores a
    code unit modulo 2^8). *)
Definition decode (env : Remote) (base64 : jsstring) : Outcome Uint8Array :=
  binaryString <- atob env base64 ;;
  Returns (Uint8Array_of (List.map (fun c => Z.of_N c mod 256)%Z binaryString)).

(** *** [generateImage] *)

Definition editSuffix : jsstring :=
  js ". Apply this edit while preserving the person's core facial features and likeness.".

Definition styleSuffix : jsstring :=
  js ". Ensure the person's facial features are preserved from the original image but place them in the described professional setting with appropriate attire. The final image should be a high-quality, realistic headshot.".

Definition noImageData : Thrown :=
  ThrownError (js "No image data was found in the API response.").

Definition imageKeyMessage : jsstring :=
  js "The API key is invalid or missing. Please check your configuration.".

Definition imageFailedMessage : jsstring :=
  js "Failed to generate the image due to an API error. Please try again later.".

(** [response.candidates[0].content.parts] *)
Definition firstCandidateParts (response : GenerateContentResponse)
  : Outcome (list Part) :=
  match candidates response with
  | None => Throws typeError
  | Some [] => Throws typeError
  | Some (candidate :: _) =>
      match content candidate with
      | None => Throws typeError
      | Some c =>
          match parts c with
          | None => Throws typeError
          | Some ps => Returns ps
          end
      end
  end.

(** The [for ... of] loop over the parts: the first part with [inlineData]
    is returned as a data URL; the [throw] after the loop is reached when
    there is none. *)
Fixpoint firstInlineImage (ps : list Part) : Outcome jsstring :=
  match ps with
  | [] => Throws noImageData
  | part :: rest =>
      match inlineData part with
      | Some d =>
          let base64ImageData := templateText (Inline.data d) in
          Returns (js "data:" ++ templateText (Inline.mimeType d)
                   ++ js ";base64," ++ base64ImageData)
      | None => firstInlineImage rest
      end
  end.

(** The body of the [try] block. *)
Definition generateImage_try (env : Remote)
    (base64Image prompt : jsstring) (isEdit : bool) : Outcome jsstring :=
  imagePart <- fileToGenerativePart base64Image ;;
  let fullPrompt :=
    if isEdit then prompt ++ editSuffix else prompt ++ styleSuffix in
  response <-
    generateContent env
      (ImageRequest (js "gemini-2.5-flash-image") imagePart fullPrompt) ;;
  ps <- firstCandidateParts response ;;
  firstInlineImage ps.

(** The [catch] block. *)
Definition generateImage_catch (error : Thrown) : Thrown :=
  match error with
  | ThrownError message =>
      if includes message (js "API key")
      then ThrownError imageKeyMessage
      else ThrownError imageFailedMessage
  | ThrownOther => ThrownError imageFailedMessage
  end.

Definition generateImage (env : Remote)
    (base64Image prompt : jsstring) (isEdit : bool) : Outcome jsstring :=
  match generateImage_try env base64Image prompt isEdit with
  | Returns url => Returns url
  | Throws error => Throws (generateImage_catch error)
  end.

(** *** [generateSpeech] *)

Definition noAudioData : Thrown :=
  ThrownError (js "No audio data found in the API response.").

Definition speechKeyMessage : jsstring :=
  js "The API key is invalid or missing. Please check your configuration.".

Definition speechFailedMessage : jsstring :=
  js "Failed to generate audio due to an API error.".

(** [response.candidates?.[0]?.content?.parts?.[0]?.inlineData?.data] *)
Definition firstInlineAudio (response : GenerateContentResponse)
  : option jsstring :=
  match candidates response with
  | Some (candidate :: _) =>
      match content candidate with
      | Some c =>
          match parts c with
          | Some (part :: _) =>
              match inlineData part with
              | Some d => Inline.data d
              | None => None
              end
          | _ => None
          end
      | None => None
      end
  | _ => None
  end.

Definition generateSpeech_try (env : Remote) (prompt : jsstring)
  : Outcome jsstring :=
  response <-
    generateContent env
      (SpeechRequest (js "gemini-2.5-flash-preview-tts") prompt (js "Kore")) ;;
  let base64Audio := firstInlineAudio response in
  if negb (truthy_slot base64Audio) then Throws noAudioData
  else
    pcmData <- decode env (templateText base64Audio) ;;
    wavBlob <- pcmToWav pcmData 24000 ;;
    Returns (createObjectURL env wavBlob).

Definition generateSpeech_catch (error : Thrown) : Thrown :=
  match error with
  | ThrownError message =>
      if includes message (js "API key")
      then ThrownError speechKeyMessage
      else ThrownError speechFailedMessage
  | ThrownOther => ThrownError speechFailedMessage
  end.

Definition generateSpeech (env : Remote) (prompt : jsstring)
  : Outcome jsstring :=
  match generateSpeech_try env prompt with
  | Returns url => Returns url
  | Throws error => Throws (generateSpeech_catch error)
  end.

(** *** [generateVideo] *)

Definition noVideoUri : Thrown :=
  ThrownError (js "Video generation finished but no video URI was found.").

Definition videoKeyMessage : jsstring :=
  js "The API key is invalid or missing. Please select a valid key and try again.".

Definition videoKeyValidationMessage : jsstring :=
  js "API Key validation failed. Please re-select your API key and try again.".

Definition videoFailedMessage : jsstring :=
  js "Failed to generate the video due to an API error. Please try again later.".

Definition progressInitiating : jsstring :=
  js "Initiating video generation...".

Definition progressInProgress : jsstring :=
  js "Generation in progress... This may take several minutes.".

Definition progressDownloading : jsstring :=
  js "Downloading generated video...".

(** The polling loop, [while (!operation.done) { sleep 10 s; operation =
    await getVideosOperation(operation) }], run against the answers the
    service gives to the successive polls.  [None]: every listed answer has
    been consumed and the operation is still not done, the loop is still
    waiting. *)
Fixpoint pollLoop (polls : list (Outcome Operation)) (operation : Operation)
  : option (Outcome Operation) :=
  if done operation then Some (Returns operation)
  else
    match polls with
    | [] => None
    | Throws e :: _ => Some (Throws e)
    | Returns operation' :: rest => pollLoop rest operation'
    end.

Section GenerateVideo.

(** The caller's [onProgress] callback acts on some state of the caller. *)
Context {S : Type}.
Variable onProgress : jsstring -> S -> S.

(** The body of the [try] block; the second component is [None] while the
    promise has not settled. *)
Definition generateVideo_try (env : Remote) (base64Image prompt : jsstring)
    (aspectRatio : AspectRatio) (s : S) : S * option (Outcome jsstring) :=
  match newGoogleGenAI env with
  | Throws e => (s, Some (Throws e))
  | Returns _ =>
  match fileToGenerativePart base64Image with
  | Throws e => (s, Some (Throws e))
  | Returns imagePart =>
  let s := onProgress progressInitiating s in
  match
    generateVideos env
      {| videoModel := js "veo-3.1-fast-generate-preview";
         videoPrompt := prompt;
         imageBytes := data imagePart;
         imageMimeType := mimeType imagePart;
         numberOfVideos := 1;
         resolution := js "720p";
         videoAspectRatio := aspectRatio |}
  with
  | Throws e => (s, Some (Throws e))
  | Returns operation =>
  let s := onProgress progressInProgress s in
  match pollLoop (getVideosOperation env) operation with
  | None => (s, None)
  | Some (Throws e) => (s, Some (Throws e))
  | Some (Returns operation) =>
  if negb (truthy_slot (videoUri operation))
  then (s, Some (Throws noVideoUri))
  else
  let downloadLink := templateText (videoUri operation) in
  let s := onProgress progressDownloading s in
  match fetch env (downloadLink ++ js "&key=" ++ templateText (apiKey env)) with
  | Throws e => (s, Some (Throws e))
  | Returns response =>
  if negb (ok response)
  then (s, Some (Throws (ThrownError
                           (js "Failed to download video: "
                            ++ statusText response))))
  else
  match blob response with
  | Throws e => (s, Some (Throws e))
  | Returns videoBlob => (s, Some (Returns (createObjectURL env videoBlob)))
  end end end end end end.

(** The [catch] block. *)
Definition generateVideo_catch (error : Thrown) : Thrown :=
  match error with
  | ThrownError message =>
      if includes message (js "API key")
      then ThrownError videoKeyMessage
      else if includes message (js "not found")
      then ThrownError videoKeyValidationMessage
      else ThrownError videoFailedMessage
  | ThrownOther => ThrownError videoFailedMessage
  end.

Definition generateVideo (env : Remote) (base64Image prompt : jsstring)
    (aspectRatio : AspectRatio) (s : S) : S * option (Outcome jsstring) :=
  match generateVideo_try env base64Image prompt aspectRatio s with
  | (s', Some (Throws error)) => (s', Some (Throws (generateVideo_catch error)))
  | settled => settled
  end.

End GenerateVideo.

End Gemini.

(** ** View-state controller *)

Module App.



Local Open Scope nat_scope.

Inductive AppStep := UPLOAD | STYLE | EDIT | VIDEO.

Definition AppStep_eqb (a b : AppStep) : bool :=
  match a, b with
  | UPLOAD, UPLOAD | STYLE, STYLE | EDIT, EDIT | VIDEO, VIDEO => true
  | _, _ => false
  end.

(** The component's [useState] slots, its [useRef] slot, and what it uses of
    the browser: the interval timers that are running (each with the
    [messageIndex] of its callback's closure), the next timer handle
    [setInterval] will return (handles are positive integers), the lines
    written by [console.log], and whether [window.aistudio] exists. *)
Record State := {
  step : AppStep;
  originalImage : option jsstring;
  generatedImage : option jsstring;
  stylePrompt : jsstring;
  editPrompt : jsstring;
  isLoading : bool;
  loadingMessage : jsstring;
  error : option jsstring;
  isChatOpen : bool;
  videoPrompt : jsstring;
  aspectRatio : Gemini.AspectRatio;
  generatedVideoUrl : option jsstring;
  isKeySelected : bool;
  isGeneratingAudio : bool;
  generatedAudioUrl : option jsstring;
  loadingMessageIntervalRef : option positive;
  intervals : list (positive * nat);
  nextIntervalId : positive;
  console : list jsstring;
  aistudio : bool
}.

Definition setStep (v : AppStep) (st : State) : State :=
  {| step := v; originalImage := originalImage st;
     generatedImage := generatedImage st; stylePrompt := stylePrompt st;
     editPrompt := editPrompt st; isLoading := isLoading st;
     loadingMessage := loadingMessage st; error := error st;
     isChatOpen := isChatOpen st; videoPrompt := videoPrompt st;
     aspectRatio := aspectRatio st;
     generatedVideoUrl := generatedVideoUrl st;
     isKeySelected := isKeySelected st;
     isGeneratingAudio := isGeneratingAudio st;
     generatedAudioUrl := generatedAudioUrl st;
     loadingMessageIntervalRef := loadingMessageIntervalRef st;
     intervals := intervals st; nextIntervalId := nextIntervalId st;
     console := console st; aistudio := aistudio st |}.

Definition setOriginalImage (v : option jsstring) (st : State) : State :=
  {| step := step st; originalImage := v;
     generatedImage := generatedImage st; stylePrompt := stylePrompt st;
     editPrompt := editPrompt st; isLoading := isLoading st;
     loadingMessage := loadingMessage st; error := error st;
     isChatOpen := isChatOpen st; videoPrompt := videoPrompt st;
     aspectRatio := aspectRatio st;
     generatedVideoUrl := generatedVideoUrl st;
     isKeySelected := isKeySelected st;
     isGeneratingAudio := isGeneratingAudio st;
     generatedAudioUrl := generatedAudioUrl st;
     loadingMessageIntervalRef := loadingMessageIntervalRef st;
     intervals := intervals st; nextIntervalId := nextIntervalId st;
     console := console st; aistudio := aistudio st |}.

Definition setGeneratedImage (v : option jsstring) (st : State) : State :=
  {| step := step st; originalImage := originalImage st; generatedImage := v;
     stylePrompt := stylePrompt st; editPrompt := editPrompt st;
     isLoading := isLoading st; loadingMessage := loadingMessage st;
     error := error st; isChatOpen := isChatOpen st;
     videoPrompt := videoPrompt st; aspectRatio := aspectRatio st;
     generatedVideoUrl := generatedVideoUrl st;
     isKeySelected := isKeySelected st;
     isGeneratingAudio := isGeneratingAudio st;
     generatedAudioUrl := generatedAudioUrl st;
     loadingMessageIntervalRef := loadingMessageIntervalRef st;
     intervals := intervals st; nextIntervalId := nextIntervalId st;
     console := console st; aistudio := aistudio st |}.

Definition setStylePrompt (v : jsstring) (st : State) : State :=
  {| step := step st; originalImage := originalImage st;
     generatedImage := generatedImage st; stylePrompt := v;
     editPrompt := editPrompt st; isLoading := isLoading st;
     loadingMessage := loadingMessage st; error := error st;
     isChatOpen := isChatOpen st; videoPrompt := videoPrompt st;
     aspectRatio := aspectRatio st;
     generatedVideoUrl := generatedVideoUrl st;
     isKeySelected := isKeySelected st;
     isGeneratingAudio := isGeneratingAudio st;
     generatedAudioUrl := generatedAudioUrl st;
     loadingMessageIntervalRef := loadingMessageIntervalRef st;
     intervals := intervals st; nextIntervalId := nextIntervalId st;
     console := console st; aistudio := aistudio st |}.

Definition setEditPrompt (v : jsstring) (st : State) : State :=
  {| step := step st; originalImage := originalImage st;
     generatedImage := generatedImage st; stylePrompt := stylePrompt st;
     editPrompt := v; isLoading := isLoading st;
     loadingMessage := loadingMessage st; error := error st;
     isChatOpen := isChatOpen st; videoPrompt := videoPrompt st;
     aspectRatio := aspectRatio st;
     generatedVideoUrl := generatedVideoUrl st;
     isKeySelected := isKeySelected st;
     isGeneratingAudio := isGeneratingAudio st;
     generatedAudioUrl := generatedAudioUrl st;
     loadingMessageIntervalRef := loadingMessageIntervalRef st;
     intervals := intervals st; nextIntervalId := nextIntervalId st;
     console := console st; aistudio := aistudio st |}.

Definition setIsLoading (v : bool) (st : State) : State :=
  {| step := step st; originalImage := originalImage st;
     generatedImage := generatedImage st; stylePrompt := stylePrompt st;
     editPrompt := editPrompt st; isLoading := v;
     loadingMessage := loadingMessage st; error := error st;
     isChatOpen := isChatOpen st; videoPrompt := videoPrompt st;
     aspectRatio := aspectRatio st;
     generatedVideoUrl := generatedVideoUrl st;
     isKeySelected := isKeySelected st;
     isGeneratingAudio := isGeneratingAudio st;
     generatedAudioUrl := generatedAudioUrl st;
     loadingMessageIntervalRef := loadingMessageIntervalRef st;
     intervals := intervals st; nextIntervalId := nextIntervalId st;
     console := console st; aistudio := aistudio st |}.

Definition setLoadingMessage (v : jsstring) (st : State) : State :=
  {| step := step st; originalImage := originalImage st;
     generatedImage := generatedImage st; stylePrompt := stylePrompt st;
     editPrompt := editPrompt st; isLoading := isLoading st;
     loadingMessage := v; error := error st; isChatOpen := isChatOpen st;
     videoPrompt := videoPrompt st; aspectRatio := aspectRatio st;
     generatedVideoUrl := generatedVideoUrl st;
     isKeySelected := isKeySelected st;
     isGeneratingAudio := isGeneratingAudio st;
     generatedAudioUrl := generatedAudioUrl st;
     loadingMessageIntervalRef := loadingMessageIntervalRef st;
     intervals := intervals st; nextIntervalId := nextIntervalId st;
     console := console st; aistudio := aistudio st |}.

Definition setError (v : option jsstring) (st : State) : State :=
  {| step := step st; originalImage := originalImage st;
     generatedImage := generatedImage st; stylePrompt := stylePrompt st;
     editPrompt := editPrompt st; isLoading := isLoading st;
     loadingMessage := loadingMessage st; error := v;
     isChatOpen := isChatOpen st; videoPrompt := videoPrompt st;
     aspectRatio := aspectRatio st;
     generatedVideoUrl := generatedVideoUrl st;
     isKeySelected := isKeySelected st;
     isGeneratingAudio := isGeneratingAudio st;
     generatedAudioUrl := generatedAudioUrl st;
     loadingMessageIntervalRef := loadingMessageIntervalRef st;
     intervals := intervals st; nextIntervalId := nextIntervalId st;
     console := console st; aistudio := aistudio st |}.

Definition setIsChatOpen (v : bool) (st : State) : State :=
  {| step := step st; originalImage := originalImage st;
     generatedImage := generatedImage st; stylePrompt := stylePrompt st;
     editPrompt := editPrompt st; isLoading := isLoading st;
     loadingMessage := loadingMessage st; error := error st; isChatOpen := v;
     videoPrompt := videoPrompt st; aspectRatio := aspectRatio st;
     generatedVideoUrl := generatedVideoUrl st;
     isKeySelected := isKeySelected st;
     isGeneratingAudio := isGeneratingAudio st;
     generatedAudioUrl := generatedAudioUrl st;
     loadingMessageIntervalRef := loadingMessageIntervalRef st;
     intervals := intervals st; nextIntervalId := nextIntervalId st;
     console := console st; aistudio := aistudio st |}.

Definition setVideoPrompt (v : jsstring) (st : State) : State :=
  {| step := step st; originalImage := originalImage st;
     generatedImage := generatedImage st; stylePrompt := stylePrompt st;
     editPrompt := editPrompt st; isLoading := isLoading st;
     loadingMessage := loadingMessage st; error := error st;
     isChatOpen := isChatOpen st; videoPrompt := v;
     aspectRatio := aspectRatio st;
     generatedVideoUrl := generatedVideoUrl st;
     isKeySelected := isKeySelected st;
     isGeneratingAudio := isGeneratingAudio st;
     generatedAudioUrl := generatedAudioUrl st;
     loadingMessageIntervalRef := loadingMessageIntervalRef st;
     intervals := intervals st; nextIntervalId := nextIntervalId st;
     console := console st; aistudio := aistudio st |}.

Definition setAspectRatio (v : Gemini.AspectRatio) (st : State) : State :=
  {| step := step st; originalImage := originalImage st;
     generatedImage := generatedImage st; stylePrompt := stylePrompt st;
     editPrompt := editPrompt st; isLoading := isLoading st;
     loadingMessage := loadingMessage st; error := error st;
     isChatOpen := isChatOpen st; videoPrompt := videoPrompt st;
     aspectRatio := v; generatedVideoUrl := generatedVideoUrl st;
     isKeySelected := isKeySelected st;
     isGeneratingAudio := isGeneratingAudio st;
     generatedAudioUrl := generatedAudioUrl st;
     loadingMessageIntervalRef := loadingMessageIntervalRef st;
     intervals := intervals st; nextIntervalId := nextIntervalId st;
     console := console st; aistudio := aistudio st |}.

Definition setGeneratedVideoUrl (v : option jsstring) (st : State) : State :=
  {| step := step st; originalImage := originalImage st;
     generatedImage := generatedImage st; stylePrompt := stylePrompt st;
     editPrompt := editPrompt st; isLoading := isLoading st;
     loadingMessage := loadingMessage st; error := error st;
     isChatOpen := isChatOpen st; videoPrompt := videoPrompt st;
     aspectRatio := aspectRatio st; generatedVideoUrl := v;
     isKeySelected := isKeySelected st;
     isGeneratingAudio := isGeneratingAudio st;
     generatedAudioUrl := generatedAudioUrl st;
     loadingMessageIntervalRef := loadingMessageIntervalRef st;
     intervals := intervals st; nextIntervalId := nextIntervalId st;
     console := console st; aistudio := aistudio st |}.

Definition setIsKeySelected (v : bool) (st : State) : State :=
  {| step := step st; originalImage := originalImage st;
     generatedImage := generatedImage st; stylePrompt := stylePrompt st;
     editPrompt := editPrompt st; isLoading := isLoading st;
     loadingMessage := loadingMessage st; error := error st;
     isChatOpen := isChatOpen st; videoPrompt := videoPrompt st;
     aspectRatio := aspectRatio st;
     generatedVideoUrl := generatedVideoUrl st; isKeySelected := v;
     isGeneratingAudio := isGeneratingAudio st;
     generatedAudioUrl := generatedAudioUrl st;
     loadingMessageIntervalRef := loadingMessageIntervalRef st;
     intervals := intervals st; nextIntervalId := nextIntervalId st;
     console := console st; aistudio := aistudio st |}.

Definition setIsGeneratingAudio (v : bool) (st : State) : State :=
  {| step := step st; originalImage := originalImage st;
     generatedImage := generatedImage st; stylePrompt := stylePrompt st;
     editPrompt := editPrompt st; isLoading := isLoading st;
     loadingMessage := loadingMessage st; error := error st;
     isChatOpen := isChatOpen st; videoPrompt := videoPrompt st;
     aspectRatio := aspectRatio st;
     generatedVideoUrl := generatedVideoUrl st;
     isKeySelected := isKeySelected st; isGeneratingAudio := v;
     generatedAudioUrl := generatedAudioUrl st;
     loadingMessageIntervalRef := loadingMessageIntervalRef st;
     intervals := intervals st; nextIntervalId := nextIntervalId st;
     console := console st; aistudio := aistudio st |}.

Definition setGeneratedAudioUrl (v : option jsstring) (st : State) : State :=
  {| step := step st; originalImage := originalImage st;
     generatedImage := generatedImage st; stylePrompt := stylePrompt st;
     editPrompt := editPrompt st; isLoading := isLoading st;
     loadingMessage := loadingMessage st; error := error st;
     isChatOpen := isChatOpen st; videoPrompt := videoPrompt st;
     aspectRatio := aspectRatio st;
     generatedVideoUrl := generatedVideoUrl st;
     isKeySelected := isKeySelected st;
     isGeneratingAudio := isGeneratingAudio st; generatedAudioUrl := v;
     loadingMessageIntervalRef := loadingMessageIntervalRef st;
     intervals := intervals st; nextIntervalId := nextIntervalId st;
     console := console st; aistudio := aistudio st |}.

Definition setLoadingMessageIntervalRef (v : option positive) (st : State) : State :=
  {| step := step st; originalImage := originalImage st;
     generatedImage := generatedImage st; stylePrompt := stylePrompt st;
     editPrompt := editPrompt st; isLoading := isLoading st;
     loadingMessage := loadingMessage st; error := error st;
     isChatOpen := isChatOpen st; videoPrompt := videoPrompt st;
     aspectRatio := aspectRatio st;
     generatedVideoUrl := generatedVideoUrl st;
     isKeySelected := isKeySelected st;
     isGeneratingAudio := isGeneratingAudio st;
     generatedAudioUrl := generatedAudioUrl st;
     loadingMessageIntervalRef := v; intervals := intervals st;
     nextIntervalId := nextIntervalId st; console := console st;
     aistudio := aistudio st |}.

Definition setIntervals (v : list (positive * nat)) (st : State) : State :=
  {| step := step st; originalImage := originalImage st;
     generatedImage := generatedImage st; stylePrompt := stylePrompt st;
     editPrompt := editPrompt st; isLoading := isLoading st;
     loadingMessage := loadingMessage st; error := error st;
     isChatOpen := isChatOpen st; videoPrompt := videoPrompt st;
     aspectRatio := aspectRatio st;
     generatedVideoUrl := generatedVideoUrl st;
     isKeySelected := isKeySelected st;
     isGeneratingAudio := isGeneratingAudio st;
     generatedAudioUrl := generatedAudioUrl st;
     loadingMessageIntervalRef := loadingMessageIntervalRef st;
     intervals := v; nextIntervalId := nextIntervalId st;
     console := console st; aistudio := aistudio st |}.

Definition setNextIntervalId (v : positive) (st : State) : State :=
  {| step := step st; originalImage := originalImage st;
     generatedImage := generatedImage st; stylePrompt := stylePrompt st;
     editPrompt := editPrompt st; isLoading := isLoading st;
     loadingMessage := loadingMessage st; error := error st;
     isChatOpen := isChatOpen st; videoPrompt := videoPrompt st;
     aspectRatio := aspectRatio st;
     generatedVideoUrl := generatedVideoUrl st;
     isKeySelected := isKeySelected st;
     isGeneratingAudio := isGeneratingAudio st;
     generatedAudioUrl := generatedAudioUrl st;
     loadingMessageIntervalRef := loadingMessageIntervalRef st;
     intervals := intervals st; nextIntervalId := v; console := console st;
     aistudio := aistudio st |}.

Definition setConsole (v : list jsstring) (st : State) : State :=
  {| step := step st; originalImage := originalImage st;
     generatedImage := generatedImage st; stylePrompt := stylePrompt st;
     editPrompt := editPrompt st; isLoading := isLoading st;
     loadingMessage := loadingMessage st; error := error st;
     isChatOpen := isChatOpen st; videoPrompt := videoPrompt st;
     aspectRatio := aspectRatio st;
     generatedVideoUrl := generatedVideoUrl st;
     isKeySelected := isKeySelected st;
     isGeneratingAudio := isGeneratingAudio st;
     generatedAudioUrl := generatedAudioUrl st;
     loadingMessageIntervalRef := loadingMessageIntervalRef st;
     intervals := intervals st; nextIntervalId := nextIntervalId st;
     console := v; aistudio := aistudio st |}.

(** *** Constants *)

Record HeadshotStyle := {
  name : jsstring;
  prompt : jsstring
}.

(** [HEADSHOT_STYLES]; the [emoji] of an entry is only displayed and is left
    out. *)
Definition HEADSHOT_STYLES : list HeadshotStyle :=
  [ {| name := js "Corporate Grey";
       prompt := js "A professional corporate headshot with a solid, neutral grey backdrop. The lighting should be soft and even. The person should be wearing a classic business suit or blazer." |};
    {| name := js "Modern Tech Office";
       prompt := js "A professional headshot set in a modern, brightly-lit tech office with a tastefully blurred background featuring glass walls and plants. The person should be wearing smart casual attire like a button-down shirt." |};
    {| name := js "Outdoor Natural";
       prompt := js "A professional headshot taken outdoors with soft, natural light. The background should be a pleasant, out-of-focus natural scene like a park or green space. The attire should be business casual." |};
    {| name := js "Black & White";
       prompt := js "A classic, dramatic black and white headshot with strong, moody lighting against a dark backdrop. The focus should be on facial expression. Attire should be simple and dark." |};
    {| name := js "Creative Studio";
       prompt := js "A vibrant, creative headshot against a colorful, solid backdrop (e.g., teal, mustard yellow). The lighting is bright and energetic. The person can have a more expressive pose and creative attire." |};
    {| name := js "Academic";
       prompt := js "A professional headshot set against a backdrop of a bookshelf or a university campus setting. The person should look thoughtful and approachable, wearing academic or smart casual attire." |} ].

Definition VIDEO_LOADING_MESSAGES : list jsstring :=
  [ js "Warming up the director's chair...";
    js "Setting up the virtual cameras...";
    js "Action! The AI is starting to film.";
    js "Rendering your masterpiece, frame by frame.";
    js "This can take a few minutes, good things come to those who wait!";
    js "Applying final special effects...";
    js "Almost ready for the premiere!" ].

(** [VIDEO_LOADING_MESSAGES[i]] as a string. *)
Definition videoLoadingMessage (i : nat) : jsstring :=
  nth i VIDEO_LOADING_MESSAGES (js "undefined").

(** *** Handlers as processes *)

(** What a handler awaits: the two capabilities of the host and the three
    synthesis operations of the generation client. *)
Inductive Request : Type -> Type :=
| HasSelectedApiKey : Request bool
| OpenSelectKey : Request unit
| GenerateImage (base64Image prompt : jsstring) (isEdit : bool)
  : Request jsstring
| GenerateSpeech (prompt : jsstring) : Request jsstring
| GenerateVideo (base64Image prompt : jsstring)
    (aspectRatio : Gemini.AspectRatio) : Request jsstring.

(** The body of a handler: state updates and reads of the live state, cut at
    each [await] into a request and the rest of the body, which runs when the
    awaited promise has settled. *)
Inductive Proc (R : Type) : Type :=
| Ret (r : R)
| Upd (f : State -> State) (next : Proc R)
| Read (k : State -> Proc R)
| Await {A : Type} (req : Request A) (k : Outcome A -> Proc R).
Arguments Ret {R} r.
Arguments Upd {R} f next.
Arguments Read {R} k.
Arguments Await {R A} req k.

Fixpoint andThen {R T} (p : Proc R) (q : R -> Proc T) : Proc T :=
  match p with
  | Ret r => q r
  | Upd f next => Upd f (andThen next q)
  | Read k => Read (fun st => andThen (k st) q)
  | Await req k => Await req (fun o => andThen (k o) q)
  end.

Notation "f ;> p" := (Upd f p) (at level 62, right associativity).

(** [err instanceof Error ? err.message : fallback] *)
Definition messageOr (fallback : jsstring) (err : Thrown) : jsstring :=
  match err with
  | ThrownError message => message
  | ThrownOther => fallback
  end.

(** [window.setInterval(callback, 5000)] returning handle [id]: the timer
    runs, its closure's [messageIndex] being [messageIndex]. *)
Definition startInterval (id : positive) (messageIndex : nat) (st : State)
  : State :=
  setNextIntervalId (Pos.succ id) (setIntervals ((id, messageIndex) :: intervals st) st).

(** [clearInterval(id)] *)
Definition clearInterval (id : positive) (st : State) : State :=
  setIntervals (filter (fun t => negb (Pos.eqb (fst t) id)) (intervals st)) st.

(** [console.log(...)] *)
Definition consoleLog (line : jsstring) (st : State) : State :=
  setConsole (console st ++ [line]) st.

(** [if (loadingMessageIntervalRef.current) { clearInterval(...);
    loadingMessageIntervalRef.current = null }], as it ends [handleReset] and
    opens the [finally] block of [handleGenerateVideo]; a handle is a
    positive integer, so a handle in the slot is truthy. *)
Definition clearLoadingMessageInterval (next : Proc unit) : Proc unit :=
  Read (fun st =>
    match loadingMessageIntervalRef st with
    | Some id =>
        clearInterval id ;> setLoadingMessageIntervalRef None ;> next
    | None => next
    end).

Definition checkApiKey : Proc (Outcome bool) :=
  Read (fun st =>
    if aistudio st then
      Await HasSelectedApiKey (fun r =>
        match r with
        | Returns hasKey => setIsKeySelected hasKey ;> Ret (Returns hasKey)
        | Throws e => Ret (Throws e)
        end)
    else Ret (Returns false)).

(** The effect [useEffect(() => { if (step === 'VIDEO') checkApiKey() },
    [step, checkApiKey])], run after a render in which [step] changed; the
    promise of [checkApiKey] is dropped. *)
Definition stepEffect (st : State) : Proc unit :=
  if AppStep_eqb (step st) VIDEO
  then andThen checkApiKey (fun _ => Ret tt)
  else Ret tt.

Definition handleImageUpload (base64Image : jsstring) : Proc unit :=
  setOriginalImage (Some base64Image) ;>
  setGeneratedImage None ;>
  setStylePrompt [] ;>
  setError None ;>
  setStep STYLE ;>
  Ret tt.

Definition handleReset : Proc unit :=
  setStep UPLOAD ;>
  setOriginalImage None ;>
  setGeneratedImage None ;>
  setStylePrompt [] ;>
  setEditPrompt [] ;>
  setIsLoading false ;>
  setLoadingMessage [] ;>
  setError None ;>
  setVideoPrompt [] ;>
  setAspectRatio Gemini.Landscape ;>
  setGeneratedVideoUrl None ;>
  setGeneratedAudioUrl None ;>
  clearLoadingMessageInterval (Ret tt).

(** The handlers below close over the state of the render they were created
    in, [snap]. *)
Definition handleGenerate (snap : State) : Proc unit :=
  match originalImage snap with
  | None => Ret tt
  | Some originalImage =>
  if negb (truthy originalImage) || negb (truthy (stylePrompt snap))
  then Ret tt
  else
    setIsLoading true ;>
    setLoadingMessage
      (js "Crafting your new headshot... This may take a moment.") ;>
    setError None ;>
    Await (GenerateImage originalImage (stylePrompt snap) false) (fun r =>
      match r with
      | Returns result =>
          setGeneratedImage (Some result) ;>
          setStep EDIT ;>
          setIsLoading false ;>
          Ret tt
      | Throws err =>
          setError (Some (messageOr (js "An unknown error occurred.") err)) ;>
          setIsLoading false ;>
          Ret tt
      end)
  end.

Definition handleEdit (snap : State) : Proc unit :=
  match generatedImage snap with
  | None => Ret tt
  | Some generatedImage =>
  if negb (truthy generatedImage) || negb (truthy (editPrompt snap))
  then Ret tt
  else
    setIsLoading true ;>
    setLoadingMessage (js "Applying your edits...") ;>
    setError None ;>
    setGeneratedAudioUrl None ;>
    Await (GenerateImage generatedImage (editPrompt snap) true) (fun r =>
      match r with
      | Returns result =>
          setGeneratedImage (Some result) ;>
          setEditPrompt [] ;>
          setIsLoading false ;>
          Ret tt
      | Throws err =>
          setError (Some (messageOr (js "An unknown error occurred.") err)) ;>
          setIsLoading false ;>
          Ret tt
      end)
  end.

(** [HEADSHOT_STYLES.find(s => s.prompt === stylePrompt)?.name || 'this'] *)
Definition styleNameOf (stylePrompt : jsstring) : jsstring :=
  match find (fun s => jsstring_eqb (prompt s) stylePrompt) HEADSHOT_STYLES with
  | Some s => if truthy (name s) then name s else js "this"
  | None => js "this"
  end.

Definition handleGenerateVoiceGuide (snap : State) : Proc unit :=
  if negb (truthy (stylePrompt snap)) then Ret tt
  else
    let styleName := styleNameOf (stylePrompt snap) in
    let prompt :=
      js "Give a friendly, concise voice guide for a headshot in the '"
      ++ styleName
      ++ js "' style. Include one quick photography tip." in
    setIsGeneratingAudio true ;>
    setError None ;>
    Await (GenerateSpeech prompt) (fun r =>
      match r with
      | Returns audioUrl =>
          setGeneratedAudioUrl (Some audioUrl) ;>
          setIsGeneratingAudio false ;>
          Ret tt
      | Throws err =>
          setError (Some (messageOr (js "Failed to generate audio.") err)) ;>
          setIsGeneratingAudio false ;>
          Ret tt
      end).

(** The [onProgress] callback [handleGenerateVideo] passes to
    [generateVideo]: it only writes to the console. *)
Definition onProgress (message : jsstring) (st : State) : State :=
  consoleLog (js "Video Progress: " ++ message) st.

Definition handleGenerateVideo (snap : State) : Proc unit :=
  match generatedImage snap with
  | None => Ret tt
  | Some generatedImage =>
  if negb (truthy generatedImage) || negb (truthy (videoPrompt snap))
  then Ret tt
  else
    let finally_ : Proc unit :=
      clearLoadingMessageInterval (setIsLoading false ;> Ret tt) in
    let catch_ (err : Thrown) : Proc unit :=
      setError
        (Some (messageOr
                 (js "An unknown error occurred while generating the video.")
                 err)) ;>
      finally_ in
    let generate : Proc unit :=
      setIsLoading true ;>
      (* Start cycling through loading messages *)
      setLoadingMessage (videoLoadingMessage 0) ;>
      Read (fun st =>
        let id := nextIntervalId st in
        startInterval id 0 ;>
        setLoadingMessageIntervalRef (Some id) ;>
        Await (GenerateVideo generatedImage (videoPrompt snap)
                 (aspectRatio snap)) (fun r =>
          match r with
          | Returns result => setGeneratedVideoUrl (Some result) ;> finally_
          | Throws err => catch_ err
          end)) in
    andThen checkApiKey (fun r =>
      match r with
      | Throws err => catch_ err
      | Returns hasKey =>
          if negb hasKey then
            Read (fun st =>
              if aistudio st then
                Await OpenSelectKey (fun r =>
                  match r with
                  | Returns _ =>
                      (* Assume key is selected now and proceed *)
                      setIsKeySelected true ;> generate
                  | Throws err => catch_ err
                  end)
              else catch_ Gemini.typeError)
          else generate
      end)
  end.

(** The callback of the interval started by [handleGenerateVideo], for the
    timer with handle [id]: it advances its own [messageIndex] and shows the
    message at that index. *)
Definition tick (id : positive) (st : State) : State :=
  match find (fun t => Pos.eqb (fst t) id) (intervals st) with
  | None => st
  | Some (_, messageIndex) =>
      let messageIndex :=
        (messageIndex + 1) mod List.length VIDEO_LOADING_MESSAGES in
      setLoadingMessage (videoLoadingMessage messageIndex)
        (setIntervals
           (List.map (fun t => if Pos.eqb (fst t) id then (id, messageIndex) else t)
              (intervals st))
           st)
  end.

(** *** User events *)

Inductive Event :=
| ImageUploaded (base64Image : jsstring)
| StyleSelected (prompt : jsstring)
| GenerateClicked
| EditPromptChanged (value : jsstring)
| ApplyEditClicked
| VoiceGuideClicked
| AnimateClicked
| VideoPromptChanged (value : jsstring)
| AspectRatioClicked (ratio : Gemini.AspectRatio)
| SelectKeyClicked
| GenerateVideoClicked
| BackToEditingClicked
| StartOverClicked
| ChatOpened
| ChatClosed.

Definition handler (ev : Event) (snap : State) : Proc unit :=
  match ev with
  | ImageUploaded base64Image => handleImageUpload base64Image
  | StyleSelected prompt => setStylePrompt prompt ;> Ret tt
  | GenerateClicked => handleGenerate snap
  | EditPromptChanged value => setEditPrompt value ;> Ret tt
  | ApplyEditClicked => handleEdit snap
  | VoiceGuideClicked => handleGenerateVoiceGuide snap
  | AnimateClicked => setStep VIDEO ;> Ret tt
  | VideoPromptChanged value => setVideoPrompt value ;> Ret tt
  | AspectRatioClicked ratio => setAspectRatio ratio ;> Ret tt
  | SelectKeyClicked =>
      Read (fun st =>
        if aistudio st then
          Await OpenSelectKey (fun r =>
            match r with
            | Returns _ => setIsKeySelected true ;> Ret tt
            | Throws _ => Ret tt
            end)
        else Ret tt)
  | GenerateVideoClicked => handleGenerateVideo snap
  | BackToEditingClicked => setStep EDIT ;> Ret tt
  | StartOverClicked => handleReset
  | ChatOpened => setIsChatOpen true ;> Ret tt
  | ChatClosed => setIsChatOpen false ;> Ret tt
  end.

(** Whether the control that raises the event is on the screen and not
    disabled, from [renderContent]. *)
Definition enabled (ev : Event) (st : State) : bool :=
  match ev with
  | ImageUploaded _ => AppStep_eqb (step st) UPLOAD
  | StyleSelected _ => AppStep_eqb (step st) STYLE
  | GenerateClicked =>
      AppStep_eqb (step st) STYLE
      && negb (negb (truthy (stylePrompt st)) || isLoading st)
  | EditPromptChanged _ => AppStep_eqb (step st) EDIT
  | ApplyEditClicked =>
      AppStep_eqb (step st) EDIT
      && negb (negb (truthy (editPrompt st)) || isLoading st)
  | VoiceGuideClicked =>
      AppStep_eqb (step st) EDIT
      && negb (isGeneratingAudio st || isLoading st)
  | AnimateClicked => AppStep_eqb (step st) EDIT
  | VideoPromptChanged _ | AspectRatioClicked _ | BackToEditingClicked =>
      AppStep_eqb (step st) VIDEO && negb (truthy_slot (generatedVideoUrl st))
  | SelectKeyClicked =>
      AppStep_eqb (step st) VIDEO && negb (truthy_slot (generatedVideoUrl st))
      && negb (isKeySelected st)
  | GenerateVideoClicked =>
      AppStep_eqb (step st) VIDEO && negb (truthy_slot (generatedVideoUrl st))
      && negb (negb (truthy (videoPrompt st)) || negb (isKeySelected st)
               || isLoading st)
  | StartOverClicked =>
      AppStep_eqb (step st) EDIT
      || AppStep_eqb (step st) VIDEO && truthy_slot (generatedVideoUrl st)
  | ChatOpened | ChatClosed => true
  end.

(** *** Running a process *)

Inductive Issued :=
| Issue {A : Type} (req : Request A).

Definition isKeyQuery (i : Issued) : bool :=
  match i with
  | Issue HasSelectedApiKey => true
  | Issue _ => false
  end.

(** How an awaited request is answered: the outcome the promise settles
    with ([None] when it never settles), and the state after the callbacks
    the callee ran meanwhile. *)
Definition Oracle := forall A, Request A -> State -> State * option (Outcome A).

Record Run (R : Type) := {
  final : State;
  issued : list Issued;
  result : option R
}.
Arguments final {R} r.
Arguments issued {R} r.
Arguments result {R} r.

(** Runs a process to its end, every awaited request being answered by the
    oracle before anything else happens. *)
Fixpoint execFrom {R} (oracle : Oracle) (p : Proc R) (st : State)
    (trace : list Issued) : Run R :=
  match p with
  | Ret r => {| final := st; issued := trace; result := Some r |}
  | Upd f next => execFrom oracle next (f st) trace
  | Read k => execFrom oracle (k st) st trace
  | Await req k =>
      match oracle _ req st with
      | (st', Some o) => execFrom oracle (k o) st' (trace ++ [Issue req])
      | (st', None) =>
          {| final := st'; issued := trace ++ [Issue req]; result := None |}
      end
  end.

Definition exec {R} (oracle : Oracle) (p : Proc R) (st : State) : Run R :=
  execFrom oracle p st [].

(** Where the synchronous start of a process stops: at its end, or at its
    first [await]. *)
Inductive Blocked (R : Type) : Type :=
| Finished (r : R)
| Waiting {A : Type} (req : Request A) (k : Outcome A -> Proc R).
Arguments Finished {R} r.
Arguments Waiting {R A} req k.

Fixpoint start {R} (p : Proc R) (st : State) : State * Blocked R :=
  match p with
  | Ret r => (st, Finished r)
  | Upd f next => start next (f st)
  | Read k => start (k st) st
  | Await req k => (st, Waiting req k)
  end.

(** The host and the remote service behind the requests. *)
Record Host := {
  hasSelectedApiKey : Outcome bool;
  openSelectKey : Outcome unit;
  remote : Gemini.Remote
}.

Definition hostOracle (h : Host) : Oracle :=
  fun A req =>
    match req in Request T return State -> State * option (Outcome T) with
    | HasSelectedApiKey => fun st => (st, Some (hasSelectedApiKey h))
    | OpenSelectKey => fun st => (st, Some (openSelectKey h))
    | GenerateImage base64Image prompt isEdit => fun st =>
        (st, Some (Gemini.generateImage (remote h) base64Image prompt isEdit))
    | GenerateSpeech prompt => fun st =>
        (st, Some (Gemini.generateSpeech (remote h) prompt))
    | GenerateVideo base64Image prompt ratio => fun st =>
        Gemini.generateVideo onProgress (remote h) base64Image prompt ratio st
    end.

(** One user event: its handler runs on the state it was rendered with, then
    the effect on [step] runs if [step] changed. *)
Definition dispatch (oracle : Oracle) (ev : Event) (st : State) : Run unit :=
  let r := exec oracle (handler ev st) st in
  if AppStep_eqb (step (final r)) (step st) then r
  else execFrom oracle (stepEffect (final r)) (final r) (issued r).

(** A session: events, each with the oracle standing for the world at that
    time, from a state on; the requests issued are collected in order. *)
Fixpoint session (evs : list (Oracle * Event)) (st : State)
    (trace : list Issued) : State * list Issued :=
  match evs with
  | [] => (st, trace)
  | (oracle, ev) :: rest =>
      let r := dispatch oracle ev st in
      session rest (final r) (trace ++ issued r)
  end.

(** The state the component mounts with. *)
Definition initial (aistudioPresent : bool) : State :=
  {| step := UPLOAD;
     originalImage := None;
     generatedImage := None;
     stylePrompt := [];
     editPrompt := [];
     isLoading := false;
     loadingMessage := [];
     error := None;
     isChatOpen := false;
     videoPrompt := [];
     aspectRatio := Gemini.Landscape;
     generatedVideoUrl := None;
     isKeySelected := false;
     isGeneratingAudio := false;
     generatedAudioUrl := None;
     loadingMessageIntervalRef := None;
     intervals := [];
     nextIntervalId := 1%positive;
     console := [];
     aistudio := aistudioPresent |}.

(** The generated artifacts the state holds. *)
Definition artifacts (st : State) : list jsstring :=
  match generatedImage st with
  | Some image => [image]
  | None => []
  end.

(** *** Handlers in flight *)

(** A handler, or the effect on [step], stopped at an [await]: the request
    it waits for and the rest of its body. *)
Inductive Pending :=
| Pend {A : Type} (req : Request A) (k : Outcome A -> Proc unit).

Definition pendingOf (b : Blocked unit) : list Pending :=
  match b with
  | Finished _ => []
  | Waiting req k => [Pend req k]
  end.

(** The component between two renders: its state, and what is waiting. *)
Record Live := {
  now : State;
  awaiting : list Pending
}.

(** A piece of code runs on the state [before] up to its end or its next
    [await]; if it changed [step], the effect on [step] then runs up to its
    own [await]. *)
Definition advance (p : Proc unit) (before : State) (rest : list Pending)
  : Live :=
  let (st1, b1) := start p before in
  if AppStep_eqb (step st1) (step before)
  then {| now := st1; awaiting := rest ++ pendingOf b1 |}
  else
    let (st2, b2) := start (stepEffect st1) st1 in
    {| now := st2; awaiting := rest ++ pendingOf b1 ++ pendingOf b2 |}.

(** A user event: the handler the last render created starts. *)
Definition press (ev : Event) (l : Live) : Live :=
  advance (handler ev (now l)) (now l) (awaiting l).

Fixpoint removeAt {A} (i : nat) (l : list A) : list A :=
  match l, i with
  | [], _ => []
  | _ :: rest, O => rest
  | x :: rest, S i' => x :: removeAt i' rest
  end.

(** The request waiting at position [i] settles with what the host and the
    service answer, and the code that awaited it goes on from the state of
    that moment; a request that does not settle yet stays.  The progress
    callbacks of a video generation are run at that moment. *)
Definition answer (host : Host) (i : nat) (l : Live) : Live :=
  match nth_error (awaiting l) i with
  | None => l
  | Some (Pend req k) =>
      match hostOracle host _ req (now l) with
      | (st', Some o) => advance (k o) st' (removeAt i (awaiting l))
      | (_, None) => l
      end
  end.

(** The callback of the interval with handle [id] runs. *)
Definition beat (id : positive) (l : Live) : Live :=
  {| now := tick id (now l); awaiting := awaiting l |}.

Definition mount (aistudioPresent : bool) : Live :=
  {| now := initial aistudioPresent; awaiting := [] |}.

(** What the component gets into: from the state it mounts with, by events
    whose control is on the screen and not disabled, by answers to the
    requests in flight, in any order and at any time, and by ticks. *)
Inductive running : Live -> Prop :=
| run_mount aistudioPresent : running (mount aistudioPresent)
| run_press l ev :
    running l -> enabled ev (now l) = true -> running (press ev l)
| run_answer l host i : running l -> running (answer host i l)
| run_beat l id : running l -> running (beat id l).

(** The only interval timer that runs is the one whose handle is in
    [loadingMessageIntervalRef], and it runs only while loading; this is
    how things are while no two video generations overlap. *)
Definition timerTracked (st : State) : Prop :=
  match loadingMessageIntervalRef st with
  | None => intervals st = []
  | Some id => isLoading st = true /\ exists n, intervals st = [(id, n)]
  end.

End App.

(** ** Vocabulary of the properties *)

Module Spec.

Import RegExp.

Local Open Scope nat_scope.

(** *** Data URLs *)

Definition notLineTerminator (c : char) : bool := negb (isLineTerminator c).

(** The shape [data:<mime>;base64,<payload>] the decoder expects: the mime
    type is [image/] followed by at least one word character, and the
    payload holds no line terminator. *)
Definition isDataUrl (s mime payload : jsstring) : Prop :=
  exists w,
    w <> [] /\ forallb isWordChar w = true
    /\ forallb notLineTerminator payload = true
    /\ mime = js "image/" ++ w
    /\ s = js "data:" ++ mime ++ js ";base64," ++ payload.

Fixpoint stripPrefix (prefix s : jsstring) : option jsstring :=
  match prefix, s with
  | [], _ => Some s
  | _ :: _, [] => None
  | p :: prefix', c :: s' => if (p =? c)%N then stripPrefix prefix' s' else None
  end.

Fixpoint takeWhile (p : char -> bool) (s : jsstring) : jsstring :=
  match s with
  | c :: s' => if p c then c :: takeWhile p s' else []
  | [] => []
  end.

Fixpoint dropWhile (p : char -> bool) (s : jsstring) : jsstring :=
  match s with
  | c :: s' => if p c then dropWhile p s' else s
  | [] => []
  end.

(** A direct recogniser of [isDataUrl], against which the matcher is
    compared. *)
Definition parseDataUrl (s : jsstring) : option (jsstring * jsstring) :=
  match stripPrefix (js "data:") s with
  | None => None
  | Some t1 =>
  match stripPrefix (js "image/") t1 with
  | None => None
  | Some t2 =>
  match takeWhile isWordChar t2 with
  | [] => None
  | w =>
  match stripPrefix (js ";base64,") (dropWhile isWordChar t2) with
  | None => None
  | Some payload =>
      if forallb notLineTerminator payload
      then Some (js "image/" ++ w, payload)
      else None
  end end end end.

(** The repetition loop of [matcher], named. *)
Definition starLoop (r : regex) (s : jsstring)
    (k : nat -> captures -> option MatchState) :=
  fix loop (fuel i : nat) (caps : captures) {struct fuel} : option MatchState :=
    match fuel with
    | O => k i caps
    | S fuel' =>
        match
          matcher r s i caps
            (fun j caps' => if j =? i then None else loop fuel' j caps')
        with
        | Some st => Some st
        | None => k i caps
        end
    end.

(** The continuation [builtinExec] starts the matcher with, and the parts of
    [dataUrlPattern]. *)
Definition k0 : nat -> captures -> option MatchState :=
  fun j caps => Some (j, caps).

Definition tail2 : regex := Seq (Group 2 (Star Dot)) AssertEnd.
Definition tail1 : regex := Seq (Lit (js ";base64,")) tail2.
Definition group1 : regex := Group 1 (Seq (Lit (js "image/")) (Plus Word)).

(** *** The WAVE header *)

(** The 44 header bytes [pcmToWav] writes for [dataSize] bytes of samples. *)
Definition wavHeader (sampleRate : Z) (dataSize : nat) : list Z :=
  let riff := ((36 + Z.of_nat dataSize) mod 2 ^ 32)%Z in
  let rate := (sampleRate mod 2 ^ 32)%Z in
  let byteRate := ((sampleRate * 2) mod 2 ^ 32)%Z in
  let size := (Z.of_nat dataSize mod 2 ^ 32)%Z in
  [ 82; 73; 70; 70;
    riff mod 256; riff / 256 mod 256; riff / 65536 mod 256;
    riff / 16777216 mod 256;
    87; 65; 86; 69;
    102; 109; 116; 32;
    16; 0; 0; 0;
    1; 0;
    1; 0;
    rate mod 256; rate / 256 mod 256; rate / 65536 mod 256;
    rate / 16777216 mod 256;
    byteRate mod 256; byteRate / 256 mod 256; byteRate / 65536 mod 256;
    byteRate / 16777216 mod 256;
    2; 0;
    16; 0;
    100; 97; 116; 97;
    size mod 256; size / 256 mod 256; size / 65536 mod 256;
    size / 16777216 mod 256 ]%Z.

(** 2^32 - 36 zero bytes: the smallest sample payload whose RIFF chunk size
    does not fit the 32-bit header field. *)
Definition fourGiB : list Z := repeat 0%Z (Z.to_nat (2 ^ 32 - 36)).

(** *** Error kinds *)

Inductive ErrorKind :=
| CredentialMissingOrInvalid
| TransportOrServiceFault.

(** The kind of a user-facing error, by its message: the messages about the
    API key are credential errors, the [Failed to generate ...] messages are
    generic service faults. *)
Definition errorKind (surfaced : Thrown) : option ErrorKind :=
  match surfaced with
  | ThrownError message =>
      if jsstring_eqb message Gemini.imageKeyMessage
         || jsstring_eqb message Gemini.speechKeyMessage
         || jsstring_eqb message Gemini.videoKeyMessage
         || jsstring_eqb message Gemini.videoKeyValidationMessage
      then Some CredentialMissingOrInvalid
      else if jsstring_eqb message Gemini.imageFailedMessage
              || jsstring_eqb message Gemini.speechFailedMessage
              || jsstring_eqb message Gemini.videoFailedMessage
      then Some TransportOrServiceFault
      else None
  | ThrownOther => None
  end.

(** The kind the catch blocks of [generateImage] and [generateSpeech] give a
    fault, and the kind the catch block of [generateVideo] gives it. *)
Definition kindByApiKey (fault : Thrown) : ErrorKind :=
  match fault with
  | ThrownError message =>
      if Gemini.includes message (js "API key")
      then CredentialMissingOrInvalid
      else TransportOrServiceFault
  | ThrownOther => TransportOrServiceFault
  end.

Definition kindByApiKeyOrNotFound (fault : Thrown) : ErrorKind :=
  match fault with
  | ThrownError message =>
      if Gemini.includes message (js "API key")
         || Gemini.includes message (js "not found")
      then CredentialMissingOrInvalid
      else TransportOrServiceFault
  | ThrownOther => TransportOrServiceFault
  end.

(** *** Progress checkpoints *)

(** An [onProgress] callback that records the messages it is called with. *)
Definition recordProgress (message : jsstring) (log : list jsstring)
  : list jsstring :=
  log ++ [message].


End Spec.

(** ** A session against a service that answers *)

Module Scenario.

Import App.

Definition selfie : jsstring := js "data:image/png;base64,AAAA".

Definition headshot : DataUrl.InlineData :=
  {| DataUrl.data := js "QUJD"; DataUrl.mimeType := js "image/png" |}.

Definition imageResponse : Gemini.GenerateContentResponse :=
  {| Gemini.candidates :=
       Some [ {| Gemini.content :=
                   Some {| Gemini.parts :=
                             Some [ {| Gemini.inlineData :=
                                         Some {| Gemini.Inline.data := Some (js "QUJD");
                                                 Gemini.Inline.mimeType := Some (js "image/png") |};
                                       Gemini.text := None |} ] |} |} ] |}.

(** A response whose only part is text. *)
Definition textOnlyResponse : Gemini.GenerateContentResponse :=
  {| Gemini.candidates :=
       Some [ {| Gemini.content :=
                   Some {| Gemini.parts :=
                             Some [ {| Gemini.inlineData := None;
                                       Gemini.text := Some (js "Sorry.") |} ] |} |} ] |}.

Definition pending : Gemini.Operation :=
  {| Gemini.done := false; Gemini.videoUri := None |}.

Definition finished : Gemini.Operation :=
  {| Gemini.done := true;
     Gemini.videoUri := Some (js "https://example.test/video?alt=media") |}.

Definition service : Gemini.Remote :=
  {| Gemini.apiKey := Some (js "k");
     Gemini.generateContent := fun _ => Returns imageResponse;
     Gemini.newGoogleGenAI := Returns tt;
     Gemini.generateVideos := fun _ => Returns pending;
     Gemini.getVideosOperation := [Returns pending; Returns finished];
     Gemini.fetch := fun _ =>
       Returns {| Gemini.ok := true;
                  Gemini.statusText := js "OK";
                  Gemini.blob :=
                    Returns {| Wav.blobBytes := [0; 0; 0; 24]%Z;
                               Wav.blobType := js "video/mp4" |} |};
     Gemini.atob := fun s => Returns s;
     Gemini.createObjectURL := fun _ => js "blob:1" |}.

(** The same service answering with text only. *)
Definition textOnlyService : Gemini.Remote :=
  {| Gemini.apiKey := Gemini.apiKey service;
     Gemini.generateContent := fun _ => Returns textOnlyResponse;
     Gemini.newGoogleGenAI := Gemini.newGoogleGenAI service;
     Gemini.generateVideos := Gemini.generateVideos service;
     Gemini.getVideosOperation := Gemini.getVideosOperation service;
     Gemini.fetch := Gemini.fetch service;
     Gemini.atob := Gemini.atob service;
     Gemini.createObjectURL := Gemini.createObjectURL service |}.

(** The same service rejecting the video request the way it does for a key
    it does not know. *)
Definition entityNotFound : Thrown :=
  ThrownError (js "Requested entity was not found.").

Definition unknownKeyService : Gemini.Remote :=
  {| Gemini.apiKey := Gemini.apiKey service;
     Gemini.generateContent := Gemini.generateContent service;
     Gemini.newGoogleGenAI := Gemini.newGoogleGenAI service;
     Gemini.generateVideos := fun _ => Throws entityNotFound;
     Gemini.getVideosOperation := Gemini.getVideosOperation service;
     Gemini.fetch := Gemini.fetch service;
     Gemini.atob := Gemini.atob service;
     Gemini.createObjectURL := Gemini.createObjectURL service |}.

(** A host in which a key has been selected. *)
Definition studio : Host :=
  {| hasSelectedApiKey := Returns true;
     openSelectKey := Returns tt;
     remote := service |}.

Definition world : Oracle := hostOracle studio.

(** Upload, pick a style, generate, open the Animate screen. *)
Definition toAnimate : list (Oracle * Event) :=
  [ (world, ImageUploaded selfie);
    (world, StyleSelected (js "A classic headshot."));
    (world, GenerateClicked);
    (world, AnimateClicked) ].

Definition onAnimateScreen : State := fst (session toAnimate (initial true) []).

Definition readyToAnimate : State :=
  final (dispatch world (VideoPromptChanged (js "A gentle zoom in.")) onAnimateScreen).

(** The same service never finishing the video: the poll loop keeps
    waiting. *)
Definition stalledService : Gemini.Remote :=
  {| Gemini.apiKey := Gemini.apiKey service;
     Gemini.generateContent := Gemini.generateContent service;
     Gemini.newGoogleGenAI := Gemini.newGoogleGenAI service;
     Gemini.generateVideos := Gemini.generateVideos service;
     Gemini.getVideosOperation := [Returns pending];
     Gemini.fetch := Gemini.fetch service;
     Gemini.atob := Gemini.atob service;
     Gemini.createObjectURL := Gemini.createObjectURL service |}.

Definition stalled : Oracle :=
  hostOracle {| hasSelectedApiKey := Returns true;
                openSelectKey := Returns tt;
                remote := stalledService |}.

(** The state while that video is being waited for: loading, with the
    message rotation running. *)
Definition midVideo : State :=
  final (dispatch stalled GenerateVideoClicked readyToAnimate).

(** The same service answering an edit with another image. *)
Definition retouchedResponse : Gemini.GenerateContentResponse :=
  {| Gemini.candidates :=
       Some [ {| Gemini.content :=
                   Some {| Gemini.parts :=
                             Some [ {| Gemini.inlineData :=
                                         Some {| Gemini.Inline.data := Some (js "REVG");
                                                 Gemini.Inline.mimeType := Some (js "image/jpeg") |};
                                       Gemini.text := None |} ] |} |} ] |}.

Definition retouchService : Gemini.Remote :=
  {| Gemini.apiKey := Gemini.apiKey service;
     Gemini.generateContent := fun _ => Returns retouchedResponse;
     Gemini.newGoogleGenAI := Gemini.newGoogleGenAI service;
     Gemini.generateVideos := Gemini.generateVideos service;
     Gemini.getVideosOperation := Gemini.getVideosOperation service;
     Gemini.fetch := Gemini.fetch service;
     Gemini.atob := Gemini.atob service;
     Gemini.createObjectURL := Gemini.createObjectURL service |}.

Definition retouching : Oracle :=
  hostOracle {| hasSelectedApiKey := Returns true;
                openSelectKey := Returns tt;
                remote := retouchService |}.

(** A state with a headshot, a voice guide attached and an edit typed in. *)
Definition withVoiceGuide : State :=
  fst (session
         [ (world, ImageUploaded selfie);
           (world, StyleSelected (js "A classic headshot."));
           (world, GenerateClicked);
           (world, VoiceGuideClicked);
           (world, EditPromptChanged (js "Add a retro filter")) ]
         (initial true) []).

(** Upload, style, generate, open the Animate screen and type a prompt,
    each request answered before the next event; then Generate Video
    clicked twice before the host has answered the first click's key query
    (the loading flag is set only after that answer), and the four answers
    in the order the requests were made. *)
Definition doubleClicked : Live :=
  answer Scenario.studio 0
    (answer Scenario.studio 0
       (answer Scenario.studio 0
          (answer Scenario.studio 0
             (press GenerateVideoClicked
                (press GenerateVideoClicked
                   (press (VideoPromptChanged (js "A gentle zoom in."))
                      (answer Scenario.studio 0
                         (press AnimateClicked
                            (answer Scenario.studio 0
                               (press GenerateClicked
                                  (press (StyleSelected (js "A classic headshot."))
                                     (press (ImageUploaded Scenario.selfie)
                                        (mount true))))))))))))).

(** A headshot generated and an edit typed in, every request answered
    before the next event. *)
Definition editing : Live :=
  press (EditPromptChanged (js "Add a retro filter"))
    (answer Scenario.studio 0
       (press GenerateClicked
          (press (StyleSelected (js "A classic headshot."))
             (press (ImageUploaded Scenario.selfie) (mount true))))).

End Scenario.

(** ** Reading a WAVE file back *)

Module WavRead.

Local Open Scope Z_scope.

(** A little-endian 16-bit field, the four bytes of a chunk tag, and the
    code units of a tag as bytes. *)
Definition readUint16LE (bytes : list Z) (offset : nat) : Z :=
  nth offset bytes 0 + 256 * nth (offset + 1) bytes 0.

Definition readTag (bytes : list Z) (offset : nat) : list Z :=
  firstn 4 (skipn offset bytes).

Definition codes (s : jsstring) : list Z := List.map Z.of_N s.

End WavRead.

(** ** The polling loop's answers *)

Module Polling.

Import Gemini.

(** A poll answered with an operation that is not done yet. *)
Definition stillRunning (answer : Outcome Operation) : Prop :=
  exists operation, answer = Returns operation /\ done operation = false.

End Polling.

(** ** Vocabulary of the controller's properties *)

Module Controller.

Import App.

Local Open Scope nat_scope.

(** A synthesis request that has the inputs it needs: an image and a
    prompt, both non-empty. *)
Definition carriesInputs (i : Issued) : bool :=
  match i with
  | Issue (GenerateImage base64Image prompt _) =>
      truthy base64Image && truthy prompt
  | Issue (GenerateSpeech prompt) => truthy prompt
  | Issue (GenerateVideo base64Image prompt _) =>
      truthy base64Image && truthy prompt
  | Issue _ => true
  end.

(** A process all of whose requests, on every path, satisfy [P]. *)
Inductive asksOnly {R : Type} (P : Issued -> bool) : Proc R -> Prop :=
| asks_Ret r : asksOnly P (Ret r)
| asks_Upd f next : asksOnly P next -> asksOnly P (Upd f next)
| asks_Read k : (forall st, asksOnly P (k st)) -> asksOnly P (Read k)
| asks_Await {A : Type} (req : Request A) k :
    P (Issue req) = true -> (forall o, asksOnly P (k o)) ->
    asksOnly P (Await req k).

(** The key-selected flag is set only where the host capability exists. *)
Definition keyFromHost (st : State) : bool :=
  implb (isKeySelected st) (aistudio st).

(** The edit and video screens have a generated image to show. *)
Definition artifactShown (st : State) : bool :=
  match step st with
  | EDIT | VIDEO => truthy_slot (generatedImage st)
  | UPLOAD | STYLE => true
  end.

(** What holds of the state between two renders, in a window where the
    host capability is [present] or not. *)
Definition sound (present : bool) (st : State) : Prop :=
  aistudio st = present
  /\ artifactShown st = true
  /\ (isKeySelected st = true -> present = true).

(** An outcome the host or the service can give to a request. *)
Definition answered {A : Type} (req : Request A) (o : Outcome A) : Prop :=
  exists host st, snd (hostOracle host A req st) = Some o.

(** From [st], the piece of code [p] ends or waits in a sound state, and
    so does every later piece of it, from whatever sound state it is
    resumed in with an answer. *)
Inductive keepsSound (present : bool) : State -> Proc unit -> Prop :=
| keeps_Ret st r : sound present st -> keepsSound present st (Ret r)
| keeps_Upd st f next :
    keepsSound present (f st) next -> keepsSound present st (Upd f next)
| keeps_Read st k :
    keepsSound present st (k st) -> keepsSound present st (Read k)
| keeps_Await st {A : Type} (req : Request A) k :
    sound present st ->
    (forall o st', answered req o -> sound present st' ->
                   keepsSound present st' (k o)) ->
    keepsSound present st (Await req k).

Definition poolSound (present : bool) (ps : list Pending) : Prop :=
  forall p, In p ps ->
    match p with
    | Pend req k =>
        forall o st', answered req o -> sound present st' ->
                      keepsSound present st' (k o)
    end.

(** The prompt [handleGenerateVoiceGuide] builds around a style name. *)
Definition voiceGuidePrompt (styleName : jsstring) : jsstring :=
  js "Give a friendly, concise voice guide for a headshot in the '"
  ++ styleName
  ++ js "' style. Include one quick photography tip.".

End Controller.

(** ** The chat panel: [components/Chatbot.tsx] *)

Module Chatbot.

Local Open Scope nat_scope.

Inductive Role := user | model.

(** A [Message]; [text] is [None] when the reply's [response.text] is
    [undefined]. *)
Record Message := {
  role : Role;
  text : option jsstring
}.

(** What [createChatSession] passes to [ai.chats.create]. *)
Record Chat := {
  chatModel : jsstring;
  systemInstruction : jsstring
}.

Definition createChatSession : Chat :=
  {| chatModel := js "gemini-2.5-flash";
     systemInstruction := js "You are a friendly and helpful AI assistant for a headshot photography app. You can answer questions about photography, style tips, or have a general conversation." |}.

(** The component's [useState] slots and its [chatRef]. *)
Record State := {
  messages : list Message;
  userInput : jsstring;
  isLoading : bool;
  chatRef : option Chat
}.

Definition setMessages (f : list Message -> list Message) (st : State) : State :=
  {| messages := f (messages st); userInput := userInput st;
     isLoading := isLoading st; chatRef := chatRef st |}.

Definition setUserInput (v : jsstring) (st : State) : State :=
  {| messages := messages st; userInput := v;
     isLoading := isLoading st; chatRef := chatRef st |}.

Definition setIsLoading (v : bool) (st : State) : State :=
  {| messages := messages st; userInput := userInput st;
     isLoading := v; chatRef := chatRef st |}.

Definition setChatRef (v : option Chat) (st : State) : State :=
  {| messages := messages st; userInput := userInput st;
     isLoading := isLoading st; chatRef := v |}.

Definition greeting : Message :=
  {| role := model;
     text := Some (js "Hi! I'm your AI assistant. How can I help you with your headshot today?") |}.

Definition apology : Message :=
  {| role := model;
     text := Some (js "Sorry, I'm having trouble connecting right now. Please try again later.") |}.

(** The effect on [isOpen]: the first time the panel is open, the session is
    created and the transcript is set to the greeting. *)
Definition openEffect (isOpen : bool) (st : State) : State :=
  match chatRef st with
  | None =>
      if isOpen
      then setMessages (fun _ => [greeting]) (setChatRef (Some createChatSession) st)
      else st
  | Some _ => st
  end.

(** The code units [String.prototype.trim] strips: WhiteSpace and
    LineTerminator. *)
Definition isWhiteSpace (c : char) : bool :=
  ((9 <=? c) && (c <=? 13) || (c =? 32) || (c =? 160) || (c =? 5760)
   || (8192 <=? c) && (c <=? 8202) || (c =? 8232) || (c =? 8233)
   || (c =? 8239) || (c =? 8287) || (c =? 12288) || (c =? 65279))%N.

Fixpoint trimStart (s : jsstring) : jsstring :=
  match s with
  | c :: rest => if isWhiteSpace c then trimStart rest else s
  | [] => []
  end.

Definition trim (s : jsstring) : jsstring :=
  rev (trimStart (rev (trimStart s))).

(** What the awaited [sendMessage] settles with: the reply's [text], or a
    rejection. *)
Definition Reply := Outcome (option jsstring).

(** The part of [handleSendMessage] after the [await]: the [try] block's
    rest or the [catch] block, then [finally]; it updates the state of the
    time the reply arrives. *)
Definition settle (o : Reply) (st : State) : State :=
  let modelMessage :=
    match o with
    | Returns responseText => {| role := model; text := responseText |}
    | Throws _ => apology
    end in
  setIsLoading false (setMessages (fun prev => prev ++ [modelMessage]) st).

(** [handleSendMessage] up to its [await], for the handler of the render
    with state [snap] ([userInput] and [isLoading] are the render's, the ref
    and the functional update of the transcript are live): the state, and
    the session and message handed to [sendMessage] if it gets that far.
    Were the ref empty at the call, the TypeError would be caught by the
    handler's own [catch].  What [console.error] prints is left out. *)
Definition handleSendMessage (snap : State) (st : State)
  : State * option (Chat * jsstring) :=
  if negb (truthy (trim (userInput snap))) || isLoading snap
     || match chatRef st with None => true | Some _ => false end
  then (st, None)
  else
    let userMessage := {| role := user; text := Some (userInput snap) |} in
    let st := setMessages (fun prev => prev ++ [userMessage]) st in
    let st := setUserInput [] st in
    let st := setIsLoading true st in
    match chatRef st with
    | Some chat => (st, Some (chat, userInput snap))
    | None => (settle (Throws Gemini.typeError) st, None)
    end.

(** The panel with what is around it: whether [App] has it open, the
    requests awaiting their reply, and how many sessions were created. *)
Record Room := {
  view : State;
  isOpen : bool;
  inFlight : list (Chat * jsstring);
  sessionsCreated : nat
}.

(** What happens to the panel: [App] opens or closes it, the user types or
    submits the form, the awaited [sendMessage] settles. *)
Inductive Event :=
| Opened
| Closed
| Typed (value : jsstring)
| Submitted
| Replied (o : Reply).

(** The panel as it mounts, closed. *)
Definition mounted : Room :=
  {| view := {| messages := []; userInput := []; isLoading := false;
                chatRef := None |};
     isOpen := false;
     inFlight := [];
     sessionsCreated := 0 |}.

Definition present {A} (o : option A) : bool :=
  match o with Some _ => true | None => false end.

(** One event.  Opening and closing run the effect on [isOpen], which
    calls [createChatSession] exactly when it finds the ref empty while
    open; a reply with nothing awaited is no event at all. *)
Definition react (room : Room) (ev : Event) : Room :=
  match ev with
  | Opened =>
      {| view := openEffect true (view room);
         isOpen := true;
         inFlight := inFlight room;
         sessionsCreated :=
           if present (chatRef (view room)) then sessionsCreated room
           else S (sessionsCreated room) |}
  | Closed =>
      {| view := openEffect false (view room);
         isOpen := false;
         inFlight := inFlight room;
         sessionsCreated := sessionsCreated room |}
  | Typed value =>
      {| view := setUserInput value (view room);
         isOpen := isOpen room;
         inFlight := inFlight room;
         sessionsCreated := sessionsCreated room |}
  | Submitted =>
      let (st, sent) := handleSendMessage (view room) (view room) in
      {| view := st;
         isOpen := isOpen room;
         inFlight :=
           match sent with
           | Some request => inFlight room ++ [request]
           | None => inFlight room
           end;
         sessionsCreated := sessionsCreated room |}
  | Replied o =>
      match inFlight room with
      | [] => room
      | _ :: rest =>
          {| view := settle o (view room);
             isOpen := isOpen room;
             inFlight := rest;
             sessionsCreated := sessionsCreated room |}
      end
  end.

Definition run (evs : list Event) (room : Room) : Room :=
  fold_left react evs room.

(** A transcript after the greeting: user and model messages alternate,
    ending with a user message exactly when [waiting]. *)
Fixpoint exchanges (waiting : bool) (ms : list Message) : bool :=
  match ms with
  | [] => negb waiting
  | {| role := user |} :: rest =>
      match rest with
      | [] => waiting
      | {| role := model |} :: rest' => exchanges waiting rest'
      | {| role := user |} :: _ => false
      end
  | {| role := model |} :: _ => false
  end.

(** The shape the panel keeps: nothing at all before the session exists;
    with it, one session created, the greeting first, the exchanges after
    it, and a request awaited exactly while loading. *)
Definition wellFormed (room : Room) : bool :=
  match chatRef (view room) with
  | None =>
      match messages (view room), inFlight room with
      | [], [] => negb (isLoading (view room)) && (sessionsCreated room =? 0)
      | _, _ => false
      end
  | Some _ =>
      (sessionsCreated room =? 1)
      && match messages (view room) with
         | first :: rest =>
             match role first with
             | model => exchanges (isLoading (view room)) rest
             | user => false
             end
         | [] => false
         end
      && (List.length (inFlight room) =? if isLoading (view room) then 1 else 0)
  end.

End Chatbot.

(** ** The image uploader: [components/ImageUploader.tsx] *)

Module Uploader.

(** A [File]: its [type], and the base64 encoding of its bytes, [None] when
    reading it fails. *)
Record File := {
  type : jsstring;
  contents : option jsstring
}.

(** What [FileReader.readAsDataURL] hands to [onload], for a file with a
    type: a string, the data URL of the type and the contents; [onload] is
    not called when the read fails. *)
Definition readAsDataURL (file : File) : option jsstring :=
  match contents file with
  | Some base64 => Some (js "data:" ++ type file ++ js ";base64," ++ base64)
  | None => None
  end.

(** [handleFileChange]: the string passed to [onImageUpload], if any. *)
Definition handleFileChange (file : option File) : option jsstring :=
  match file with
  | Some file =>
      if Gemini.startsWith (type file) (js "image/")
      then readAsDataURL file
      else None
  | None => None
  end.

End Uploader.

(** ** The first version of [generateImage] *)

Module Legacy.

Import DataUrl Gemini.

(** [generateImage] before it took [isEdit]: the style suffix is added when
    the prompt mentions a headshot, and the prompt goes out as it is
    otherwise. *)
Definition generateImage_try (env : Remote) (base64Image prompt : jsstring)
  : Outcome jsstring :=
  imagePart <- fileToGenerativePart base64Image ;;
  let fullPrompt :=
    if includes prompt (js "headshot") then prompt ++ styleSuffix else prompt in
  response <-
    generateContent env
      (ImageRequest (js "gemini-2.5-flash-image") imagePart fullPrompt) ;;
  ps <- firstCandidateParts response ;;
  firstInlineImage ps.

Definition generateImage (env : Remote) (base64Image prompt : jsstring)
  : Outcome jsstring :=
  match generateImage_try env base64Image prompt with
  | Returns url => Returns url
  | Throws error => Throws (generateImage_catch error)
  end.

End Legacy.

(** ** Proof tools *)

Ltac destruct_state st :=
  destruct st as [step0 originalImage0 generatedImage0 stylePrompt0 editPrompt0
                  isLoading0 loadingMessage0 error0 isChatOpen0 videoPrompt0
                  aspectRatio0 generatedVideoUrl0 isKeySelected0
                  isGeneratingAudio0 generatedAudioUrl0 ref0 intervals0
                  nextIntervalId0 console0 aistudio0].

(** Shows that every request of a process satisfies a predicate, one
    constructor of the process at a time. *)
Ltac asks :=
  repeat first
    [ apply Controller.asks_Ret
    | apply Controller.asks_Upd
    | apply Controller.asks_Read; intros ?
    | apply Controller.asks_Await; [try reflexivity | intros [?|?]]
    | match goal with
      | |- Controller.asksOnly _ (if ?b then _ else _) => destruct b
      | |- Controller.asksOnly _ (match ?o with Some _ => _ | None => _ end) => destruct o
      end ].

(** Goals about [Controller.sound]: the states are split into their
    fields and the goal is computed. *)
Ltac split_states :=
  repeat match goal with
         | s : App.State |- _ =>
             destruct s as [[] ? ? ? ? ? ? ? ? ? ? ? ? ? ? ? ? ? ? ?]
         end.

Ltac sound_tac :=
  unfold Controller.sound, Controller.artifactShown in *; split_states;
  cbn in *;
  repeat match goal with
         | H : _ /\ _ |- _ => destruct H
         end;
  repeat split; intros;
  first [ assumption | reflexivity | congruence | auto ].

Ltac keeps_tac :=
  repeat first
    [ apply Controller.keeps_Ret
    | apply Controller.keeps_Upd
    | apply Controller.keeps_Read
    | apply Controller.keeps_Await; [| intros [?|?] ? ? ?] ].

(** * Properties *)

Lemma Returns_inj {A} (a b : A) : Returns a = Returns b -> a = b.
Proof. intros H. injection H as ->. reflexivity. Qed.

(** ** [pcmToWav] *)

Module WavFacts.

Import Wav Spec.

Local Open Scope Z_scope.

Lemma elements_on buf : elements (Uint8Array_on buf) = buf.
Proof. unfold elements, Uint8Array_on. simpl. apply firstn_all. Qed.

(** The thirteen header writes, run on the fresh buffer. *)
Lemma pcmToWav_header pcmData sampleRate :
  pcmToWav pcmData sampleRate =
  (view <- copyBytes (wavHeader sampleRate (byteLength pcmData)
                        ++ repeat 0 (byteLength pcmData)) 0 (buffer pcmData) ;;
   Returns {| blobBytes := view; blobType := js "audio/wav" |}).
Proof.
  unfold pcmToWav. rewrite elements_on.
  generalize (byteLength pcmData) as n. intro n.
  unfold newDataView.
  change (repeat 0 (44 + n)) with (repeat 0 44 ++ repeat 0 n)%list at 1.
  reflexivity.
Qed.

Lemma wavHeader_length sampleRate n :
  List.length (wavHeader sampleRate n) = 44%nat.
Proof. reflexivity. Qed.

Lemma store_app pre x rest b :
  store (pre ++ x :: rest) (List.length pre) b = pre ++ b :: rest.
Proof. induction pre as [|y pre IH]; simpl; [reflexivity | now rewrite IH]. Qed.

(** The copy loop when the source fits behind the header ... *)
Lemma copyBytes_fits src : forall pre rest i,
  List.length pre = (44 + i)%nat ->
  (List.length src <= List.length rest)%nat ->
  copyBytes (pre ++ rest) i src =
  Returns (pre ++ List.map (fun b => b mod 256) src
               ++ skipn (List.length src) rest).
Proof.
  induction src as [|b src IH]; intros pre rest i Hpre Hlen;
    cbn [copyBytes List.map List.length skipn app].
  - reflexivity.
  - destruct rest as [|x rest]; simpl in Hlen; [lia|].
    unfold setUint8.
    replace (44 + i + 1 <=? List.length (pre ++ x :: rest))%nat with true
      by (symmetry; apply Nat.leb_le; rewrite length_app; simpl; lia).
    cbn [bind]. rewrite <- Hpre, store_app.
    replace (pre ++ b mod 256 :: rest) with ((pre ++ [b mod 256]) ++ rest)
      by (rewrite <- app_assoc; reflexivity).
    rewrite IH.
    + rewrite <- app_assoc. reflexivity.
    + rewrite length_app. simpl. lia.
    + lia.
Qed.

(** ... and when it does not: the write just past the view throws. *)
Lemma copyBytes_overflow src : forall pre rest i,
  List.length pre = (44 + i)%nat ->
  (List.length rest < List.length src)%nat ->
  copyBytes (pre ++ rest) i src = Throws rangeError.
Proof.
  induction src as [|b src IH]; intros pre rest i Hpre Hlen;
    cbn [copyBytes]; simpl in Hlen.
  - lia.
  - unfold setUint8. destruct rest as [|x rest].
    + replace (44 + i + 1 <=? List.length (pre ++ []))%nat with false
        by (symmetry; apply Nat.leb_gt; rewrite length_app; simpl; lia).
      reflexivity.
    + replace (44 + i + 1 <=? List.length (pre ++ x :: rest))%nat with true
        by (symmetry; apply Nat.leb_le; rewrite length_app; simpl; lia).
      cbn [bind]. rewrite <- Hpre, store_app.
      replace (pre ++ b mod 256 :: rest) with ((pre ++ [b mod 256]) ++ rest)
        by (rewrite <- app_assoc; reflexivity).
      apply IH.
      * rewrite length_app. simpl. lia.
      * simpl in Hlen. lia.
Qed.

Lemma le32_split v :
  0 <= v < 2 ^ 32 ->
  v mod 256 + 256 * (v / 256 mod 256) + 65536 * (v / 65536 mod 256)
  + 16777216 * (v / 16777216 mod 256) = v.
Proof.
  intros Hv. change (2 ^ 32) with 4294967296 in Hv.
  Z.div_mod_to_equations. lia.
Qed.

Lemma readUint32LE_riff sampleRate n rest :
  readUint32LE (wavHeader sampleRate n ++ rest) 4
  = (36 + Z.of_nat n) mod 2 ^ 32.
Proof.
  unfold readUint32LE, wavHeader. cbn [nth app Nat.add].
  apply le32_split. apply Z.mod_pos_bound. reflexivity.
Qed.

Lemma readUint32LE_data sampleRate n rest :
  readUint32LE (wavHeader sampleRate n ++ rest) 40 = Z.of_nat n mod 2 ^ 32.
Proof.
  unfold readUint32LE, wavHeader. cbn [nth app Nat.add].
  apply le32_split. apply Z.mod_pos_bound. reflexivity.
Qed.

(** What [pcmToWav] does on every input: the whole backing buffer is copied
    behind the header when it fits the [byteLength] bytes reserved for it,
    and the copy runs off the view when the buffer is longer than the
    window [pcmData] is. *)
Lemma pcmToWav_cases pcmData sampleRate :
  let n := byteLength pcmData in
  ((List.length (buffer pcmData) <= n)%nat /\
   pcmToWav pcmData sampleRate =
   Returns {| blobBytes :=
                wavHeader sampleRate n
                ++ List.map (fun b => b mod 256) (buffer pcmData)
                ++ skipn (List.length (buffer pcmData)) (repeat 0 n);
              blobType := js "audio/wav" |})
  \/ ((n < List.length (buffer pcmData))%nat /\
      pcmToWav pcmData sampleRate = Throws rangeError).
Proof.
  intros n. rewrite pcmToWav_header. fold n.
  destruct (Nat.le_gt_cases (List.length (buffer pcmData)) n) as [Hle|Hgt].
  - left. split; [exact Hle|].
    rewrite copyBytes_fits;
      [reflexivity | reflexivity | now rewrite repeat_length].
  - right. split; [exact Hgt|].
    rewrite copyBytes_overflow;
      [reflexivity | reflexivity | now rewrite repeat_length].
Qed.

(** On a fresh array, which is what [generateSpeech] passes, [pcmToWav]
    returns. *)
Lemma pcmToWav_fresh bytes sampleRate :
  exists wav, pcmToWav (Uint8Array_of bytes) sampleRate = Returns wav.
Proof.
  destruct (pcmToWav_cases (Uint8Array_of bytes) sampleRate)
    as [[_ Heq]|[Hgt _]].
  - eexists. exact Heq.
  - exfalso. cbn [byteLength buffer Uint8Array_of] in Hgt. lia.
Qed.

(** A window on part of a buffer, as [subarray] gives: the copy loop runs
    over the whole buffer and throws. *)
Example pcmToWav_subarray :
  pcmToWav (subarray (Uint8Array_of [1; 2; 3]) 0 2) 24000 = Throws rangeError.
Proof. reflexivity. Qed.

(** C1, as amended.  When [pcmData] is a window on the whole of its buffer
    (what [decode] builds) [pcmToWav] returns a byte stream; whenever it
    returns one, the stream has exactly [44 + byteLength] bytes, bytes 4-7
    read little-endian are [36 + byteLength] modulo 2^32 and bytes 40-43 are
    [byteLength] modulo 2^32, which are [36 + byteLength] and [byteLength]
    themselves as long as [byteLength < 2^32 - 36]. *)
Theorem pcmToWav_sizes (pcmData : Uint8Array) (sampleRate : Z) :
  let n := byteLength pcmData in
  (List.length (buffer pcmData) = n ->
   exists wav, pcmToWav pcmData sampleRate = Returns wav)
  /\ (forall wav, pcmToWav pcmData sampleRate = Returns wav ->
      List.length (blobBytes wav) = (44 + n)%nat
      /\ readUint32LE (blobBytes wav) 4 = (36 + Z.of_nat n) mod 2 ^ 32
      /\ readUint32LE (blobBytes wav) 40 = Z.of_nat n mod 2 ^ 32
      /\ (Z.of_nat n < 2 ^ 32 - 36 ->
          readUint32LE (blobBytes wav) 4 = 36 + Z.of_nat n
          /\ readUint32LE (blobBytes wav) 40 = Z.of_nat n)).
Proof.
  intros n.
  destruct (pcmToWav_cases pcmData sampleRate) as [[Hle Heq]|[Hgt Heq]];
    fold n in Hle || fold n in Hgt; fold n in Heq.
  - split.
    + intros _. eexists. exact Heq.
    + intros wav Hwav. rewrite Heq in Hwav.
      apply Returns_inj in Hwav. subst wav. cbn [blobBytes].
      rewrite readUint32LE_riff, readUint32LE_data.
      repeat split.
      * rewrite !length_app, length_map, length_skipn, repeat_length,
          wavHeader_length. lia.
      * rewrite Z.mod_small; lia.
      * rewrite Z.mod_small; lia.
  - split.
    + intros Hn. lia.
    + intros wav Hwav. rewrite Heq in Hwav. discriminate.
Qed.

Lemma pcmToWav_sizes_witness :
  exists wav,
    pcmToWav (Uint8Array_of [1; 2; 3]) 24000 = Returns wav
    /\ List.length (blobBytes wav) = 47%nat
    /\ readUint32LE (blobBytes wav) 4 = 39
    /\ readUint32LE (blobBytes wav) 40 = 3.
Proof.
  destruct (pcmToWav_sizes (Uint8Array_of [1; 2; 3]) 24000) as [Hret Hprops].
  destruct (Hret eq_refl) as [wav Hwav]. exists wav.
  destruct (Hprops wav Hwav) as (Hlen & _ & _ & Hsmall).
  destruct (Hsmall eq_refl) as [H4 H40].
  split; [exact Hwav|]. split; [exact Hlen|]. split; [exact H4 | exact H40].
Defined.

Lemma fourGiB_length : Z.of_nat (List.length fourGiB) = 2 ^ 32 - 36.
Proof. unfold fourGiB. rewrite repeat_length. apply Z2Nat.id. discriminate. Qed.

(** C1 as stated fails on 2^32 - 36 bytes of samples: [pcmToWav] returns a
    stream whose bytes 4-7 read 0, not [36 + byteLength] = 2^32. *)
Lemma pcmToWav_sizes_wrap :
  exists wav,
    pcmToWav (Uint8Array_of fourGiB) 24000 = Returns wav
    /\ readUint32LE (blobBytes wav) 4 = 0
    /\ readUint32LE (blobBytes wav) 4 <>
       36 + Z.of_nat (byteLength (Uint8Array_of fourGiB)).
Proof.
  destruct (pcmToWav_cases (Uint8Array_of fourGiB) 24000) as [[_ Heq]|[Hgt _]].
  - eexists. split; [exact Heq|]. cbn [blobBytes].
    rewrite readUint32LE_riff.
    change (byteLength (Uint8Array_of fourGiB)) with (List.length fourGiB).
    rewrite fourGiB_length. split; [reflexivity | discriminate].
  - exfalso.
    change (byteLength (Uint8Array_of fourGiB)) with (List.length fourGiB) in Hgt.
    change (buffer (Uint8Array_of fourGiB)) with fourGiB in Hgt. lia.
Qed.

End WavFacts.

(** ** [fileToGenerativePart] *)

Module DataUrlFacts.

Import RegExp DataUrl Spec.

Local Open Scope nat_scope.

Lemma matcher_Star r s i caps k :
  matcher (Star r) s i caps k = starLoop r s k (List.length s) i caps.
Proof. reflexivity. Qed.

Lemma matcher_Seq r1 r2 s i caps k :
  matcher (Seq r1 r2) s i caps k =
  matcher r1 s i caps (fun j caps' => matcher r2 s j caps' k).
Proof. reflexivity. Qed.

Lemma matcher_Group n r s i caps k :
  matcher (Group n r) s i caps k =
  matcher r s i caps (fun j caps' => k j ((n, (i, j)) :: caps')).
Proof. reflexivity. Qed.

Lemma matcher_Class p s i caps k :
  matcher (Class p) s i caps k =
  match nth_error s i with
  | Some d => if p d then k (S i) caps else None
  | None => None
  end.
Proof. reflexivity. Qed.

Lemma matcher_AssertStart s i caps k :
  matcher AssertStart s i caps k = if i =? 0 then k i caps else None.
Proof. reflexivity. Qed.

Lemma nth_error_here {A} (pre : list A) c t :
  nth_error (pre ++ c :: t) (List.length pre) = Some c.
Proof. rewrite nth_error_app2, Nat.sub_diag; [reflexivity | lia]. Qed.

Lemma nth_error_end {A} (pre : list A) :
  nth_error (pre ++ []) (List.length pre) = None.
Proof. apply nth_error_None. rewrite length_app. simpl. lia. Qed.

Lemma app_snoc {A} (pre : list A) c t : pre ++ c :: t = (pre ++ [c]) ++ t.
Proof. rewrite <- app_assoc. reflexivity. Qed.

Lemma length_snoc {A} (pre : list A) c : List.length (pre ++ [c]) = S (List.length pre).
Proof. rewrite length_app. simpl. lia. Qed.

Lemma stripPrefix_Some l : forall t t', stripPrefix l t = Some t' -> t = l ++ t'.
Proof.
  induction l as [|c l IH]; intros t t' H; simpl in *.
  - congruence.
  - destruct t as [|d t]; [discriminate|].
    destruct (N.eqb_spec c d); [|discriminate]. subst d.
    f_equal. now apply IH.
Qed.

Lemma stripPrefix_app l : forall t, stripPrefix l (l ++ t) = Some t.
Proof.
  induction l as [|c l IH]; intros t; simpl; [reflexivity|].
  rewrite N.eqb_refl. apply IH.
Qed.

(** A literal matches exactly when it is a prefix of what is left. *)
Lemma matcher_Lit l : forall pre t caps k,
  matcher (Lit l) (pre ++ t) (List.length pre) caps k =
  match stripPrefix l t with
  | Some _ => k (List.length (pre ++ l)) caps
  | None => None
  end.
Proof.
  induction l as [|c l IH]; intros pre t caps k; cbn [Lit matcher stripPrefix].
  - rewrite app_nil_r. reflexivity.
  - destruct t as [|d t].
    + rewrite nth_error_end. reflexivity.
    + rewrite nth_error_here. destruct (c =? d)%N eqn:E; [|reflexivity].
      apply N.eqb_eq in E. subst d.
      rewrite (app_snoc pre c t), <- length_snoc with (c := c), IH.
      rewrite <- app_assoc. reflexivity.
Qed.

(** A greedy repetition of a character class whose continuation fails
    wherever the class still matches stops at the end of the longest run. *)
Lemma starLoop_Class p s k caps :
  (forall j c, nth_error s j = Some c -> p c = true -> k j caps = None) ->
  forall fuel pre t,
    s = pre ++ t -> List.length t <= fuel ->
    starLoop (Class p) s k fuel (List.length pre) caps =
    k (List.length (pre ++ takeWhile p t)) caps.
Proof.
  intros Hk. induction fuel as [|fuel IH]; intros pre t Hs Hlen.
  - destruct t; [|simpl in Hlen; lia]. simpl. rewrite app_nil_r. reflexivity.
  - cbn [starLoop matcher]. subst s. destruct t as [|c t].
    + rewrite nth_error_end. simpl. rewrite app_nil_r. reflexivity.
    + rewrite nth_error_here. cbn [takeWhile]. destruct (p c) eqn:Hp.
      * replace (S (List.length pre) =? List.length pre) with false
          by (symmetry; apply Nat.eqb_neq; lia).
        fold (starLoop (Class p) (pre ++ c :: t) k).
        rewrite <- length_snoc with (c := c).
        rewrite IH with (t := t);
          [| apply app_snoc | simpl in Hlen; lia].
        rewrite (Hk (List.length pre) c (nth_error_here _ _ _) Hp).
        rewrite <- app_assoc. cbn [app].
        destruct (k _ caps); reflexivity.
      * rewrite app_nil_r. reflexivity.
Qed.

Lemma takeWhile_all p : forall t, forallb p t = true -> takeWhile p t = t.
Proof.
  induction t as [|c t IH]; simpl; [reflexivity|].
  destruct (p c); simpl; [intros H; now rewrite IH | discriminate].
Qed.

Lemma takeWhile_short p : forall t,
  forallb p t = false -> List.length (takeWhile p t) < List.length t.
Proof.
  induction t as [|c t IH]; simpl; [discriminate|].
  destruct (p c); simpl; intros H; [apply IH in H|]; lia.
Qed.

Lemma takeWhile_dropWhile p : forall t, takeWhile p t ++ dropWhile p t = t.
Proof.
  induction t as [|c t IH]; simpl; [reflexivity|].
  destruct (p c); simpl; [now rewrite IH | reflexivity].
Qed.

Lemma takeWhile_forallb p : forall t, forallb p (takeWhile p t) = true.
Proof.
  induction t as [|c t IH]; simpl; [reflexivity|].
  destruct (p c) eqn:E; simpl; [now rewrite E | reflexivity].
Qed.

Lemma dropWhile_head p : forall t c t',
  dropWhile p t = c :: t' -> p c = false.
Proof.
  induction t as [|d t IH]; simpl; intros c t' H; [discriminate|].
  destruct (p d) eqn:E; [now apply IH in H | congruence].
Qed.

Lemma takeWhile_app p : forall w t,
  forallb p w = true ->
  match t with [] => True | c :: _ => p c = false end ->
  takeWhile p (w ++ t) = w /\ dropWhile p (w ++ t) = t.
Proof.
  induction w as [|c w IH]; simpl; intros t Hw Ht.
  - destruct t as [|d t]; simpl; [auto|]. rewrite Ht. auto.
  - apply andb_prop in Hw as [Hc Hw]. rewrite Hc.
    destruct (IH t Hw Ht) as [-> ->]. auto.
Qed.

Lemma matcher_tail2 pre t caps :
  matcher tail2 (pre ++ t) (List.length pre) caps k0 =
  if forallb notLineTerminator t
  then Some (List.length (pre ++ t),
             (2, (List.length pre, List.length (pre ++ t))) :: caps)
  else None.
Proof.
  unfold tail2. rewrite matcher_Seq, matcher_Group, matcher_Star.
  change Dot with (Class notLineTerminator). cbn [matcher].
  rewrite starLoop_Class with (t := t); [| | reflexivity | rewrite length_app; lia].
  - destruct (forallb notLineTerminator t) eqn:E.
    + rewrite (takeWhile_all _ _ E), Nat.eqb_refl. reflexivity.
    + apply takeWhile_short in E.
      replace (_ =? _) with false; [reflexivity|].
      symmetry. apply Nat.eqb_neq. rewrite !length_app. lia.
  - intros j c Hj _.
    assert (j < List.length (pre ++ t)) by (apply nth_error_Some; congruence).
    replace (j =? _) with false; [reflexivity|].
    symmetry. apply Nat.eqb_neq. lia.
Qed.

Lemma matcher_tail1 pre t caps :
  matcher tail1 (pre ++ t) (List.length pre) caps k0 =
  match stripPrefix (js ";base64,") t with
  | Some payload =>
      if forallb notLineTerminator payload
      then Some (List.length (pre ++ t),
                 (2, (List.length pre + 8, List.length (pre ++ t))) :: caps)
      else None
  | None => None
  end.
Proof.
  unfold tail1. rewrite matcher_Seq, matcher_Lit.
  destruct (stripPrefix (js ";base64,") t) as [payload|] eqn:E; [|reflexivity].
  apply stripPrefix_Some in E. subst t.
  rewrite app_assoc, matcher_tail2.
  rewrite (length_app pre). reflexivity.
Qed.

Lemma matcher_tail1_word s j c caps :
  nth_error s j = Some c -> isWordChar c = true ->
  matcher tail1 s j caps k0 = None.
Proof.
  intros Hj Hc. unfold tail1. cbn [matcher Lit js List.map list_ascii_of_string].
  rewrite Hj. destruct (N.eqb_spec (N_of_ascii ";") c) as [<-|]; [|reflexivity].
  discriminate Hc.
Qed.

Lemma matcher_group1 pre t caps :
  matcher group1 (pre ++ t) (List.length pre) caps
    (fun j caps' => matcher tail1 (pre ++ t) j caps' k0) =
  match stripPrefix (js "image/") t with
  | None => None
  | Some t2 =>
      match takeWhile isWordChar t2 with
      | [] => None
      | w =>
          match stripPrefix (js ";base64,") (dropWhile isWordChar t2) with
          | Some payload =>
              if forallb notLineTerminator payload
              then Some (List.length (pre ++ t),
                         [(2, (List.length pre + 6 + List.length w + 8,
                               List.length (pre ++ t)));
                          (1, (List.length pre,
                               List.length pre + 6 + List.length w))] ++ caps)
              else None
          | None => None
          end
      end
  end.
Proof.
  unfold group1, Plus. rewrite matcher_Group, matcher_Seq, matcher_Lit.
  destruct (stripPrefix (js "image/") t) as [t2|] eqn:E; [|reflexivity].
  apply stripPrefix_Some in E. subst t.
  rewrite app_assoc. set (pre2 := pre ++ js "image/").
  assert (Hpre2 : List.length pre2 = List.length pre + 6)
    by (unfold pre2; rewrite length_app; reflexivity).
  destruct t2 as [|c t2].
  - unfold Word. rewrite matcher_Seq, matcher_Class, nth_error_end. reflexivity.
  - unfold Word. rewrite matcher_Seq, matcher_Class, nth_error_here.
    cbn [takeWhile dropWhile].
    destruct (isWordChar c) eqn:Hc; [|reflexivity].
    rewrite matcher_Star.
    rewrite <- length_snoc with (c := c).
    rewrite starLoop_Class with (t := t2).
    + set (w := takeWhile isWordChar t2). set (d := dropWhile isWordChar t2).
      replace ((pre2 ++ [c]) ++ w) with (pre2 ++ c :: w) by apply app_snoc.
      replace (pre2 ++ c :: t2) with ((pre2 ++ c :: w) ++ d)
        by (rewrite <- app_assoc; cbn [app]; unfold w, d;
            now rewrite takeWhile_dropWhile).
      rewrite matcher_tail1.
      destruct (stripPrefix _ d); [|reflexivity].
      destruct (forallb notLineTerminator _); [|reflexivity].
      rewrite !length_app, Hpre2. cbn [List.length app].
      repeat f_equal; lia.
    + intros j d Hj Hd. apply (matcher_tail1_word _ _ _ _ Hj Hd).
    + apply app_snoc.
    + rewrite !length_app. simpl. lia.
Qed.

(** The direct recogniser decides [isDataUrl]. *)
Lemma parseDataUrl_Some s mime payload :
  parseDataUrl s = Some (mime, payload) <-> isDataUrl s mime payload.
Proof.
  unfold parseDataUrl, isDataUrl. split.
  - destruct (stripPrefix (js "data:") s) as [t1|] eqn:E1; [|discriminate].
    destruct (stripPrefix (js "image/") t1) as [t2|] eqn:E2; [|discriminate].
    destruct (takeWhile isWordChar t2) as [|c w] eqn:Ew; [discriminate|].
    destruct (stripPrefix (js ";base64,") (dropWhile isWordChar t2))
      as [p|] eqn:E3; [|discriminate].
    destruct (forallb notLineTerminator p) eqn:Ep; [|discriminate].
    intros H. injection H as <- <-.
    apply stripPrefix_Some in E1, E2, E3.
    exists (c :: w). repeat split.
    + discriminate.
    + rewrite <- Ew. apply takeWhile_forallb.
    + exact Ep.
    + rewrite E1, E2, <- (takeWhile_dropWhile isWordChar t2), Ew, E3.
      simpl. rewrite <- ?app_assoc. reflexivity.
  - intros (w & Hne & Hw & Hp & -> & ->).
    rewrite stripPrefix_app, <- app_assoc, stripPrefix_app.
    destruct (takeWhile_app isWordChar w (js ";base64," ++ payload) Hw)
      as [Et Ed]; [reflexivity|].
    rewrite Et, Ed, stripPrefix_app, Hp.
    destruct w; [contradiction|reflexivity].
Qed.

(** The matcher on [dataUrlPattern], from index 0. *)
Lemma matcher_dataUrl s :
  matcher dataUrlPattern s 0 [] k0 =
  match parseDataUrl s with
  | Some (mime, payload) =>
      Some (List.length s,
            [(2, (5 + List.length mime + 8, List.length s));
             (1, (5, 5 + List.length mime))])
  | None => None
  end.
Proof.
  change dataUrlPattern
    with (Seq AssertStart (Seq (Lit (js "data:")) (Seq group1 tail1))).
  rewrite matcher_Seq, matcher_AssertStart. cbn [Nat.eqb].
  rewrite matcher_Seq.
  change (matcher (Lit (js "data:")) s 0)
    with (matcher (Lit (js "data:")) ([] ++ s) (List.length (@nil char))).
  rewrite matcher_Lit. unfold parseDataUrl.
  destruct (stripPrefix (js "data:") s) as [t1|] eqn:E1; [|reflexivity].
  apply stripPrefix_Some in E1. subst s.
  rewrite matcher_Seq.
  cbn [app]. rewrite (matcher_group1 (js "data:") t1 []).
  destruct (stripPrefix (js "image/") t1) as [t2|]; [|reflexivity].
  destruct (takeWhile isWordChar t2) as [|c w]; [reflexivity|].
  destruct (stripPrefix _ _) as [payload|]; [|reflexivity].
  destruct (forallb notLineTerminator payload); [|reflexivity].
  rewrite !length_app. cbn [List.length app].
  repeat f_equal; lia.
Qed.

(** Anchored at the start, the pattern matches at no later index. *)
Lemma builtinExec_later s : forall fuel i,
  0 < i -> builtinExec dataUrlPattern s fuel i = None.
Proof.
  induction fuel as [|fuel IH]; intros i Hi; cbn [builtinExec];
    change dataUrlPattern
      with (Seq AssertStart (Seq (Lit (js "data:")) (Seq group1 tail1)));
    rewrite matcher_Seq, matcher_AssertStart;
    (replace (i =? 0) with false by (symmetry; apply Nat.eqb_neq; lia)).
  - reflexivity.
  - apply IH. lia.
Qed.

Lemma substring_middle (a m r : jsstring) :
  substring (a ++ m ++ r) (List.length a) (List.length a + List.length m) = m.
Proof.
  unfold substring.
  rewrite skipn_app, skipn_all, Nat.sub_diag. cbn [skipn app].
  replace (List.length a + List.length m - List.length a) with (List.length m + 0) by lia.
  rewrite firstn_app_2. cbn [firstn]. apply app_nil_r.
Qed.

Lemma substring_suffix (a p : jsstring) :
  substring (a ++ p) (List.length a) (List.length (a ++ p)) = p.
Proof.
  unfold substring.
  rewrite skipn_app, skipn_all, Nat.sub_diag, length_app. cbn [skipn app].
  replace (List.length a + List.length p - List.length a) with (List.length p) by lia.
  apply firstn_all.
Qed.

(** [fileToGenerativePart] computes the direct recogniser. *)
Lemma fileToGenerativePart_parse s :
  fileToGenerativePart s =
  match parseDataUrl s with
  | Some (mime, payload) => Returns {| data := payload; mimeType := mime |}
  | None => Throws invalidFormat
  end.
Proof.
  unfold fileToGenerativePart, stringMatch.
  destruct (List.length s) as [|fuel] eqn:Hlen.
  - cbn [builtinExec]. fold k0. rewrite matcher_dataUrl.
    destruct (parseDataUrl s) as [[mime payload]|] eqn:E; [|reflexivity].
    apply parseDataUrl_Some in E. destruct E as (w & _ & _ & _ & _ & ->).
    discriminate Hlen.
  - cbn [builtinExec]. fold k0. rewrite matcher_dataUrl, builtinExec_later by lia.
    destruct (parseDataUrl s) as [[mime payload]|] eqn:E; [|reflexivity].
    apply parseDataUrl_Some in E. destruct E as (w & _ & _ & _ & Hm & Hs).
    unfold groupText, matchGroup. cbn [lookupGroup matchCaptures matchInput Nat.eqb].
    f_equal. f_equal.
    + clear Hlen. subst s.
      replace (js "data:" ++ mime ++ js ";base64," ++ payload)
        with ((js "data:" ++ mime ++ js ";base64,") ++ payload)
        by (rewrite <- !app_assoc; reflexivity).
      replace (5 + List.length mime + 8)
        with (List.length (js "data:" ++ mime ++ js ";base64,"))
        by (rewrite !length_app; cbn [List.length js List.map list_ascii_of_string]; lia).
      apply substring_suffix.
    + rewrite Hs. apply (substring_middle (js "data:") mime).
Qed.

(** C2.  A string of the shape [data:<mime>;base64,<payload>] the pattern
    describes is decoded to exactly that mime type and that payload, and a
    string of no such shape makes the decoder throw the invalid-format
    error. *)
Theorem fileToGenerativePart_decodes :
  (forall s mime payload,
     isDataUrl s mime payload ->
     fileToGenerativePart s = Returns {| data := payload; mimeType := mime |})
  /\ (forall s,
        (forall mime payload, ~ isDataUrl s mime payload) ->
        fileToGenerativePart s = Throws invalidFormat).
Proof.
  split.
  - intros s mime payload H. apply parseDataUrl_Some in H.
    rewrite fileToGenerativePart_parse, H. reflexivity.
  - intros s H. rewrite fileToGenerativePart_parse.
    destruct (parseDataUrl s) as [[mime payload]|] eqn:E; [|reflexivity].
    apply parseDataUrl_Some in E. elim (H mime payload E).
Qed.

Lemma fileToGenerativePart_decodes_witness :
  fileToGenerativePart (js "data:image/png;base64,AAAA")
  = Returns {| data := js "AAAA"; mimeType := js "image/png" |}
  /\ fileToGenerativePart (js "data:image/svg+xml;base64,AAAA")
     = Throws invalidFormat.
Proof.
  split.
  - apply (proj1 fileToGenerativePart_decodes).
    exists (js "png"). split; [discriminate|].
    split; [reflexivity|]. split; [reflexivity|]. split; reflexivity.
  - apply (proj2 fileToGenerativePart_decodes).
    intros mime payload H. apply parseDataUrl_Some in H. discriminate H.
Defined.

End DataUrlFacts.

(** ** The synthesis operations *)

Module GeminiFacts.

Import DataUrl Gemini Spec.

Local Open Scope nat_scope.





(** C7, as amended.  A fault thrown inside [generateImage] or
    [generateSpeech] surfaces as a credential error when it is an [Error]
    whose message contains [API key], and as the generic fault otherwise;
    inside [generateVideo] a message containing [not found] makes it a
    credential error too. *)
Theorem faults_surface_by_message :
  (forall env base64Image prompt isEdit fault,
     generateImage_try env base64Image prompt isEdit = Throws fault ->
     exists surfaced,
       generateImage env base64Image prompt isEdit = Throws surfaced
       /\ errorKind surfaced = Some (kindByApiKey fault))
  /\ (forall env prompt fault,
        generateSpeech_try env prompt = Throws fault ->
        exists surfaced,
          generateSpeech env prompt = Throws surfaced
          /\ errorKind surfaced = Some (kindByApiKey fault))
  /\ (forall (S : Type) (onProgress : jsstring -> S -> S)
             env base64Image prompt aspectRatio (s s' : S) fault,
        generateVideo_try onProgress env base64Image prompt aspectRatio s
        = (s', Some (Throws fault)) ->
        exists surfaced,
          generateVideo onProgress env base64Image prompt aspectRatio s
          = (s', Some (Throws surfaced))
          /\ errorKind surfaced = Some (kindByApiKeyOrNotFound fault)).
Proof.
  split; [|split].
  - intros env base64Image prompt isEdit fault Htry.
    unfold generateImage. rewrite Htry. eexists. split; [reflexivity|].
    destruct fault as [message|]; cbn [generateImage_catch kindByApiKey];
      [destruct (includes message (js "API key"))|]; reflexivity.
  - intros env prompt fault Htry.
    unfold generateSpeech. rewrite Htry. eexists. split; [reflexivity|].
    destruct fault as [message|]; cbn [generateSpeech_catch kindByApiKey];
      [destruct (includes message (js "API key"))|]; reflexivity.
  - intros S onProgress env base64Image prompt aspectRatio s s' fault Htry.
    unfold generateVideo. rewrite Htry. eexists. split; [reflexivity|].
    destruct fault as [message|];
      cbn [generateVideo_catch kindByApiKeyOrNotFound];
      [destruct (includes message (js "API key"));
       [|destruct (includes message (js "not found"))]|]; reflexivity.
Qed.

Lemma faults_surface_by_message_witness :
  exists surfaced,
    generateImage Scenario.textOnlyService Scenario.selfie
      (js "A classic headshot.") false = Throws surfaced
    /\ errorKind surfaced = Some TransportOrServiceFault.
Proof.
  exact (proj1 faults_surface_by_message Scenario.textOnlyService
           Scenario.selfie (js "A classic headshot.") false noImageData
           eq_refl).
Defined.

(** C7 as stated fails for [generateVideo]: the fault the service raises
    for a key it does not know has no [API key] in its message, and it
    surfaces as a credential error, not as the generic fault. *)
Lemma not_found_surfaces_as_credential :
  exists message,
    Scenario.entityNotFound = ThrownError message
    /\ includes message (js "API key") = false
    /\ generateVideo_try recordProgress Scenario.unknownKeyService
         Scenario.selfie (js "A gentle zoom in.") Landscape []
       = ([progressInitiating], Some (Throws Scenario.entityNotFound))
    /\ generateVideo recordProgress Scenario.unknownKeyService
         Scenario.selfie (js "A gentle zoom in.") Landscape []
       = ([progressInitiating],
          Some (Throws (ThrownError videoKeyValidationMessage)))
    /\ errorKind (ThrownError videoKeyValidationMessage)
       = Some CredentialMissingOrInvalid
    /\ errorKind (ThrownError videoKeyValidationMessage)
       <> Some TransportOrServiceFault.
Proof.
  eexists. split; [reflexivity|].
  split; [vm_compute; reflexivity|].
  split; [vm_compute; reflexivity|].
  split; [vm_compute; reflexivity|].
  split; [vm_compute; reflexivity|].
  vm_compute. discriminate.
Qed.

(** Whatever the callback is, [generateVideo] calls it on the messages the
    recording callback collects, in that order, and on nothing else. *)
Lemma generateVideo_callbacks {S : Type} (onProgress : jsstring -> S -> S)
    (env : Remote) (base64Image prompt : jsstring)
    (aspectRatio : AspectRatio) (s : S) :
  let run := generateVideo recordProgress env base64Image prompt aspectRatio [] in
  generateVideo onProgress env base64Image prompt aspectRatio s
  = (fold_left (fun s message => onProgress message s) (fst run) s, snd run).
Proof.
  unfold generateVideo, generateVideo_try.
  destruct (newGoogleGenAI env); [|reflexivity].
  destruct (fileToGenerativePart base64Image); [|reflexivity].
  destruct (generateVideos env _); [|reflexivity].
  destruct (pollLoop _ _) as [[operation|e]|]; [|reflexivity..].
  destruct (negb (truthy_slot (videoUri operation))); [reflexivity|].
  destruct (fetch env _) as [response|e]; [|reflexivity].
  destruct (negb (ok response)); [reflexivity|].
  destruct (blob response); reflexivity.
Qed.




End GeminiFacts.

(** ** The controller *)

Module AppFacts.

Import App.

Local Open Scope nat_scope.

(** C4.  With its required input empty or missing, each of generate, edit
    and animate returns at once: nothing is requested from the host or the
    service and the state is the state it was. *)
Theorem empty_input_is_noop (oracle : Oracle) (st : State) :
  (truthy_slot (originalImage st) = false \/ truthy (stylePrompt st) = false ->
   exec oracle (handleGenerate st) st
   = {| final := st; issued := []; result := Some tt |})
  /\ (truthy_slot (generatedImage st) = false \/ truthy (editPrompt st) = false ->
      exec oracle (handleEdit st) st
      = {| final := st; issued := []; result := Some tt |})
  /\ (truthy_slot (generatedImage st) = false \/ truthy (videoPrompt st) = false ->
      exec oracle (handleGenerateVideo st) st
      = {| final := st; issued := []; result := Some tt |}).
Proof.
  repeat split; intros [H|H].
  - unfold handleGenerate. destruct (originalImage st) as [img|]; [|reflexivity].
    simpl in H. rewrite H. reflexivity.
  - unfold handleGenerate. destruct (originalImage st) as [img|]; [|reflexivity].
    rewrite H, orb_true_r. reflexivity.
  - unfold handleEdit. destruct (generatedImage st) as [img|]; [|reflexivity].
    simpl in H. rewrite H. reflexivity.
  - unfold handleEdit. destruct (generatedImage st) as [img|]; [|reflexivity].
    rewrite H, orb_true_r. reflexivity.
  - unfold handleGenerateVideo.
    destruct (generatedImage st) as [img|]; [|reflexivity].
    simpl in H. rewrite H. reflexivity.
  - unfold handleGenerateVideo.
    destruct (generatedImage st) as [img|]; [|reflexivity].
    rewrite H, orb_true_r. reflexivity.
Qed.

Lemma empty_input_is_noop_witness :
  exec Scenario.world (handleEdit Scenario.onAnimateScreen)
    Scenario.onAnimateScreen
  = {| final := Scenario.onAnimateScreen; issued := []; result := Some tt |}.
Proof.
  apply (proj1 (proj2 (empty_input_is_noop Scenario.world
                         Scenario.onAnimateScreen))).
  right. vm_compute. reflexivity.
Defined.

Lemma filter_other_gone (id : positive) (l : list (positive * nat)) :
  ~ In id (List.map fst (filter (fun t => negb (Pos.eqb (fst t) id)) l)).
Proof.
  intros H. apply in_map_iff in H as ([id' n] & Heq & Hin).
  apply filter_In in Hin as [_ Hne]. cbn [fst] in *. subst id'.
  rewrite Pos.eqb_refl in Hne. discriminate.
Qed.

Lemma onProgress_log (log : list jsstring) : forall st,
  fold_left (fun s message => onProgress message s) log st
  = setConsole
      (console st
       ++ List.map (fun message => js "Video Progress: " ++ message) log) st.
Proof.
  induction log as [|m log IH]; intros st; cbn [fold_left List.map].
  - rewrite app_nil_r. destruct_state st. reflexivity.
  - rewrite IH. destruct_state st.
    cbn [onProgress consoleLog console setConsole].
    rewrite <- app_assoc. reflexivity.
Qed.

Lemma generateVideo_state env image prompt ratio st :
  exists lines o,
    Gemini.generateVideo onProgress env image prompt ratio st
    = (setConsole (console st ++ lines) st, o).
Proof.
  rewrite GeminiFacts.generateVideo_callbacks. cbv zeta.
  rewrite onProgress_log. eexists. eexists. reflexivity.
Qed.

(** C3, as far as it holds.  From any state, the reset leaves the controller
    on the upload screen with the uploaded image, the generated image, the
    three prompts and the error cleared and the loading flag off, and asks
    nothing of the host or the service; the interval slot is empty and the
    timer whose handle it held is cancelled, the other timers being left as
    they are: no timer runs after the reset when the one in the slot was the
    only one. *)
Theorem reset_clears_everything (oracle : Oracle) (st : State) :
  let r := exec oracle handleReset st in
  step (final r) = UPLOAD
  /\ originalImage (final r) = None
  /\ generatedImage (final r) = None
  /\ stylePrompt (final r) = []
  /\ editPrompt (final r) = []
  /\ videoPrompt (final r) = []
  /\ error (final r) = None
  /\ isLoading (final r) = false
  /\ loadingMessageIntervalRef (final r) = None
  /\ intervals (final r)
     = match loadingMessageIntervalRef st with
       | Some id => filter (fun t => negb (Pos.eqb (fst t) id)) (intervals st)
       | None => intervals st
       end
  /\ (forall id, loadingMessageIntervalRef st = Some id ->
      ~ In id (List.map fst (intervals (final r))))
  /\ (timerTracked st -> intervals (final r) = [])
  /\ issued r = [].
Proof.
  destruct_state st. unfold timerTracked. cbv zeta.
  cbn [loadingMessageIntervalRef intervals isLoading].
  destruct ref0 as [id|].
  - do 10 (split; [reflexivity|]). split; [|split; [|reflexivity]].
    + intros id' H. change (Some id = Some id') in H. injection H as <-.
      change (~ In id (List.map fst
                         (filter (fun t => negb (Pos.eqb (fst t) id))
                            intervals0))).
      apply filter_other_gone.
    + intros [_ [n ->]].
      change (filter (fun t => negb (Pos.eqb (fst t) id)) [(id, n)] = []).
      cbn [filter fst]. rewrite Pos.eqb_refl. reflexivity.
  - do 10 (split; [reflexivity|]). split; [|split; [|reflexivity]].
    + intros id' H. change (None = Some id') in H. discriminate.
    + intros Hnone. exact Hnone.
Qed.

Lemma reset_clears_everything_witness :
  isLoading Scenario.midVideo = true
  /\ intervals Scenario.midVideo = [(1%positive, 0)]
  /\ intervals (final (exec Scenario.world handleReset Scenario.midVideo)) = []
  /\ step (final (exec Scenario.world handleReset Scenario.midVideo)) = UPLOAD.
Proof.
  pose proof (reset_clears_everything Scenario.world Scenario.midVideo) as H.
  cbv zeta in H.
  destruct H as (Hstep & _ & _ & _ & _ & _ & _ & _ & _ & _ & _ & Hall & _).
  split; [vm_compute; reflexivity|]. split; [vm_compute; reflexivity|].
  split; [|exact Hstep]. apply Hall.
  split; [reflexivity|]. exists 0. reflexivity.
Defined.

Lemma doubleClicked_running : running Scenario.doubleClicked.
Proof.
  unfold Scenario.doubleClicked.
  repeat first [ apply run_answer | apply run_press; [|vm_compute; reflexivity] ].
  apply run_mount.
Qed.

(** C3 does not hold of the code.  Generate Video is clicked twice before
    the host has answered the first click's key query, which is possible
    because the loading flag is set only after that answer; each click
    starts a timer and puts its handle in the slot, the second over the
    first.  When both generations are over the first timer still runs; the
    reset that follows finds the slot empty and cancels nothing, and the
    timer goes on changing the loading message on the upload screen. *)
Lemma reset_leaves_a_timer :
  running Scenario.doubleClicked
  /\ awaiting Scenario.doubleClicked = []
  /\ isLoading (now Scenario.doubleClicked) = false
  /\ loadingMessageIntervalRef (now Scenario.doubleClicked) = None
  /\ intervals (now Scenario.doubleClicked) = [(1%positive, 0)]
  /\ enabled StartOverClicked (now Scenario.doubleClicked) = true
  /\ step (now (press StartOverClicked Scenario.doubleClicked)) = UPLOAD
  /\ intervals (now (press StartOverClicked Scenario.doubleClicked))
     = [(1%positive, 0)]
  /\ loadingMessage
       (now (beat 1 (press StartOverClicked Scenario.doubleClicked)))
     = videoLoadingMessage 1.
Proof.
  split; [exact doubleClicked_running|].
  repeat split; vm_compute; reflexivity.
Qed.

(** C5.  The state has one slot for the generated image, so it never holds
    more than one; a generation that succeeds fills the slot and moves to
    the edit screen, and an edit that succeeds leaves in the slot the new
    image alone, in place of the one that was there. *)
Theorem single_artifact_slot :
  (forall st : State, List.length (artifacts st) <= 1)
  /\ (forall (oracle : Oracle) (st : State) (image result : jsstring),
        originalImage st = Some image -> truthy image = true ->
        truthy (stylePrompt st) = true ->
        (forall s, oracle _ (GenerateImage image (stylePrompt st) false) s
                   = (s, Some (Returns result))) ->
        let r := exec oracle (handleGenerate st) st in
        artifacts (final r) = [result] /\ step (final r) = EDIT)
  /\ (forall (oracle : Oracle) (st : State) (old result : jsstring),
        generatedImage st = Some old -> truthy old = true ->
        truthy (editPrompt st) = true ->
        (forall s, oracle _ (GenerateImage old (editPrompt st) true) s
                   = (s, Some (Returns result))) ->
        let r := exec oracle (handleEdit st) st in
        artifacts st = [old] /\ artifacts (final r) = [result]).
Proof.
  split; [|split].
  - intros st. unfold artifacts. destruct (generatedImage st); simpl; lia.
  - intros oracle st image result Himg Htr Hsp Hor. destruct_state st.
    cbn in Himg, Hsp, Hor. subst originalImage0.
    unfold exec, handleGenerate. cbn [originalImage stylePrompt].
    rewrite Htr, Hsp. cbn [negb orb execFrom]. rewrite Hor.
    split; reflexivity.
  - intros oracle st old result Himg Htr Hep Hor. destruct_state st.
    cbn in Himg, Hep, Hor. subst generatedImage0.
    unfold exec, handleEdit. cbn [generatedImage editPrompt].
    rewrite Htr, Hep. cbn [negb orb execFrom]. rewrite Hor.
    split; reflexivity.
Qed.

Lemma single_artifact_slot_witness :
  artifacts Scenario.withVoiceGuide = [js "data:image/png;base64,QUJD"]
  /\ artifacts (final (exec Scenario.retouching
                         (handleEdit Scenario.withVoiceGuide)
                         Scenario.withVoiceGuide))
     = [js "data:image/jpeg;base64,REVG"].
Proof.
  refine (proj2 (proj2 single_artifact_slot) Scenario.retouching
            Scenario.withVoiceGuide (js "data:image/png;base64,QUJD")
            (js "data:image/jpeg;base64,REVG") _ _ _ _).
  - vm_compute. reflexivity.
  - vm_compute. reflexivity.
  - vm_compute. reflexivity.
  - intros s. vm_compute. reflexivity.
Defined.

(** The requests a process issues come after those issued before it. *)
Lemma execFrom_trace {R} (oracle : Oracle) (p : Proc R) :
  forall st trace,
    execFrom oracle p st trace =
    {| final := final (execFrom oracle p st []);
       issued := trace ++ issued (execFrom oracle p st []);
       result := result (execFrom oracle p st []) |}.
Proof.
  induction p as [r|f next IH|k IH|A req k IH]; intros st trace; cbn [execFrom].
  - cbn [final issued result]. rewrite app_nil_r. reflexivity.
  - apply IH.
  - apply IH.
  - destruct (oracle A req st) as [st' [o|]].
    + rewrite (IH o st' (trace ++ [Issue req])), (IH o st' ([] ++ [Issue req])).
      cbn [final issued result]. rewrite <- app_assoc. reflexivity.
    + cbn [final issued result]. reflexivity.
Qed.

Lemma execFrom_Await_issued {R A} (oracle : Oracle) (req : Request A)
    (k : Outcome A -> Proc R) st :
  exists rest, issued (execFrom oracle (Await req k) st []) = Issue req :: rest.
Proof.
  cbn [execFrom]. destruct (oracle A req st) as [st' [o|]].
  - rewrite execFrom_trace. cbn [issued app]. eexists. reflexivity.
  - cbn [issued app]. eexists. reflexivity.
Qed.

(** C9, as amended.  Where the host capability exists, the host is asked
    whether a key is selected every time a video generation is started with
    an image and a prompt, and every time the Animate screen is entered,
    whether or not the key-selected flag is already set; where it does not
    exist, nothing is asked on either occasion and the flag stays as it
    was; the reset leaves the flag as it was and asks nothing. *)
Theorem key_gate_queried_every_time :
  (forall (oracle : Oracle) (st : State) (image : jsstring),
     generatedImage st = Some image -> truthy image = true ->
     truthy (videoPrompt st) = true ->
     if aistudio st
     then exists rest,
            issued (exec oracle (handleGenerateVideo st) st)
            = Issue HasSelectedApiKey :: rest
     else issued (exec oracle (handleGenerateVideo st) st) = []
          /\ isKeySelected (final (exec oracle (handleGenerateVideo st) st))
             = isKeySelected st)
  /\ (forall (oracle : Oracle) (st : State),
        step st <> VIDEO ->
        if aistudio st
        then exists rest,
               issued (dispatch oracle AnimateClicked st)
               = Issue HasSelectedApiKey :: rest
        else issued (dispatch oracle AnimateClicked st) = []
             /\ isKeySelected (final (dispatch oracle AnimateClicked st))
                = isKeySelected st)
  /\ (forall (oracle : Oracle) (st : State),
        isKeySelected (final (dispatch oracle StartOverClicked st))
        = isKeySelected st
        /\ issued (dispatch oracle StartOverClicked st) = []).
Proof.
  split; [|split].
  - intros oracle st image Himg Htr Hvp. destruct_state st.
    cbn in Himg, Hvp. subst generatedImage0.
    unfold exec, handleGenerateVideo.
    cbn [generatedImage videoPrompt aistudio]. rewrite Htr, Hvp.
    cbn [negb orb andThen checkApiKey execFrom aistudio].
    destruct aistudio0.
    + apply execFrom_Await_issued.
    + destruct ref0; split; reflexivity.
  - intros oracle st Hstep. destruct_state st.
    cbn in Hstep. cbn [aistudio].
    destruct aistudio0.
    + destruct step0; try congruence;
        (unfold dispatch, exec;
         cbn [handler execFrom final step setStep AppStep_eqb];
         cbn [stepEffect step AppStep_eqb andThen checkApiKey execFrom
              aistudio issued];
         apply execFrom_Await_issued).
    + destruct step0; try congruence; split; reflexivity.
  - intros oracle st. destruct_state st.
    destruct ref0 as [id|], step0; split; reflexivity.
Qed.

Lemma key_gate_queried_every_time_witness :
  isKeySelected Scenario.readyToAnimate = true
  /\ exists rest,
       issued (exec Scenario.world
                 (handleGenerateVideo Scenario.readyToAnimate)
                 Scenario.readyToAnimate)
       = Issue HasSelectedApiKey :: rest.
Proof.
  split; [vm_compute; reflexivity|].
  pose proof (proj1 key_gate_queried_every_time Scenario.world
                Scenario.readyToAnimate (js "data:image/png;base64,QUJD")
                eq_refl eq_refl eq_refl) as H.
  assert (E : aistudio Scenario.readyToAnimate = true)
    by (vm_compute; reflexivity).
  rewrite E in H. exact H.
Defined.

(** C9 as stated fails.  Entering the Animate screen asked the host and set
    the key-selected flag; with no reset in between, the enabled Generate
    Video button asks the host again; and a reset afterwards leaves the flag
    set. *)
Lemma key_gate_asked_again :
  List.map isKeyQuery (snd (session Scenario.toAnimate (initial true) []))
  = [false; true]
  /\ isKeySelected Scenario.readyToAnimate = true
  /\ enabled GenerateVideoClicked Scenario.readyToAnimate = true
  /\ List.map isKeyQuery
       (issued (dispatch Scenario.world GenerateVideoClicked
                  Scenario.readyToAnimate))
     = [true; false]
  /\ isKeySelected
       (final (dispatch Scenario.world StartOverClicked
                 (final (dispatch Scenario.world GenerateVideoClicked
                           Scenario.readyToAnimate))))
     = true.
Proof. repeat split; vm_compute; reflexivity. Qed.

(** C10.  An edit that has an image and a prompt clears the audio slot
    before it issues the synthesis request, and what it does once the
    request has settled, either way, leaves the audio slot alone and asks
    for nothing more: when the edit is over the audio that was attached is
    attached no longer. *)
Theorem edit_detaches_audio (st : State) (image : jsstring) :
  generatedImage st = Some image -> truthy image = true ->
  truthy (editPrompt st) = true ->
  (exists st1 k,
     start (handleEdit st) st
     = (st1, Waiting (GenerateImage image (editPrompt st) true) k)
     /\ generatedAudioUrl st1 = None
     /\ forall (oracle : Oracle) (o : Outcome jsstring) (st' : State),
          generatedAudioUrl (final (exec oracle (k o) st'))
          = generatedAudioUrl st'
          /\ issued (exec oracle (k o) st') = [])
  /\ (forall (oracle : Oracle) (o : Outcome jsstring),
        (forall s, oracle _ (GenerateImage image (editPrompt st) true) s
                   = (s, Some o)) ->
        generatedAudioUrl (final (exec oracle (handleEdit st) st)) = None).
Proof.
  intros Himg Htr Hep. destruct_state st.
  cbn in Himg, Hep. subst generatedImage0. split.
  - unfold handleEdit. cbn [generatedImage editPrompt]. rewrite Htr, Hep.
    cbn [negb orb start]. eexists. eexists. split; [reflexivity|].
    split; [reflexivity|].
    intros oracle o st'.
    destruct st' as [? ? ? ? ? ? ? ? ? ? ? ? ? ? ? ? ? ? ? ?].
    destruct o; split; reflexivity.
  - intros oracle o Hor. cbn in Hor.
    unfold exec, handleEdit. cbn [generatedImage editPrompt]. rewrite Htr, Hep.
    cbn [negb orb execFrom]. rewrite Hor. destruct o; reflexivity.
Qed.

Lemma edit_detaches_audio_witness :
  generatedAudioUrl Scenario.withVoiceGuide = Some (js "blob:1")
  /\ generatedAudioUrl
       (final (exec Scenario.retouching (handleEdit Scenario.withVoiceGuide)
                 Scenario.withVoiceGuide))
     = None.
Proof.
  split; [vm_compute; reflexivity|].
  refine (proj2 (edit_detaches_audio Scenario.withVoiceGuide
                   (js "data:image/png;base64,QUJD") _ _ _)
            Scenario.retouching
            (Returns (js "data:image/jpeg;base64,REVG")) _).
  - vm_compute. reflexivity.
  - vm_compute. reflexivity.
  - vm_compute. reflexivity.
  - intros s. vm_compute. reflexivity.
Defined.

End AppFacts.

(** ** [pcmToWav], read back *)

Module WavReadFacts.

Import Wav Spec WavFacts WavRead.

Local Open Scope Z_scope.

Lemma map_mod_bytes (bytes : list Z) :
  Forall (fun b => 0 <= b < 256) bytes ->
  List.map (fun b => b mod 256) bytes = bytes.
Proof.
  induction 1 as [|b bytes Hb _ IH]; cbn [List.map]; [reflexivity|].
  rewrite IH, Z.mod_small by exact Hb. reflexivity.
Qed.

Lemma pcmToWav_fresh_bytes bytes sampleRate :
  pcmToWav (Uint8Array_of bytes) sampleRate
  = Returns {| blobBytes := wavHeader sampleRate (List.length bytes)
                            ++ List.map (fun b => b mod 256) bytes;
               blobType := js "audio/wav" |}.
Proof.
  destruct (pcmToWav_cases (Uint8Array_of bytes) sampleRate)
    as [[_ Heq]|[Hgt _]].
  - rewrite Heq. cbn [byteLength buffer Uint8Array_of].
    rewrite skipn_all2 by (rewrite repeat_length; lia).
    rewrite app_nil_r. reflexivity.
  - exfalso. cbn [byteLength buffer Uint8Array_of] in Hgt. lia.
Qed.

(** X1.  For a byte array that owns its buffer, the file [pcmToWav] builds
    carries the samples unchanged after the 44 header bytes, and its type is
    audio/wav. *)
Theorem pcmToWav_keeps_samples (bytes : list Z) (sampleRate : Z) :
  Forall (fun b => 0 <= b < 256) bytes ->
  exists wav,
    pcmToWav (Uint8Array_of bytes) sampleRate = Returns wav
    /\ skipn 44 (blobBytes wav) = bytes
    /\ blobType wav = js "audio/wav".
Proof.
  intros Hbytes. eexists. split; [apply pcmToWav_fresh_bytes|].
  cbn [blobBytes blobType]. split; [|reflexivity].
  rewrite (map_mod_bytes _ Hbytes).
  change 44%nat with (List.length (wavHeader sampleRate (List.length bytes))).
  rewrite skipn_app, skipn_all, Nat.sub_diag. reflexivity.
Qed.

Lemma pcmToWav_keeps_samples_witness :
  exists wav,
    pcmToWav (Uint8Array_of [1; 2; 255]) 24000 = Returns wav
    /\ skipn 44 (blobBytes wav) = [1; 2; 255]
    /\ blobType wav = js "audio/wav".
Proof.
  apply (pcmToWav_keeps_samples [1; 2; 255] 24000).
  repeat constructor; discriminate.
Defined.

Lemma returned_header pcmData sampleRate wav :
  pcmToWav pcmData sampleRate = Returns wav ->
  exists rest, blobBytes wav = wavHeader sampleRate (byteLength pcmData) ++ rest.
Proof.
  intros H.
  destruct (pcmToWav_cases pcmData sampleRate) as [[_ Heq]|[_ Heq]];
    rewrite Heq in H; [|discriminate].
  apply Returns_inj in H. subst wav. cbn [blobBytes]. eexists. reflexivity.
Qed.

(** X2.  Whenever [pcmToWav] returns, the header reads back as a mono 16-bit
    PCM WAVE file: the tags RIFF, WAVE, fmt and data at offsets 0, 8, 12 and
    36, a format chunk of 16 bytes, format 1, one channel, block alignment 2,
    16 bits per sample, and the sample rate and twice the sample rate modulo
    2^32; for a sample rate below 2^31 the byte rate is the sample rate
    times the block alignment. *)
Theorem pcmToWav_header_fields (pcmData : Uint8Array) (sampleRate : Z)
    (wav : Blob) :
  pcmToWav pcmData sampleRate = Returns wav ->
  readTag (blobBytes wav) 0 = codes (js "RIFF")
  /\ readTag (blobBytes wav) 8 = codes (js "WAVE")
  /\ readTag (blobBytes wav) 12 = codes (js "fmt ")
  /\ readUint32LE (blobBytes wav) 16 = 16
  /\ readUint16LE (blobBytes wav) 20 = 1
  /\ readUint16LE (blobBytes wav) 22 = 1
  /\ readUint32LE (blobBytes wav) 24 = sampleRate mod 2 ^ 32
  /\ readUint32LE (blobBytes wav) 28 = (2 * sampleRate) mod 2 ^ 32
  /\ readUint16LE (blobBytes wav) 32 = 2
  /\ readUint16LE (blobBytes wav) 34 = 16
  /\ readTag (blobBytes wav) 36 = codes (js "data")
  /\ (0 <= sampleRate < 2 ^ 31 ->
      readUint32LE (blobBytes wav) 24 = sampleRate
      /\ readUint32LE (blobBytes wav) 28
         = readUint32LE (blobBytes wav) 24 * readUint16LE (blobBytes wav) 32).
Proof.
  intros H. destruct (returned_header _ _ _ H) as [rest ->].
  assert (H24 : readUint32LE (wavHeader sampleRate (byteLength pcmData) ++ rest) 24
                = sampleRate mod 2 ^ 32).
  { unfold readUint32LE, wavHeader. cbn [nth app Nat.add].
    apply le32_split. apply Z.mod_pos_bound. reflexivity. }
  assert (H28 : readUint32LE (wavHeader sampleRate (byteLength pcmData) ++ rest) 28
                = (2 * sampleRate) mod 2 ^ 32).
  { unfold readUint32LE, wavHeader. cbn [nth app Nat.add].
    rewrite (Z.mul_comm 2 sampleRate).
    apply le32_split. apply Z.mod_pos_bound. reflexivity. }
  assert (H32 : readUint16LE (wavHeader sampleRate (byteLength pcmData) ++ rest) 32 = 2)
    by reflexivity.
  do 6 (split; [reflexivity|]). split; [exact H24|]. split; [exact H28|].
  do 3 (split; [reflexivity|]).
  intros Hrate. rewrite H24, H28, H32.
  change (2 ^ 31) with 2147483648 in Hrate.
  rewrite !Z.mod_small by (change (2 ^ 32) with 4294967296; lia).
  split; [reflexivity | lia].
Qed.

Lemma pcmToWav_header_fields_witness :
  exists wav,
    pcmToWav (Uint8Array_of [1; 2; 3; 4]) 24000 = Returns wav
    /\ readUint32LE (blobBytes wav) 24 = 24000
    /\ readUint32LE (blobBytes wav) 28 = 48000.
Proof.
  destruct (pcmToWav_fresh [1; 2; 3; 4] 24000) as [wav Hwav].
  exists wav. split; [exact Hwav|].
  destruct (pcmToWav_header_fields _ _ _ Hwav)
    as (_ & _ & _ & _ & _ & _ & _ & _ & H32 & _ & _ & Hrate).
  destruct Hrate as [H24 H28]; [split; [discriminate | reflexivity]|].
  split; [exact H24|]. rewrite H28, H24, H32. reflexivity.
Defined.

(** X3.  Given a view that covers only part of its buffer, [pcmToWav] copies
    the whole buffer into a file sized for the view and throws the
    RangeError of the write past the end. *)
Theorem pcmToWav_partial_view_throws (pcmData : Uint8Array) (sampleRate : Z) :
  (byteLength pcmData < List.length (buffer pcmData))%nat ->
  pcmToWav pcmData sampleRate = Throws rangeError.
Proof.
  intros Hlt.
  destruct (pcmToWav_cases pcmData sampleRate) as [[Hle _]|[_ Heq]];
    [lia | exact Heq].
Qed.

Lemma pcmToWav_partial_view_throws_witness :
  pcmToWav (subarray (Uint8Array_of [1; 2; 3; 4]) 2 4) 24000 = Throws rangeError.
Proof.
  apply pcmToWav_partial_view_throws. cbn. repeat constructor.
Defined.

End WavReadFacts.

(** ** [fileToGenerativePart]: what it rejects *)

Module DataUrlEdgeFacts.

Import RegExp DataUrl Spec DataUrlFacts.

Local Open Scope nat_scope.

Lemma wordChar_notLineTerminator c :
  isWordChar c = true -> notLineTerminator c = true.
Proof.
  unfold isWordChar, notLineTerminator, isLineTerminator. intros H.
  destruct (N.eqb_spec c 10), (N.eqb_spec c 13), (N.eqb_spec c 8232),
    (N.eqb_spec c 8233); subst; try discriminate H; reflexivity.
Qed.

Lemma forallb_word_notLineTerminator w :
  forallb isWordChar w = true -> forallb notLineTerminator w = true.
Proof.
  induction w as [|c w IH]; cbn [forallb]; [reflexivity|].
  intros H. apply andb_prop in H as [Hc Hw].
  now rewrite (wordChar_notLineTerminator _ Hc), IH.
Qed.

(** Every string the decoder accepts is free of line terminators. *)
Lemma accepted_notLineTerminator s mime payload :
  isDataUrl s mime payload -> forallb notLineTerminator s = true.
Proof.
  intros (w & _ & Hw & Hp & -> & ->).
  rewrite !forallb_app, Hp, (forallb_word_notLineTerminator _ Hw).
  reflexivity.
Qed.

(** X4.  A string that holds a line terminator anywhere, in the payload
    too, is rejected with the invalid-format error: the pattern's [.] does
    not cross a line. *)
Theorem fileToGenerativePart_rejects_line_terminator (s : jsstring) :
  existsb isLineTerminator s = true ->
  fileToGenerativePart s = Throws invalidFormat.
Proof.
  intros Hlt. rewrite fileToGenerativePart_parse.
  destruct (parseDataUrl s) as [[mime payload]|] eqn:E; [|reflexivity].
  apply parseDataUrl_Some, accepted_notLineTerminator in E.
  exfalso. clear mime payload.
  induction s as [|c s IH]; cbn [existsb forallb] in *; [discriminate|].
  apply andb_prop in E as [Ec Es]. unfold notLineTerminator in Ec.
  destruct (isLineTerminator c); [discriminate|]. now apply IH.
Qed.

Lemma fileToGenerativePart_rejects_line_terminator_witness :
  fileToGenerativePart (js "data:image/png;base64,AAAA" ++ [10%N])
  = Throws invalidFormat.
Proof.
  apply fileToGenerativePart_rejects_line_terminator. reflexivity.
Defined.

Lemma nonword_subtype_rejected (w rest : jsstring) (c : char) :
  forallb isWordChar w = true -> isWordChar c = false -> c <> 59%N ->
  parseDataUrl (js "data:image/" ++ w ++ c :: rest) = None.
Proof.
  intros Hw Hc Hsemi. unfold parseDataUrl.
  change (js "data:image/") with (js "data:" ++ js "image/").
  rewrite <- app_assoc, stripPrefix_app, stripPrefix_app.
  destruct (takeWhile_app isWordChar w (c :: rest) Hw Hc) as [-> ->].
  destruct w as [|x w]; [reflexivity|].
  cbn [stripPrefix js List.map list_ascii_of_string].
  destruct (N.eqb_spec (N_of_ascii ";") c) as [E|_]; [|reflexivity].
  elim Hsemi. symmetry. exact E.
Qed.

(** X5.  A data URL whose image subtype runs into a character that is
    neither a word character nor the semicolon, as in image/svg+xml, is
    rejected with the invalid-format error. *)
Theorem fileToGenerativePart_rejects_subtype (w rest : jsstring) (c : char) :
  forallb isWordChar w = true -> isWordChar c = false -> c <> 59%N ->
  fileToGenerativePart (js "data:image/" ++ w ++ c :: rest)
  = Throws invalidFormat.
Proof.
  intros Hw Hc Hsemi. rewrite fileToGenerativePart_parse.
  rewrite (nonword_subtype_rejected w rest c Hw Hc Hsemi). reflexivity.
Qed.

Lemma fileToGenerativePart_rejects_subtype_witness :
  fileToGenerativePart (js "data:image/svg+xml;base64,AAAA")
  = Throws invalidFormat.
Proof.
  apply (fileToGenerativePart_rejects_subtype (js "svg") (js "xml;base64,AAAA")
           43%N); [reflexivity | reflexivity | discriminate].
Defined.

End DataUrlEdgeFacts.

(** ** The synthesis operations: results and failures *)

Module SynthesisFacts.

Import Wav DataUrl Gemini Spec Polling.

Local Open Scope nat_scope.

Lemma firstInlineImage_first (pre rest : list Part) (p : Part)
    (d : Inline.InlineData) :
  (forall q, In q pre -> inlineData q = None) ->
  inlineData p = Some d ->
  firstInlineImage (pre ++ p :: rest)
  = Returns (js "data:" ++ templateText (Inline.mimeType d)
             ++ js ";base64," ++ templateText (Inline.data d)).
Proof.
  intros Hpre Hp. induction pre as [|q pre IH]; cbn [app firstInlineImage].
  - rewrite Hp. reflexivity.
  - rewrite (Hpre q (or_introl eq_refl)). apply IH.
    intros q' Hq'. apply Hpre. now right.
Qed.

(** X6.  When the service's answer to the request, which is for the model
    gemini-2.5-flash-image and carries the decoded image and the prompt
    followed by the suffix of the mode, has an inline part, [generateImage]
    resolves to the data URL made of the mime type and the data of the
    first such part, each written as the text undefined when the part
    leaves it out, parts before it without inline data being skipped.  When
    the part has both and the URL has the shape the decoder expects,
    decoding it gives the mime type and the data back; when the part has an
    image mime type and no data, the URL is still one the decoder accepts,
    and it decodes to the data undefined. *)
Theorem generateImage_first_inline_part
    (env : Remote) (base64Image prompt : jsstring) (isEdit : bool)
    (imagePart : InlineData) (d : Inline.InlineData)
    (response : GenerateContentResponse)
    (pre rest : list Part) (p : Part) :
  fileToGenerativePart base64Image = Returns imagePart ->
  generateContent env
    (ImageRequest (js "gemini-2.5-flash-image") imagePart
       (prompt ++ if isEdit then editSuffix else styleSuffix))
  = Returns response ->
  firstCandidateParts response = Returns (pre ++ p :: rest) ->
  (forall q, In q pre -> inlineData q = None) ->
  inlineData p = Some d ->
  let url := js "data:" ++ templateText (Inline.mimeType d)
             ++ js ";base64," ++ templateText (Inline.data d) in
  generateImage env base64Image prompt isEdit = Returns url
  /\ (forall mime payload,
        Inline.mimeType d = Some mime -> Inline.data d = Some payload ->
        isDataUrl url mime payload ->
        fileToGenerativePart url
        = Returns {| data := payload; mimeType := mime |})
  /\ (forall w,
        w <> [] -> forallb RegExp.isWordChar w = true ->
        Inline.mimeType d = Some (js "image/" ++ w) ->
        Inline.data d = None ->
        fileToGenerativePart url
        = Returns {| data := js "undefined"; mimeType := js "image/" ++ w |}).
Proof.
  intros Himg Hresp Hparts Hpre Hp url. split; [|split].
  - unfold generateImage, generateImage_try. rewrite Himg. cbn [bind].
    replace (if isEdit then prompt ++ editSuffix else prompt ++ styleSuffix)
      with (prompt ++ if isEdit then editSuffix else styleSuffix)
      by (destruct isEdit; reflexivity).
    rewrite Hresp. cbn [bind]. rewrite Hparts. cbn [bind].
    rewrite (firstInlineImage_first pre rest p d Hpre Hp). reflexivity.
  - intros mime payload _ _ Hurl.
    apply DataUrlFacts.parseDataUrl_Some in Hurl.
    rewrite DataUrlFacts.fileToGenerativePart_parse, Hurl. reflexivity.
  - intros w Hne Hw Hmime Hdata.
    assert (Hurl : isDataUrl url (js "image/" ++ w) (js "undefined")).
    { exists w. subst url. rewrite Hmime, Hdata.
      repeat split; try assumption; reflexivity. }
    apply DataUrlFacts.parseDataUrl_Some in Hurl.
    rewrite DataUrlFacts.fileToGenerativePart_parse, Hurl. reflexivity.
Qed.

Lemma generateImage_first_inline_part_witness :
  generateImage Scenario.service Scenario.selfie (js "A classic headshot.") false
  = Returns (js "data:image/png;base64,QUJD")
  /\ fileToGenerativePart (js "data:image/png;base64,QUJD")
     = Returns Scenario.headshot.
Proof.
  pose proof (generateImage_first_inline_part Scenario.service Scenario.selfie
                (js "A classic headshot.") false
                {| data := js "AAAA"; mimeType := js "image/png" |}
                {| Inline.data := Some (js "QUJD");
                   Inline.mimeType := Some (js "image/png") |}
                Scenario.imageResponse [] []
                {| inlineData :=
                     Some {| Inline.data := Some (js "QUJD");
                             Inline.mimeType := Some (js "image/png") |};
                   text := None |}) as H.
  cbv zeta in H.
  destruct H as (Hgen & Hback & _); try reflexivity; [intros q []|].
  split; [exact Hgen|].
  apply (Hback (js "image/png") (js "QUJD") eq_refl eq_refl).
  exists (js "png"). split; [discriminate|]. repeat split; reflexivity.
Defined.

(** X7.  A synthesis operation that rejects does so with one of its own
    fixed messages, two for the image, two for the speech and three for the
    video, whatever was thrown inside it: the message of the service never
    reaches the caller. *)
Theorem synthesis_rejects_with_fixed_messages :
  (forall env base64Image prompt isEdit,
     (exists url, generateImage env base64Image prompt isEdit = Returns url)
     \/ generateImage env base64Image prompt isEdit
        = Throws (ThrownError imageKeyMessage)
     \/ generateImage env base64Image prompt isEdit
        = Throws (ThrownError imageFailedMessage))
  /\ (forall env prompt,
        (exists url, generateSpeech env prompt = Returns url)
        \/ generateSpeech env prompt = Throws (ThrownError speechKeyMessage)
        \/ generateSpeech env prompt = Throws (ThrownError speechFailedMessage))
  /\ (forall (S : Type) (onProgress : jsstring -> S -> S)
             env base64Image prompt aspectRatio (s : S),
        let settled :=
          snd (generateVideo onProgress env base64Image prompt aspectRatio s) in
        settled = None
        \/ (exists url, settled = Some (Returns url))
        \/ settled = Some (Throws (ThrownError videoKeyMessage))
        \/ settled = Some (Throws (ThrownError videoKeyValidationMessage))
        \/ settled = Some (Throws (ThrownError videoFailedMessage))).
Proof.
  split; [|split].
  - intros env base64Image prompt isEdit. unfold generateImage.
    destruct (generateImage_try _ _ _ _) as [url|[message|]];
      [left; eexists; reflexivity| |right; right; reflexivity].
    cbn [generateImage_catch]. destruct (includes message _); auto.
  - intros env prompt. unfold generateSpeech.
    destruct (generateSpeech_try _ _) as [url|[message|]];
      [left; eexists; reflexivity| |right; right; reflexivity].
    cbn [generateSpeech_catch]. destruct (includes message _); auto.
  - intros S onProgress env base64Image prompt aspectRatio s settled.
    subst settled. unfold generateVideo.
    destruct (generateVideo_try _ _ _ _ _ _) as [s' [[url|[message|]]|]];
      cbn [snd]; [right; left; eexists; reflexivity| | |left; reflexivity].
    + cbn [generateVideo_catch]. destruct (includes message (js "API key")); auto.
      destruct (includes message (js "not found")); auto 6.
    + auto 6.
Qed.

(** X8.  With an image string the decoder rejects, [generateImage] fails
    with its generic message whatever the service would answer, and
    [generateVideo], once its client is created, fails with its generic
    message without having called the progress callback. *)
Theorem invalid_image_fails_before_any_request
    (base64Image prompt : jsstring) :
  fileToGenerativePart base64Image = Throws invalidFormat ->
  (forall env isEdit,
     generateImage env base64Image prompt isEdit
     = Throws (ThrownError imageFailedMessage))
  /\ (forall (S : Type) (onProgress : jsstring -> S -> S) env aspectRatio (s : S),
        newGoogleGenAI env = Returns tt ->
        generateVideo onProgress env base64Image prompt aspectRatio s
        = (s, Some (Throws (ThrownError videoFailedMessage)))).
Proof.
  intros Himg. split.
  - intros env isEdit. unfold generateImage, generateImage_try.
    rewrite Himg. reflexivity.
  - intros S onProgress env aspectRatio s Hnew.
    unfold generateVideo, generateVideo_try. rewrite Hnew, Himg. reflexivity.
Qed.

Lemma invalid_image_fails_before_any_request_witness :
  generateImage Scenario.service (js "data:image/svg+xml;base64,AAAA")
    (js "A classic headshot.") false
  = Throws (ThrownError imageFailedMessage).
Proof.
  apply (proj1 (invalid_image_fails_before_any_request
                  (js "data:image/svg+xml;base64,AAAA")
                  (js "A classic headshot.") eq_refl)).
Defined.

(** X9.  When the service answers the speech request with base64 audio,
    [generateSpeech] resolves to the object URL of a WAVE file of type
    audio/wav, 44 bytes longer than the decoded audio, whose samples are the
    code units of the decoded string modulo 256 and whose sample rate field
    is 24000. *)
Theorem generateSpeech_returns_wav
    (env : Remote) (prompt base64Audio binaryString : jsstring)
    (response : GenerateContentResponse) :
  generateContent env
    (SpeechRequest (js "gemini-2.5-flash-preview-tts") prompt (js "Kore"))
  = Returns response ->
  firstInlineAudio response = Some base64Audio ->
  truthy base64Audio = true ->
  atob env base64Audio = Returns binaryString ->
  exists wav,
    generateSpeech env prompt = Returns (createObjectURL env wav)
    /\ blobType wav = js "audio/wav"
    /\ List.length (blobBytes wav) = 44 + List.length binaryString
    /\ skipn 44 (blobBytes wav)
       = List.map (fun c => (Z.of_N c mod 256)%Z) binaryString
    /\ readUint32LE (blobBytes wav) 24 = 24000%Z.
Proof.
  intros Hresp Haudio Htruthy Hatob.
  unfold generateSpeech, generateSpeech_try.
  rewrite Hresp. cbn [bind]. rewrite Haudio. cbn [truthy_slot templateText].
  rewrite Htruthy. cbn [negb]. unfold decode. rewrite Hatob. cbn [bind].
  set (bytes := List.map (fun c => (Z.of_N c mod 256)%Z) binaryString).
  destruct (WavFacts.pcmToWav_cases (Uint8Array_of bytes) 24000)
    as [[_ Heq]|[Hgt _]].
  - rewrite Heq. cbn [bind byteLength buffer Uint8Array_of].
    eexists. split; [reflexivity|]. cbn [blobType blobBytes].
    rewrite skipn_all2 by (rewrite repeat_length; lia).
    rewrite app_nil_r.
    assert (Hmod : List.map (fun b => (b mod 256)%Z) bytes = bytes).
    { unfold bytes. rewrite map_map. apply map_ext. intros c.
      apply Z.mod_mod. discriminate. }
    rewrite Hmod. split; [reflexivity|]. split; [|split].
    + rewrite length_app. unfold bytes. rewrite length_map. reflexivity.
    + change 44 with (List.length (wavHeader 24000 (List.length bytes))).
      rewrite skipn_app, skipn_all, Nat.sub_diag. reflexivity.
    + reflexivity.
  - exfalso. cbn [byteLength buffer Uint8Array_of] in Hgt. lia.
Qed.

Lemma generateSpeech_returns_wav_witness :
  exists wav,
    generateSpeech Scenario.service (js "Give a tip.")
    = Returns (createObjectURL Scenario.service wav)
    /\ List.length (blobBytes wav) = 48.
Proof.
  destruct (generateSpeech_returns_wav Scenario.service (js "Give a tip.")
              (js "QUJD") (js "QUJD") Scenario.imageResponse
              eq_refl eq_refl eq_refl eq_refl)
    as (wav & Hgen & _ & Hlen & _).
  exists wav. split; [exact Hgen | exact Hlen].
Defined.

(** X10.  When the answer to the speech request holds no audio, the error
    thrown inside [generateSpeech] says so, but the caller sees the generic
    audio failure message. *)
Theorem generateSpeech_hides_missing_audio
    (env : Remote) (prompt : jsstring) (response : GenerateContentResponse) :
  generateContent env
    (SpeechRequest (js "gemini-2.5-flash-preview-tts") prompt (js "Kore"))
  = Returns response ->
  truthy_slot (firstInlineAudio response) = false ->
  generateSpeech_try env prompt = Throws noAudioData
  /\ generateSpeech env prompt = Throws (ThrownError speechFailedMessage).
Proof.
  intros Hresp Hnone.
  assert (Htry : generateSpeech_try env prompt = Throws noAudioData).
  { unfold generateSpeech_try. rewrite Hresp. cbn [bind]. rewrite Hnone.
    reflexivity. }
  split; [exact Htry|]. unfold generateSpeech. rewrite Htry. reflexivity.
Qed.

Lemma generateSpeech_hides_missing_audio_witness :
  generateSpeech Scenario.textOnlyService (js "Give a tip.")
  = Throws (ThrownError speechFailedMessage).
Proof.
  apply (proj2 (generateSpeech_hides_missing_audio Scenario.textOnlyService
                  (js "Give a tip.") Scenario.textOnlyResponse
                  eq_refl eq_refl)).
Defined.

Lemma pollLoop_returns_done (polls : list (Outcome Operation)) :
  forall operation result,
    pollLoop polls operation = Some (Returns result) ->
    done result = true /\ (result = operation \/ In (Returns result) polls).
Proof.
  induction polls as [|answer polls IH]; intros operation result H;
    cbn [pollLoop] in H; destruct (done operation) eqn:Hdone.
  - injection H as <-. auto.
  - discriminate.
  - injection H as <-. auto.
  - destruct answer as [operation'|e]; [|discriminate].
    destruct (IH _ _ H) as [Hd [->|Hin]]; split; auto.
    + right. now left.
    + right. now right.
Qed.

(** X11.  The polling loop asks nothing when the operation is already done;
    a result it returns is done, and is the operation it started with or
    one of the answers; it is still waiting exactly when the operation and
    every answer so far are not done; and it ends with the first answer that
    is done or a failure, ignoring the answers after it. *)
Theorem pollLoop_stops_at_first_done :
  (forall polls operation,
     done operation = true ->
     pollLoop polls operation = Some (Returns operation))
  /\ (forall polls operation result,
        pollLoop polls operation = Some (Returns result) ->
        done result = true
        /\ (result = operation \/ In (Returns result) polls))
  /\ (forall polls operation,
        pollLoop polls operation = None
        <-> done operation = false /\ Forall stillRunning polls)
  /\ (forall waiting answer rest operation,
        done operation = false -> Forall stillRunning waiting ->
        ~ stillRunning answer ->
        pollLoop (waiting ++ answer :: rest) operation = Some answer).
Proof.
  split; [|split; [|split]].
  - intros polls operation Hdone. destruct polls; cbn [pollLoop];
      rewrite Hdone; reflexivity.
  - intros polls. apply pollLoop_returns_done.
  - induction polls as [|answer polls IH]; intros operation; cbn [pollLoop];
      destruct (done operation) eqn:Hdone.
    + split; [discriminate | intros [H _]; discriminate].
    + split; [intros _; split; [reflexivity|constructor] | reflexivity].
    + split; [discriminate | intros [H _]; discriminate].
    + destruct answer as [operation'|e].
      * rewrite IH. split.
        -- intros [Hd Hall]. split; [reflexivity|].
           constructor; [exists operation'; auto | exact Hall].
        -- intros [_ Hall]. inversion Hall as [|? ? (op & Heq & Hd) Hrest]; subst.
           injection Heq as <-. auto.
      * split; [discriminate|]. intros [_ Hall].
        inversion Hall as [|? ? (op & Heq & _) _]. discriminate.
  - induction waiting as [|w waiting IH];
      intros answer rest operation Hdone Hall Hanswer; cbn [app pollLoop];
      rewrite Hdone.
    + destruct answer as [operation'|e]; [|reflexivity].
      destruct (done operation') eqn:Hd.
      * destruct rest; cbn [pollLoop]; rewrite Hd; reflexivity.
      * elim Hanswer. exists operation'. auto.
    + inversion Hall as [|? ? (op & -> & Hd) Hrest]; subst.
      apply IH; assumption.
Qed.

Lemma pollLoop_stops_at_first_done_witness :
  pollLoop [Returns Scenario.pending; Returns Scenario.finished;
            Throws ThrownOther] Scenario.pending
  = Some (Returns Scenario.finished).
Proof.
  apply (proj2 (proj2 (proj2 pollLoop_stops_at_first_done))
           [Returns Scenario.pending] (Returns Scenario.finished)
           [Throws ThrownOther] Scenario.pending).
  - reflexivity.
  - constructor; [|constructor]. exists Scenario.pending. split; reflexivity.
  - intros (op & Heq & Hd). injection Heq as <-. discriminate Hd.
Defined.

(** X12.  [generateVideo] resolves only when every stage went through: the
    image decoded, the request for veo-3.1-fast-generate-preview at 720p
    with one video and the given aspect ratio accepted, the polling ended
    with an operation that is done and has a video URI, the download from
    that URI with the key appended answered ok, and the body read; the
    result is the object URL of that body, and the progress callback has
    then been called three times. *)
Theorem generateVideo_resolves_after_download
    {S : Type} (onProgress : jsstring -> S -> S) (env : Remote)
    (base64Image prompt url : jsstring) (aspectRatio : AspectRatio) (s s' : S) :
  generateVideo onProgress env base64Image prompt aspectRatio s
  = (s', Some (Returns url)) ->
  exists imagePart submitted operation response videoBlob,
    fileToGenerativePart base64Image = Returns imagePart
    /\ generateVideos env
         {| videoModel := js "veo-3.1-fast-generate-preview";
            videoPrompt := prompt;
            imageBytes := data imagePart;
            imageMimeType := mimeType imagePart;
            numberOfVideos := 1;
            resolution := js "720p";
            videoAspectRatio := aspectRatio |}
       = Returns submitted
    /\ pollLoop (getVideosOperation env) submitted = Some (Returns operation)
    /\ done operation = true
    /\ truthy_slot (videoUri operation) = true
    /\ fetch env (templateText (videoUri operation) ++ js "&key="
                  ++ templateText (apiKey env))
       = Returns response
    /\ ok response = true
    /\ blob response = Returns videoBlob
    /\ url = createObjectURL env videoBlob
    /\ s' = onProgress progressDownloading
              (onProgress progressInProgress
                 (onProgress progressInitiating s)).
Proof.
  unfold generateVideo, generateVideo_try.
  destruct (newGoogleGenAI env); [|discriminate].
  destruct (fileToGenerativePart base64Image) as [imagePart|]; [|discriminate].
  destruct (generateVideos env _) as [submitted|] eqn:Hsub; [|discriminate].
  destruct (pollLoop _ _) as [[operation|e]|] eqn:Hpoll; [|discriminate..].
  destruct (truthy_slot (videoUri operation)) eqn:Huri; [|discriminate].
  cbn [negb].
  destruct (fetch env _) as [response|e] eqn:Hfetch; [|discriminate].
  destruct (ok response) eqn:Hok; [|discriminate]. cbn [negb].
  destruct (blob response) as [videoBlob|] eqn:Hblob; [|discriminate].
  intros H. injection H as <- <-.
  exists imagePart, submitted, operation, response, videoBlob.
  repeat split; try assumption; try reflexivity.
  apply (pollLoop_returns_done _ _ _ Hpoll).
Qed.

Lemma generateVideo_resolves_after_download_witness :
  exists operation,
    pollLoop (getVideosOperation Scenario.service) Scenario.pending
    = Some (Returns operation)
    /\ done operation = true
    /\ createObjectURL Scenario.service
         {| blobBytes := [0; 0; 0; 24]%Z; blobType := js "video/mp4" |}
       = js "blob:1".
Proof.
  destruct (generateVideo_resolves_after_download
              (fun message log => log ++ [message]) Scenario.service
              Scenario.selfie (js "A gentle zoom in.") (js "blob:1")
              Landscape []
              [progressInitiating; progressInProgress; progressDownloading]
              eq_refl)
    as (imagePart & submitted & operation & response & videoBlob
        & _ & Hsub & Hpoll & Hdone & _).
  exists operation. split; [|split; [exact Hdone | reflexivity]].
  change (generateVideos Scenario.service _) with (Returns Scenario.pending)
    in Hsub.
  apply Returns_inj in Hsub. rewrite Hsub. exact Hpoll.
Defined.

End SynthesisFacts.

(** ** The controller: sessions, timers and invariants *)

Module ControllerFacts.

Import App Controller.

Local Open Scope nat_scope.

(** X13.  From any state, uploading an image, choosing a style and
    generating, with a service that answers the request, ends on the edit
    screen with the uploaded image, the result in the generated slot, no
    error, the loading flag off, and exactly one request issued, for that
    image and that style. *)
Theorem upload_style_generate_reaches_edit
    (oracle : Oracle) (st : State) (base64Image style result : jsstring) :
  truthy base64Image = true -> truthy style = true ->
  (forall s, oracle _ (GenerateImage base64Image style false) s
             = (s, Some (Returns result))) ->
  let run :=
    session [ (oracle, ImageUploaded base64Image);
              (oracle, StyleSelected style);
              (oracle, GenerateClicked) ] st [] in
  step (fst run) = EDIT
  /\ originalImage (fst run) = Some base64Image
  /\ generatedImage (fst run) = Some result
  /\ stylePrompt (fst run) = style
  /\ error (fst run) = None
  /\ isLoading (fst run) = false
  /\ snd run = [Issue (GenerateImage base64Image style false)].
Proof.
  intros Himg Hstyle Hor run. subst run.
  destruct base64Image as [|c0 image]; [discriminate|].
  destruct style as [|c1 style]; [discriminate|].
  destruct_state st.
  destruct step0; vm_compute; rewrite Hor; vm_compute; repeat split; reflexivity.
Qed.


Lemma upload_style_generate_reaches_edit_witness :
  step (fst (session [ (Scenario.world, ImageUploaded Scenario.selfie);
                       (Scenario.world, StyleSelected (js "A classic headshot."));
                       (Scenario.world, GenerateClicked) ]
               (initial true) []))
  = EDIT.
Proof.
  refine (proj1 (upload_style_generate_reaches_edit Scenario.world
                   (initial true) Scenario.selfie (js "A classic headshot.")
                   (js "data:image/png;base64,QUJD") eq_refl eq_refl _)).
  intros s. vm_compute. reflexivity.
Defined.

(** X14.  A generation, an edit or a voice guide that the service rejects
    leaves the screen and the generated image as they were, keeps the edit
    prompt, shows the rejection's message (a fallback for a thrown
    non-error), and switches its busy flag off again. *)
Theorem failed_synthesis_keeps_artifact (oracle : Oracle) (st : State)
    (err : Thrown) :
  (forall image,
     originalImage st = Some image -> truthy image = true ->
     truthy (stylePrompt st) = true ->
     (forall s, oracle _ (GenerateImage image (stylePrompt st) false) s
                = (s, Some (Throws err))) ->
     let r := exec oracle (handleGenerate st) st in
     step (final r) = step st
     /\ generatedImage (final r) = generatedImage st
     /\ error (final r)
        = Some (messageOr (js "An unknown error occurred.") err)
     /\ isLoading (final r) = false)
  /\ (forall old,
        generatedImage st = Some old -> truthy old = true ->
        truthy (editPrompt st) = true ->
        (forall s, oracle _ (GenerateImage old (editPrompt st) true) s
                   = (s, Some (Throws err))) ->
        let r := exec oracle (handleEdit st) st in
        step (final r) = step st
        /\ generatedImage (final r) = Some old
        /\ editPrompt (final r) = editPrompt st
        /\ error (final r)
           = Some (messageOr (js "An unknown error occurred.") err)
        /\ isLoading (final r) = false)
  /\ (truthy (stylePrompt st) = true ->
      (forall prompt s, oracle _ (GenerateSpeech prompt) s
                        = (s, Some (Throws err))) ->
      let r := exec oracle (handleGenerateVoiceGuide st) st in
      generatedAudioUrl (final r) = generatedAudioUrl st
      /\ generatedImage (final r) = generatedImage st
      /\ error (final r) = Some (messageOr (js "Failed to generate audio.") err)
      /\ isGeneratingAudio (final r) = false
      /\ isLoading (final r) = isLoading st).
Proof.
  destruct_state st. split; [|split].
  - intros image Himg Htr Hsp Hor r. subst r.
    cbn in Himg, Hsp, Hor. subst originalImage0.
    destruct image as [|c0 image]; [discriminate|].
    destruct stylePrompt0 as [|c1 style]; [discriminate|].
    unfold exec, handleGenerate. cbn [originalImage stylePrompt truthy negb orb execFrom].
    rewrite Hor. destruct err; repeat split; reflexivity.
  - intros old Himg Htr Hep Hor r. subst r.
    cbn in Himg, Hep, Hor. subst generatedImage0.
    destruct old as [|c0 image]; [discriminate|].
    destruct editPrompt0 as [|c1 prompt]; [discriminate|].
    unfold exec, handleEdit. cbn [generatedImage editPrompt truthy negb orb execFrom].
    rewrite Hor. destruct err; repeat split; reflexivity.
  - intros Hsp Hor r. subst r. cbn in Hsp.
    destruct stylePrompt0 as [|c1 style]; [discriminate|].
    unfold exec, handleGenerateVoiceGuide.
    cbn [stylePrompt truthy negb execFrom].
    rewrite Hor. destruct err; repeat split; reflexivity.
Qed.

Lemma failed_synthesis_keeps_artifact_witness :
  generatedImage
    (final (exec (hostOracle {| hasSelectedApiKey := Returns true;
                                openSelectKey := Returns tt;
                                remote := Scenario.textOnlyService |})
              (handleEdit Scenario.withVoiceGuide) Scenario.withVoiceGuide))
  = Some (js "data:image/png;base64,QUJD").
Proof.
  refine (proj1 (proj2 (proj1 (proj2
    (failed_synthesis_keeps_artifact
       (hostOracle {| hasSelectedApiKey := Returns true;
                      openSelectKey := Returns tt;
                      remote := Scenario.textOnlyService |})
       Scenario.withVoiceGuide
       (ThrownError Gemini.imageFailedMessage)))
    (js "data:image/png;base64,QUJD") _ _ _ _))).
  - vm_compute. reflexivity.
  - reflexivity.
  - vm_compute. reflexivity.
  - intros s. vm_compute. reflexivity.
Defined.

(** X15.  A video generation with an image and a prompt, where the host
    capability exists, runs in three pieces.  The first leaves the state as
    it is and asks the host for the key state: the loading flag is not set
    yet.  The second, when the host says a key is selected, on whatever the
    state then is, sets the loading flag and the first rotation message,
    starts a timer, puts its handle in the interval slot over whatever was
    there, and asks for the video.  The third, when that request settles,
    on whatever the state then is, ends with the loading flag off, the slot
    empty and the timer whose handle the slot then held cancelled, no other,
    with the video URL set and the error untouched or the error set and the
    video URL untouched, and asks nothing more. *)
Theorem animate_ends_loading_and_timer (st : State) (image : jsstring) :
  generatedImage st = Some image -> truthy image = true ->
  truthy (videoPrompt st) = true -> aistudio st = true ->
  exists k1,
    start (handleGenerateVideo st) st = (st, Waiting HasSelectedApiKey k1)
    /\ forall live : State,
         exists begun k2,
           start (k1 (Returns true)) live
           = (begun,
              Waiting (GenerateVideo image (videoPrompt st) (aspectRatio st)) k2)
           /\ isLoading begun = true
           /\ loadingMessage begun = videoLoadingMessage 0
           /\ loadingMessageIntervalRef begun = Some (nextIntervalId live)
           /\ intervals begun = (nextIntervalId live, 0) :: intervals live
           /\ forall (oracle : Oracle) (o : Outcome jsstring) (later : State),
                let r := exec oracle (k2 o) later in
                result r = Some tt
                /\ issued r = []
                /\ isLoading (final r) = false
                /\ loadingMessageIntervalRef (final r) = None
                /\ intervals (final r)
                   = match loadingMessageIntervalRef later with
                     | Some id =>
                         filter (fun t => negb (Pos.eqb (fst t) id))
                           (intervals later)
                     | None => intervals later
                     end
                /\ match o with
                   | Returns url =>
                       generatedVideoUrl (final r) = Some url
                       /\ error (final r) = error later
                   | Throws err =>
                       generatedVideoUrl (final r) = generatedVideoUrl later
                       /\ error (final r)
                          = Some (messageOr
                                    (js "An unknown error occurred while generating the video.")
                                    err)
                   end.
Proof.
  intros Himg Htr Hvp Hai. destruct_state st. cbn in Himg, Hvp, Hai.
  subst generatedImage0 aistudio0.
  destruct image as [|c0 image]; [discriminate|].
  destruct videoPrompt0 as [|c1 prompt]; [discriminate|].
  unfold handleGenerateVideo.
  cbn [generatedImage videoPrompt aspectRatio truthy negb orb andThen
       checkApiKey start aistudio].
  eexists. split; [reflexivity|].
  intros live. destruct live as [? ? ? ? ? ? ? ? ? ? ? ? ? ? ? ? ? ? ? ?].
  cbn [andThen negb start]. eexists. eexists. split; [reflexivity|].
  do 4 (split; [reflexivity|]).
  intros oracle o later.
  destruct later as [? ? ? ? ? ? ? ? ? ? ? ? ? ? ? [id|] ? ? ? ?];
    destruct o as [url|err]; repeat split; reflexivity.
Qed.

Lemma animate_ends_loading_and_timer_witness :
  exists k1 begun k2,
    start (handleGenerateVideo Scenario.readyToAnimate) Scenario.readyToAnimate
    = (Scenario.readyToAnimate, Waiting HasSelectedApiKey k1)
    /\ start (k1 (Returns true)) Scenario.readyToAnimate
       = (begun,
          Waiting (GenerateVideo (js "data:image/png;base64,QUJD")
                     (videoPrompt Scenario.readyToAnimate)
                     (aspectRatio Scenario.readyToAnimate)) k2)
    /\ intervals begun = [(1%positive, 0)]
    /\ intervals (final (exec Scenario.world (k2 (Returns (js "blob:1"))) begun))
       = [].
Proof.
  destruct (animate_ends_loading_and_timer Scenario.readyToAnimate
              (js "data:image/png;base64,QUJD")
              eq_refl eq_refl eq_refl eq_refl) as (k1 & Hstart & Hrest).
  destruct (Hrest Scenario.readyToAnimate)
    as (begun & k2 & Hbegin & _ & _ & Href & Hint & Hend).
  exists k1, begun, k2. split; [exact Hstart|]. split; [exact Hbegin|].
  split; [exact Hint|].
  destruct (Hend Scenario.world (Returns (js "blob:1")) begun)
    as (_ & _ & _ & _ & Hleft & _).
  rewrite Hleft, Href, Hint. cbn [filter fst].
  rewrite Pos.eqb_refl. reflexivity.
Defined.

Lemma execFrom_asksOnly {R} (P : Issued -> bool) (oracle : Oracle)
    (p : Proc R) :
  asksOnly P p ->
  forall st trace,
    forallb P trace = true ->
    forallb P (issued (execFrom oracle p st trace)) = true.
Proof.
  induction 1 as [r|f next _ IH|k _ IH|A req k Hreq _ IH]; intros st trace Ht;
    cbn [execFrom].
  - exact Ht.
  - now apply IH.
  - now apply IH.
  - assert (Ht' : forallb P (trace ++ [Issue req]) = true).
    { rewrite forallb_app, Ht. cbn [forallb]. rewrite Hreq. reflexivity. }
    destruct (oracle A req st) as [st' [o|]].
    + now apply IH.
    + exact Ht'.
Qed.

Lemma asksOnly_andThen {R T} (P : Issued -> bool) (p : Proc R)
    (q : R -> Proc T) :
  asksOnly P p -> (forall r, asksOnly P (q r)) -> asksOnly P (andThen p q).
Proof.
  intros Hp Hq. induction Hp; cbn [andThen]; try constructor; auto.
Qed.

Lemma handler_carriesInputs (ev : Event) (snap : State) :
  asksOnly carriesInputs (handler ev snap).
Proof.
  destruct ev; cbn [handler];
    try (unfold handleImageUpload, handleReset, clearLoadingMessageInterval;
         asks; fail).
  - unfold handleGenerate.
    destruct (originalImage snap) as [image|]; [|asks].
    destruct (truthy image) eqn:Hi, (truthy (stylePrompt snap)) eqn:Hp;
      cbn [negb orb]; asks.
    cbn [carriesInputs]. rewrite Hi, Hp. reflexivity.
  - unfold handleEdit.
    destruct (generatedImage snap) as [image|]; [|asks].
    destruct (truthy image) eqn:Hi, (truthy (editPrompt snap)) eqn:Hp;
      cbn [negb orb]; asks.
    cbn [carriesInputs]. rewrite Hi, Hp. reflexivity.
  - unfold handleGenerateVoiceGuide.
    destruct (truthy (stylePrompt snap)); cbn [negb]; asks.
  - unfold handleGenerateVideo.
    destruct (generatedImage snap) as [image|]; [|asks].
    destruct (truthy image) eqn:Hi, (truthy (videoPrompt snap)) eqn:Hp;
      cbn [negb orb]; try (asks; fail).
    assert (Hv : carriesInputs
                   (Issue (GenerateVideo image (videoPrompt snap)
                             (aspectRatio snap))) = true)
      by (cbn [carriesInputs]; rewrite Hi, Hp; reflexivity).
    apply asksOnly_andThen.
    + unfold checkApiKey. asks.
    + unfold clearLoadingMessageInterval. intros [[|]|e]; cbn [negb]; asks;
        exact Hv.
Qed.

Lemma dispatch_carriesInputs (oracle : Oracle) (ev : Event) (st : State) :
  forallb carriesInputs (issued (dispatch oracle ev st)) = true.
Proof.
  unfold dispatch.
  assert (H : forallb carriesInputs (issued (exec oracle (handler ev st) st))
              = true)
    by (apply execFrom_asksOnly; [apply handler_carriesInputs | reflexivity]).
  destruct (AppStep_eqb _ _); [exact H|].
  apply execFrom_asksOnly; [|exact H].
  unfold stepEffect. destruct (AppStep_eqb _ _); [|constructor].
  apply asksOnly_andThen; [unfold checkApiKey; asks | intros; constructor].
Qed.

(** X16.  In every session, whatever the events, the states and the
    answers, every image and video request that is issued carries a
    non-empty image and a non-empty prompt, and every speech request a
    non-empty prompt. *)
Theorem requests_carry_their_inputs (evs : list (Oracle * Event)) (st : State) :
  forallb carriesInputs (snd (session evs st [])) = true.
Proof.
  enough (H : forall trace, forallb carriesInputs trace = true ->
                 forallb carriesInputs (snd (session evs st trace)) = true)
    by (apply H; reflexivity).
  revert st. induction evs as [|[oracle ev] evs IH]; intros st trace Ht;
    cbn [session snd]; [exact Ht|].
  apply IH. rewrite forallb_app, Ht. apply dispatch_carriesInputs.
Qed.

(** X17.  What a video generation asks, in order: the host for the key
    state, then the video; when the host says no key is selected, the
    selection dialog in between, after which the flag is set and the video
    requested without asking the host again; when the host or the dialog
    rejects, nothing more, and the rejection's message is shown; without
    the host capability nothing is asked at all and an error is shown. *)
Theorem animate_request_order (host : Host) (st : State) (image : jsstring) :
  generatedImage st = Some image -> truthy image = true ->
  truthy (videoPrompt st) = true ->
  let video := Issue (GenerateVideo image (videoPrompt st) (aspectRatio st)) in
  let fallback := js "An unknown error occurred while generating the video." in
  let r := exec (hostOracle host) (handleGenerateVideo st) st in
  if aistudio st then
    match hasSelectedApiKey host with
    | Returns true =>
        issued r = [Issue HasSelectedApiKey; video]
        /\ isKeySelected (final r) = true
    | Returns false =>
        match openSelectKey host with
        | Returns _ =>
            issued r = [Issue HasSelectedApiKey; Issue OpenSelectKey; video]
            /\ isKeySelected (final r) = true
        | Throws err =>
            issued r = [Issue HasSelectedApiKey; Issue OpenSelectKey]
            /\ isKeySelected (final r) = false
            /\ error (final r) = Some (messageOr fallback err)
        end
    | Throws err =>
        issued r = [Issue HasSelectedApiKey]
        /\ isKeySelected (final r) = isKeySelected st
        /\ error (final r) = Some (messageOr fallback err)
    end
  else
    issued r = []
    /\ isKeySelected (final r) = isKeySelected st
    /\ exists message, error (final r) = Some message.
Proof.
  intros Himg Htr Hvp. destruct_state st. cbn in Himg, Hvp.
  subst generatedImage0.
  destruct image as [|c0 image]; [discriminate|].
  destruct videoPrompt0 as [|c1 prompt]; [discriminate|].
  cbn [aistudio videoPrompt aspectRatio isKeySelected].
  unfold exec, handleGenerateVideo.
  cbn [generatedImage videoPrompt truthy negb orb andThen checkApiKey execFrom
       aistudio aspectRatio].
  destruct aistudio0.
  - cbn [execFrom hostOracle andThen].
    destruct (hasSelectedApiKey host) as [[|]|e].
    + cbn [andThen negb execFrom clearLoadingMessageInterval
           nextIntervalId setIsKeySelected setIsLoading setLoadingMessage
           hostOracle].
      match goal with
      | |- context [Gemini.generateVideo onProgress ?env ?i ?p ?r ?s] =>
          destruct (AppFacts.generateVideo_state env i p r s) as (lines & o & E);
          rewrite E
      end.
      destruct o as [[url|e]|]; cbn; split; reflexivity.
    + cbn [andThen negb execFrom aistudio setIsKeySelected hostOracle].
      destruct (openSelectKey host) as [[]|e].
      * cbn [andThen negb execFrom clearLoadingMessageInterval
             nextIntervalId setIsKeySelected setIsLoading setLoadingMessage
             hostOracle].
        match goal with
        | |- context [Gemini.generateVideo onProgress ?env ?i ?p ?r ?s] =>
            destruct (AppFacts.generateVideo_state env i p r s) as (lines & o & E);
            rewrite E
        end.
        destruct o as [[url|e]|]; cbn; split; reflexivity.
      * destruct ref0; cbn; repeat split; reflexivity.
    + destruct ref0; cbn; repeat split; reflexivity.
  - destruct ref0; cbn; repeat split; try reflexivity; eexists; reflexivity.
Qed.

Lemma animate_request_order_witness :
  issued (exec Scenario.world (handleGenerateVideo Scenario.readyToAnimate)
            Scenario.readyToAnimate)
  = [Issue HasSelectedApiKey;
     Issue (GenerateVideo (js "data:image/png;base64,QUJD")
              (videoPrompt Scenario.readyToAnimate)
              (aspectRatio Scenario.readyToAnimate))].
Proof.
  exact (proj1 (animate_request_order Scenario.studio Scenario.readyToAnimate
                  (js "data:image/png;base64,QUJD")
                  eq_refl eq_refl eq_refl)).
Defined.

Lemma tick_head (st : State) (id : positive) (n : nat) rest :
  intervals st = (id, n) :: rest ->
  exists rest',
    intervals (tick id st)
    = (id, (n + 1) mod List.length VIDEO_LOADING_MESSAGES) :: rest'
    /\ loadingMessage (tick id st)
       = videoLoadingMessage ((n + 1) mod List.length VIDEO_LOADING_MESSAGES)
    /\ isLoading (tick id st) = isLoading st
    /\ loadingMessageIntervalRef (tick id st) = loadingMessageIntervalRef st.
Proof.
  intros Hint. destruct_state st. cbn [intervals] in Hint. subst intervals0.
  unfold tick. cbn [intervals find fst]. rewrite Pos.eqb_refl.
  cbn [List.map fst intervals setIntervals setLoadingMessage loadingMessage
       isLoading loadingMessageIntervalRef].
  rewrite Pos.eqb_refl. eexists. repeat split; reflexivity.
Qed.

(** X18.  The rotation timer shows the catalogue's messages in order and
    wraps around: after k + 1 ticks of a timer that was at index n, the
    message is the one at index (n + k + 1) modulo the number of messages,
    always one of the catalogue, and the ticks touch neither the loading
    flag nor the interval slot. *)
Theorem tick_rotates_messages (st : State) (id : positive) (n : nat)
    (rest : list (positive * nat)) (k : nat) :
  intervals st = (id, n) :: rest ->
  let period := List.length VIDEO_LOADING_MESSAGES in
  let st' := Nat.iter (S k) (tick id) st in
  loadingMessage st' = videoLoadingMessage ((n + S k) mod period)
  /\ In (loadingMessage st') VIDEO_LOADING_MESSAGES
  /\ isLoading st' = isLoading st
  /\ loadingMessageIntervalRef st' = loadingMessageIntervalRef st.
Proof.
  intros Hint period st'.
  assert (H : exists rest',
            intervals st' = (id, (n + S k) mod period) :: rest'
            /\ loadingMessage st' = videoLoadingMessage ((n + S k) mod period)
            /\ isLoading st' = isLoading st
            /\ loadingMessageIntervalRef st' = loadingMessageIntervalRef st).
  { subst st'. induction k as [|k IH].
    - cbn [Nat.iter]. apply (tick_head st id n rest Hint).
    - destruct IH as (rest' & Hint' & _ & Hload & Href).
      change (Nat.iter (S (S k)) (tick id) st)
        with (tick id (Nat.iter (S k) (tick id) st)).
      destruct (tick_head _ id _ rest' Hint') as (rest'' & H1 & H2 & H3 & H4).
      assert (E : ((n + S k) mod period + 1) mod period
                  = (n + S (S k)) mod period).
      { rewrite Nat.Div0.add_mod_idemp_l. f_equal. lia. }
      fold period in H1, H2. rewrite E in H1, H2.
      exists rest''. repeat split; congruence. }
  destruct H as (rest' & _ & Hmsg & Hload & Href).
  repeat split; try assumption.
  rewrite Hmsg. apply nth_In. apply Nat.mod_upper_bound. discriminate.
Qed.

Lemma tick_rotates_messages_witness :
  loadingMessage (Nat.iter 8 (tick 1%positive) Scenario.midVideo)
  = js "Setting up the virtual cameras...".
Proof.
  exact (proj1 (tick_rotates_messages Scenario.midVideo 1%positive 0 [] 7
                  eq_refl)).
Defined.


Lemma generateImage_truthy env base64Image prompt isEdit url :
  Gemini.generateImage env base64Image prompt isEdit = Returns url ->
  truthy url = true.
Proof.
  unfold Gemini.generateImage, Gemini.generateImage_try.
  destruct (DataUrl.fileToGenerativePart base64Image) as [imagePart|];
    [|discriminate].
  cbn [bind]. destruct (Gemini.generateContent env _) as [response|];
    [|discriminate].
  cbn [bind]. destruct (Gemini.firstCandidateParts response) as [ps|];
    [|discriminate].
  cbn [bind]. induction ps as [|p ps IH]; cbn [Gemini.firstInlineImage].
  - discriminate.
  - destruct (Gemini.inlineData p); [|exact IH].
    intros H. apply Returns_inj in H. subst url. reflexivity.
Qed.

Lemma answered_image base64Image prompt isEdit url :
  answered (GenerateImage base64Image prompt isEdit) (Returns url) ->
  truthy url = true.
Proof.
  intros (host & st & H). cbn [hostOracle snd] in H.
  injection H as H. now apply generateImage_truthy in H.
Qed.

Lemma stepEffect_keeps present st :
  sound present st -> keepsSound present st (stepEffect st).
Proof.
  intros Hs. unfold stepEffect.
  destruct (AppStep_eqb (step st) VIDEO); [|now constructor].
  unfold checkApiKey. cbn [andThen]. apply keeps_Read.
  destruct (aistudio st) eqn:Hai; cbn [andThen].
  - apply keeps_Await; [exact Hs|]. intros [hasKey|e] st' _ Hs'; cbn [andThen].
    + apply keeps_Upd, keeps_Ret.
      assert (present = true) by (destruct Hs; congruence).
      clear Hs Hai. sound_tac.
    + now apply keeps_Ret.
  - now apply keeps_Ret.
Qed.

Lemma handler_keeps present ev st :
  sound present st -> enabled ev st = true ->
  keepsSound present st (handler ev st).
Proof.
  intros Hs Hen. destruct ev; cbn [handler].
  - (* ImageUploaded *)
    unfold handleImageUpload. keeps_tac. clear Hen. sound_tac.
  - keeps_tac. clear Hen. sound_tac.
  - (* GenerateClicked *)
    unfold handleGenerate.
    destruct (originalImage st) as [image|]; [|now constructor].
    destruct (negb (truthy image) || negb (truthy (stylePrompt st)));
      [now constructor|].
    do 3 apply keeps_Upd. apply keeps_Await; [clear Hen; sound_tac|].
    intros [result|err] st' Hans Hs'.
    + apply answered_image in Hans. keeps_tac.
      clear Hen Hs. unfold sound, artifactShown in *.
      destruct st' as [[] ? ? ? ? ? ? ? ? ? ? ? ? ? ? ? ? ? ? ?];
        cbn in *; intuition.
    + keeps_tac. clear Hen Hs. sound_tac.
  - keeps_tac. clear Hen. sound_tac.
  - (* ApplyEditClicked *)
    unfold handleEdit.
    destruct (generatedImage st) as [image|] eqn:Himg; [|now constructor].
    destruct (negb (truthy image) || negb (truthy (editPrompt st)));
      [now constructor|].
    do 4 apply keeps_Upd. apply keeps_Await; [clear Hen; sound_tac|].
    intros [result|err] st' Hans Hs'.
    + apply answered_image in Hans. keeps_tac.
      clear Hen Hs Himg. unfold sound, artifactShown in *.
      destruct st' as [[] ? ? ? ? ? ? ? ? ? ? ? ? ? ? ? ? ? ? ?];
        cbn in *; intuition.
    + keeps_tac. clear Hen Hs Himg. sound_tac.
  - (* VoiceGuideClicked *)
    unfold handleGenerateVoiceGuide.
    destruct (negb (truthy (stylePrompt st))); [now constructor|].
    cbv zeta. do 2 apply keeps_Upd. apply keeps_Await; [clear Hen; sound_tac|].
    intros [url|err] st' _ Hs'; keeps_tac; clear Hen Hs; sound_tac.
  - (* AnimateClicked *)
    keeps_tac. unfold sound, artifactShown in *.
    destruct st as [[] ? ? ? ? ? ? ? ? ? ? ? ? ? ? ? ? ? ? ?];
      cbn in *; try discriminate; intuition.
  - keeps_tac. clear Hen. sound_tac.
  - keeps_tac. clear Hen. sound_tac.
  - (* SelectKeyClicked *)
    apply keeps_Read. destruct (aistudio st) eqn:Hai; [|now constructor].
    apply keeps_Await; [exact Hs|].
    assert (present = true) by (destruct Hs; congruence).
    intros [[]|err] st' _ Hs'; keeps_tac; [|exact Hs'].
    clear Hen Hs Hai. sound_tac.
  - (* GenerateVideoClicked *)
    unfold handleGenerateVideo.
    destruct (generatedImage st) as [image|] eqn:Himg; [|now constructor].
    destruct (negb (truthy image) || negb (truthy (videoPrompt st)));
      [now constructor|].
    cbv zeta. unfold checkApiKey, clearLoadingMessageInterval.
    cbn [andThen]. apply keeps_Read.
    destruct (aistudio st) eqn:Hai; cbn [andThen negb].
    + assert (Hp : present = true) by (destruct Hs; congruence).
      clear Hen Himg Hai.
      repeat first
        [ apply keeps_Ret
        | apply keeps_Upd
        | apply keeps_Read
        | apply keeps_Await; [| intros [?|?] ? _ ?]
        | progress cbn [andThen negb]
        | match goal with
          | |- keepsSound _ _ (if ?b then _ else _) => destruct b eqn:?
          | |- keepsSound _ _ (match ?x with Some _ => _ | None => _ end) =>
              destruct x eqn:?
          end ];
        sound_tac.
    + apply keeps_Read. rewrite Hai. clear Hen Himg Hai.
      repeat first
        [ apply keeps_Ret
        | apply keeps_Upd
        | apply keeps_Read
        | match goal with
          | |- keepsSound _ _ (match ?x with Some _ => _ | None => _ end) =>
              destruct x eqn:?
          end ];
        sound_tac.
  - (* BackToEditingClicked *)
    keeps_tac. unfold sound, artifactShown in *.
    destruct st as [[] ? ? ? ? ? ? ? ? ? ? ? ? ? ? ? ? ? ? ?];
      cbn in *; try discriminate; intuition.
  - (* StartOverClicked *)
    unfold handleReset, clearLoadingMessageInterval. keeps_tac.
    match goal with
    | |- context [match ?x with Some _ => _ | None => _ end] => destruct x
    end; keeps_tac; clear Hen; sound_tac.
  - keeps_tac. clear Hen. sound_tac.
  - keeps_tac. clear Hen. sound_tac.
Qed.

Lemma start_keeps present p st :
  keepsSound present st p ->
  sound present (fst (start p st))
  /\ poolSound present (pendingOf (snd (start p st))).
Proof.
  induction 1 as [st r Hs|st f next _ IH|st k _ IH|st A req k Hs Hk _];
    cbn [start fst snd pendingOf]; try exact IH.
  - split; [exact Hs | intros p []].
  - split; [exact Hs|]. intros p [<-|[]]. exact Hk.
Qed.

Lemma poolSound_app present ps qs :
  poolSound present ps -> poolSound present qs -> poolSound present (ps ++ qs).
Proof.
  intros Hp Hq p Hin.
  apply in_app_or in Hin as [Hin|Hin]; [now apply Hp | now apply Hq].
Qed.

Lemma removeAt_In {A} (x : A) : forall i l, In x (removeAt i l) -> In x l.
Proof.
  intros i l. revert i. induction l as [|y l IH]; intros [|i]; cbn [removeAt In];
    auto.
  intros [->|Hin]; eauto.
Qed.

Lemma advance_sound present p before rest :
  keepsSound present before p -> poolSound present rest ->
  sound present (now (advance p before rest))
  /\ poolSound present (awaiting (advance p before rest)).
Proof.
  intros Hp Hrest. unfold advance.
  destruct (start_keeps present p before Hp) as [Hs1 Hb1].
  destruct (start p before) as [st1 b1]. cbn [fst snd] in Hs1, Hb1.
  destruct (AppStep_eqb (step st1) (step before)); cbn [now awaiting].
  - split; [exact Hs1 | now apply poolSound_app].
  - destruct (start_keeps present _ st1 (stepEffect_keeps present st1 Hs1))
      as [Hs2 Hb2].
    destruct (start (stepEffect st1) st1) as [st2 b2]. cbn [fst snd] in Hs2, Hb2.
    cbn [now awaiting]. split; [exact Hs2|].
    apply poolSound_app; [exact Hrest | now apply poolSound_app].
Qed.

Lemma hostOracle_sound present host {A} (req : Request A) st :
  sound present st -> sound present (fst (hostOracle host A req st)).
Proof.
  intros Hs.
  destruct req as [| | | |image motion ratio]; cbn [hostOracle fst];
    try exact Hs.
  destruct (AppFacts.generateVideo_state (remote host) image motion ratio st)
    as (lines & o & ->).
  cbn [fst]. clear o. sound_tac.
Qed.

Lemma tick_sound present id st : sound present st -> sound present (tick id st).
Proof.
  intros Hs. unfold tick.
  destruct (find _ (intervals st)) as [[id' n]|]; [|exact Hs].
  sound_tac.
Qed.

(** Between two renders the state is sound and so is all that waits. *)
Lemma running_sound l :
  running l ->
  exists present,
    sound present (now l) /\ poolSound present (awaiting l).
Proof.
  induction 1 as [present|l ev _ (present & Hs & Hpool) Hen
                  |l host i _ (present & Hs & Hpool)
                  |l id _ (present & Hs & Hpool)].
  - exists present. split; [repeat split; discriminate | intros p []].
  - exists present. apply advance_sound; [now apply handler_keeps | exact Hpool].
  - exists present. unfold answer.
    destruct (nth_error (awaiting l) i) as [[A req k]|] eqn:Hnth; [|now split].
    pose proof (hostOracle_sound present host req (now l) Hs) as Hs'.
    destruct (hostOracle host A req (now l)) as [st' [o|]] eqn:Hanswer;
      [|now split].
    cbn [fst] in Hs'. apply advance_sound.
    + apply (Hpool _ (nth_error_In _ _ Hnth)); [|exact Hs'].
      exists host, (now l). rewrite Hanswer. reflexivity.
    + intros p Hin. apply Hpool. eapply removeAt_In. exact Hin.
  - exists present. split; [now apply tick_sound | exact Hpool].
Qed.

(** X19.  Whatever the order in which events and answers arrive, events
    during an await and answers landing on a state that has changed since
    included, the edit and video screens always have a non-empty generated
    image to show, and the key-selected flag is set only where the host
    capability exists.  So an enabled Apply Edit gets as far as the edit
    request for that image, and an enabled Generate Video as far as asking
    the host for the key state: the guards of the two handlers never make
    the enabled button a silent no-op. *)
Theorem enabled_controls_act (l : Live) :
  running l ->
  artifactShown (now l) = true
  /\ keyFromHost (now l) = true
  /\ (enabled ApplyEditClicked (now l) = true ->
      exists image st1 k,
        generatedImage (now l) = Some image
        /\ start (handleEdit (now l)) (now l)
           = (st1, Waiting (GenerateImage image (editPrompt (now l)) true) k))
  /\ (enabled GenerateVideoClicked (now l) = true ->
      exists k,
        start (handleGenerateVideo (now l)) (now l)
        = (now l, Waiting HasSelectedApiKey k)).
Proof.
  intros Hrun. destruct (running_sound l Hrun) as (present & Hs & _).
  destruct Hs as (Hai & Hart & Hkey). generalize dependent (now l).
  intros st Hai Hart Hkey. destruct_state st.
  unfold artifactShown, keyFromHost in *. cbn in Hai, Hart, Hkey |- *.
  subst aistudio0.
  split; [exact Hart|]. split; [|split].
  - destruct isKeySelected0; [rewrite Hkey|]; reflexivity.
  - intros Hen. destruct step0; try discriminate Hen.
    destruct generatedImage0 as [[|c0 image]|]; try discriminate Hart.
    destruct editPrompt0 as [|c1 prompt]; [discriminate|].
    eexists. eexists. eexists. split; reflexivity.
  - intros Hen. destruct step0; try discriminate Hen.
    destruct generatedImage0 as [[|c0 image]|]; try discriminate Hart.
    destruct videoPrompt0 as [|c1 prompt];
      [rewrite andb_false_r in Hen; discriminate Hen|].
    destruct isKeySelected0;
      [|rewrite andb_false_r in Hen; discriminate Hen].
    rewrite (Hkey eq_refl). eexists. reflexivity.
Qed.

Lemma editing_running : running Scenario.editing.
Proof.
  unfold Scenario.editing.
  repeat first [ apply run_answer | apply run_press; [|vm_compute; reflexivity] ].
  apply run_mount.
Defined.

Lemma enabled_controls_act_witness :
  exists image st1 k,
    generatedImage (now Scenario.editing) = Some image
    /\ start (handleEdit (now Scenario.editing)) (now Scenario.editing)
       = (st1, Waiting (GenerateImage image (editPrompt (now Scenario.editing)) true) k).
Proof.
  apply (proj1 (proj2 (proj2 (enabled_controls_act Scenario.editing editing_running)))).
  vm_compute. reflexivity.
Defined.

(** X20.  Starting over while a voice guide is being generated neither
    cancels it nor clears its busy flag; when the answer arrives it lands in
    the reset state: the upload screen, with the audio URL attached or the
    failure message shown. *)
Theorem reset_keeps_pending_voice_guide (host : Host) (st : State)
    (o : Outcome jsstring) :
  truthy (stylePrompt st) = true ->
  exists st1 k,
    start (handleGenerateVoiceGuide st) st
    = (st1, Waiting (GenerateSpeech (voiceGuidePrompt (styleNameOf (stylePrompt st)))) k)
    /\ isGeneratingAudio st1 = true
    /\ let cleared := final (dispatch (hostOracle host) StartOverClicked st1) in
       step cleared = UPLOAD
       /\ isGeneratingAudio cleared = true
       /\ generatedAudioUrl cleared = None
       /\ let late := final (exec (hostOracle host) (k o) cleared) in
          step late = UPLOAD
          /\ generatedImage late = None
          /\ isGeneratingAudio late = false
          /\ match o with
             | Returns audioUrl =>
                 generatedAudioUrl late = Some audioUrl /\ error late = None
             | Throws err =>
                 generatedAudioUrl late = None
                 /\ error late
                    = Some (messageOr (js "Failed to generate audio.") err)
             end.
Proof.
  intros Hsp. destruct_state st. cbn in Hsp.
  destruct stylePrompt0 as [|c1 style]; [discriminate|].
  unfold handleGenerateVoiceGuide.
  cbn [stylePrompt truthy negb start]. eexists. eexists.
  split; [reflexivity|]. split; [reflexivity|].
  destruct ref0, step0, o as [url|[message|]]; repeat split; reflexivity.
Qed.

Lemma reset_keeps_pending_voice_guide_witness :
  exists st1 k,
    start (handleGenerateVoiceGuide Scenario.withVoiceGuide)
      Scenario.withVoiceGuide
    = (st1, Waiting (GenerateSpeech (voiceGuidePrompt (js "this"))) k)
    /\ generatedAudioUrl
         (final (exec Scenario.world (k (Returns (js "blob:2")))
                   (final (dispatch Scenario.world StartOverClicked st1))))
       = Some (js "blob:2").
Proof.
  destruct (reset_keeps_pending_voice_guide Scenario.studio
              Scenario.withVoiceGuide (Returns (js "blob:2")) eq_refl)
    as (st1 & k & Hstart & _ & H).
  cbv zeta in H. destruct H as (_ & _ & _ & _ & _ & _ & Haudio & _).
  exists st1, k. split; [exact Hstart | exact Haudio].
Defined.

Lemma jsstring_eqb_eq (a b : jsstring) : jsstring_eqb a b = true <-> a = b.
Proof.
  revert b. induction a as [|x a IH]; intros [|y b]; cbn [jsstring_eqb];
    try (split; [discriminate | congruence]); [tauto|].
  rewrite andb_true_iff, N.eqb_eq, IH. split; [intros [-> ->] | intros H];
    [reflexivity | injection H; auto].
Qed.

(** X21.  The voice guide asks for the style that is selected by its
    catalogue name: for every style of the catalogue the one speech request
    quotes that style's name, and for a prompt that is in no catalogue entry
    it says 'this'. *)
Theorem voice_guide_names_selected_style (host : Host) (st : State) :
  (forall s, In s HEADSHOT_STYLES -> stylePrompt st = prompt s ->
     issued (exec (hostOracle host) (handleGenerateVoiceGuide st) st)
     = [Issue (GenerateSpeech (voiceGuidePrompt (name s)))])
  /\ (truthy (stylePrompt st) = true ->
      (forall s, In s HEADSHOT_STYLES -> stylePrompt st <> prompt s) ->
      issued (exec (hostOracle host) (handleGenerateVoiceGuide st) st)
      = [Issue (GenerateSpeech (voiceGuidePrompt (js "this")))]).
Proof.
  assert (Hrun : forall p, truthy p = true -> stylePrompt st = p ->
            issued (exec (hostOracle host) (handleGenerateVoiceGuide st) st)
            = [Issue (GenerateSpeech (voiceGuidePrompt (styleNameOf p)))]).
  { intros p Hp Hsp. destruct_state st. cbn [stylePrompt] in Hsp.
    subst stylePrompt0. destruct p as [|c p]; [discriminate|].
    unfold exec, handleGenerateVoiceGuide.
    cbn [stylePrompt truthy negb execFrom hostOracle].
    destruct (Gemini.generateSpeech _ _); reflexivity. }
  split.
  - intros s Hin Hsp. rewrite (Hrun (prompt s)); [| |exact Hsp].
    + do 3 f_equal.
      cbn [In HEADSHOT_STYLES] in Hin.
      repeat (destruct Hin as [<-|Hin]; [vm_compute; reflexivity|]).
      destruct Hin.
    + cbn [In HEADSHOT_STYLES] in Hin.
      repeat (destruct Hin as [<-|Hin]; [reflexivity|]). destruct Hin.
  - intros Htr Hnot. rewrite (Hrun (stylePrompt st) Htr eq_refl).
    do 3 f_equal. unfold styleNameOf.
    destruct (find _ HEADSHOT_STYLES) as [s|] eqn:Hfind; [|reflexivity].
    apply find_some in Hfind as [Hin Heq].
    apply jsstring_eqb_eq in Heq. elim (Hnot s Hin). congruence.
Qed.

Lemma voice_guide_names_selected_style_witness :
  let style := nth 3 HEADSHOT_STYLES {| name := []; prompt := [] |} in
  let st := setStylePrompt (prompt style) (initial true) in
  issued (exec Scenario.world (handleGenerateVoiceGuide st) st)
  = [Issue (GenerateSpeech (voiceGuidePrompt (js "Black & White")))].
Proof.
  intros style st.
  apply (proj1 (voice_guide_names_selected_style Scenario.studio st) style).
  - cbn [In HEADSHOT_STYLES]. do 3 right. left. reflexivity.
  - reflexivity.
Defined.

End ControllerFacts.

(** ** The chat panel *)

Module ChatbotFacts.

Import Chatbot.

Local Open Scope nat_scope.

Lemma trimStart_nil (s : jsstring) :
  trimStart s = [] <-> forallb isWhiteSpace s = true.
Proof.
  induction s as [|c s IH]; cbn [trimStart forallb]; [tauto|].
  destruct (isWhiteSpace c); cbn [andb]; [exact IH|].
  split; discriminate.
Qed.

Lemma trim_empty (s : jsstring) :
  truthy (trim s) = false <-> forallb isWhiteSpace s = true.
Proof.
  unfold trim. split.
  - intros H. apply trimStart_nil.
    destruct (trimStart s) as [|c t] eqn:E; [reflexivity|].
    exfalso.
    assert (Hlast : exists t' c', rev (c :: t) = t' ++ [c']
                                  /\ isWhiteSpace c' = false).
    { exists (rev t), c. split; [reflexivity|].
      destruct s as [|c0 s0]; [discriminate|]. revert E.
      clear. revert c0. induction s0 as [|c1 s0 IH]; intros c0; cbn [trimStart].
      - destruct (isWhiteSpace c0) eqn:Ew; [discriminate|].
        intros E. injection E as <- <-. exact Ew.
      - destruct (isWhiteSpace c0) eqn:Ew.
        + apply IH.
        + intros E. injection E as <- <-. exact Ew. }
    destruct Hlast as (t' & c' & Hrev & Hc'). rewrite Hrev in H.
    assert (Hne : trimStart (t' ++ [c']) <> []).
    { clear -Hc'. induction t' as [|x t' IH]; cbn [app trimStart].
      - rewrite Hc'. discriminate.
      - destruct (isWhiteSpace x); [exact IH | discriminate]. }
    destruct (trimStart (t' ++ [c'])) as [|y ys] eqn:E2; [now elim Hne|].
    cbn [rev] in H. destruct (rev ys); discriminate.
  - intros H. apply trimStart_nil in H. rewrite H. reflexivity.
Qed.

(** X22.  A chat input made of white space only is not sent, nor is
    anything sent while a reply is awaited or before the session exists,
    and the state is then unchanged; otherwise the input is sent as typed,
    untrimmed, appended to the transcript as the user's message, the input
    box is emptied and the panel waits. *)
Theorem blank_input_is_not_sent (snap st : State) :
  (forallb isWhiteSpace (userInput snap) = true
   \/ isLoading snap = true \/ chatRef st = None ->
   handleSendMessage snap st = (st, None))
  /\ (forall chat,
        forallb isWhiteSpace (userInput snap) = false ->
        isLoading snap = false -> chatRef st = Some chat ->
        handleSendMessage snap st
        = ({| messages := messages st
                          ++ [{| role := user; text := Some (userInput snap) |}];
              userInput := [];
              isLoading := true;
              chatRef := Some chat |},
           Some (chat, userInput snap))).
Proof.
  split.
  - intros [H|[H|H]]; unfold handleSendMessage.
    + apply trim_empty in H. rewrite H. reflexivity.
    + rewrite H, orb_true_r. reflexivity.
    + rewrite H, orb_true_r. reflexivity.
  - intros chat Hblank Hload Hst. unfold handleSendMessage.
    destruct (truthy (trim (userInput snap))) eqn:Htrim.
    + rewrite Hload, Hst. cbn [negb orb].
      destruct st as [ms input loading ref]. cbn in Hst. subst ref.
      reflexivity.
    + apply trim_empty in Htrim. congruence.
Qed.

Lemma blank_input_is_not_sent_witness :
  handleSendMessage
    {| messages := [greeting]; userInput := js "   "; isLoading := false;
       chatRef := Some createChatSession |}
    {| messages := [greeting]; userInput := js "   "; isLoading := false;
       chatRef := Some createChatSession |}
  = ({| messages := [greeting]; userInput := js "   "; isLoading := false;
        chatRef := Some createChatSession |}, None).
Proof.
  apply (proj1 (blank_input_is_not_sent _ _)). left. reflexivity.
Defined.

Lemma pairs_ind {A} (P : list A -> Prop) :
  P [] -> (forall x, P [x]) -> (forall x y l, P l -> P (x :: y :: l)) ->
  forall l, P l.
Proof.
  intros Hnil Hone Hpair l.
  enough (H : P l /\ forall x, P (x :: l)) by apply H.
  induction l as [|y l [IH1 IH2]]; split; auto.
Qed.

Lemma exchanges_snoc_user (ms : list Message) (m : Message) :
  role m = user -> exchanges false ms = true ->
  exchanges true (ms ++ [m]) = true.
Proof.
  intros Hm. induction ms as [|x|x y rest IH] using pairs_ind.
  - intros _. destruct m as [[] ?]; [reflexivity | discriminate].
  - destruct x as [[] ?]; discriminate.
  - destruct x as [[] ?], y as [[] ?]; try discriminate. exact IH.
Qed.

Lemma exchanges_snoc_model (ms : list Message) (m : Message) :
  role m = model -> exchanges true ms = true ->
  exchanges false (ms ++ [m]) = true.
Proof.
  intros Hm. induction ms as [|x|x y rest IH] using pairs_ind.
  - discriminate.
  - destruct x as [[] ?]; [|discriminate].
    intros _. destruct m as [[] ?]; [discriminate | reflexivity].
  - destruct x as [[] ?], y as [[] ?]; try discriminate. exact IH.
Qed.

Lemma wellFormed_react (room : Room) (ev : Event) :
  wellFormed room = true -> wellFormed (react room ev) = true.
Proof.
  intros H. destruct room as [[ms input loading ref] open flight created].
  unfold wellFormed in *. cbn [view chatRef messages isLoading inFlight
                               sessionsCreated] in H.
  destruct ev; cbn [react view].
  - (* Opened *)
    unfold openEffect. cbn [chatRef present].
    destruct ref as [chat|]; [exact H|].
    destruct ms; [|discriminate]. destruct flight; [|discriminate].
    destruct loading; [discriminate|]. cbn [negb andb] in H.
    apply Nat.eqb_eq in H. subst created. reflexivity.
  - (* Closed *)
    unfold openEffect. cbn [chatRef]. destruct ref; exact H.
  - (* Typed *) exact H.
  - (* Submitted *)
    unfold handleSendMessage. cbn [userInput isLoading chatRef].
    destruct (negb (truthy (trim input))); [exact H|].
    destruct loading; [exact H|].
    destruct ref as [chat|]; [|exact H].
    cbn [orb setMessages setUserInput setIsLoading chatRef messages
         userInput isLoading view inFlight sessionsCreated].
    apply andb_prop in H as [H Hflight]. apply andb_prop in H as [Hc Hms].
    rewrite Hc. cbn [andb].
    destruct ms as [|first rest]; [discriminate|]. cbn [app].
    destruct (role first); [discriminate|].
    rewrite (exchanges_snoc_user rest {| role := user; text := Some input |}
               eq_refl Hms).
    cbn [andb].
    apply Nat.eqb_eq in Hflight. rewrite length_app, Hflight. reflexivity.
  - (* Replied *)
    cbn [inFlight]. destruct flight as [|request flight].
    + exact H.
    + cbn [view settle setMessages setIsLoading chatRef messages isLoading
           inFlight sessionsCreated].
      destruct ref as [chat|]; [|destruct ms; discriminate].
      apply andb_prop in H as [H Hflight]. apply andb_prop in H as [Hc Hms].
      rewrite Hc. cbn [andb].
      destruct loading; [|discriminate Hflight].
      destruct ms as [|first rest]; [discriminate|]. cbn [app].
      destruct (role first); [discriminate|].
      cbn [List.length] in Hflight.
      destruct flight; [|discriminate]. cbn [List.length Nat.eqb andb].
      rewrite andb_true_r.
      destruct o as [responseText|e];
        apply exchanges_snoc_model; auto.
Qed.

Lemma wellFormed_run (evs : list Event) : forall room,
  wellFormed room = true -> wellFormed (run evs room) = true.
Proof.
  induction evs as [|ev evs IH]; intros room H; cbn [run fold_left];
    [exact H|].
  apply IH. now apply wellFormed_react.
Qed.

Lemma react_extends (room : Room) (ev : Event) :
  wellFormed room = true ->
  exists suffix,
    messages (view (react room ev)) = messages (view room) ++ suffix.
Proof.
  intros H. destruct room as [[ms input loading ref] open flight created].
  unfold wellFormed in H. cbn [view chatRef messages isLoading inFlight
                               sessionsCreated] in H.
  destruct ev; cbn [react view].
  - unfold openEffect. cbn [chatRef].
    destruct ref as [chat|]; [exists []; symmetry; apply app_nil_r|].
    destruct ms; [|discriminate]. eexists. reflexivity.
  - unfold openEffect. cbn [chatRef].
    destruct ref; exists []; symmetry; apply app_nil_r.
  - exists []. symmetry. apply app_nil_r.
  - unfold handleSendMessage. cbn [userInput isLoading chatRef].
    destruct (negb (truthy (trim input)) || loading
              || match ref with Some _ => false | None => true end) eqn:Hguard;
      [exists []; symmetry; apply app_nil_r|].
    destruct ref as [chat|]; [|rewrite orb_true_r in Hguard; discriminate].
    cbn. eexists. reflexivity.
  - cbn [inFlight]. destruct flight; [exists []; symmetry; apply app_nil_r|].
    cbn. eexists. reflexivity.
Qed.

(** X23.  Whatever is done with the chat panel, at most one session is ever
    created, at most one request awaits its reply and one does exactly
    while the panel is loading, and the transcript is empty before the
    first opening and afterwards the greeting followed by user and model
    messages in turn, ending on a user message exactly while loading. *)
Theorem transcript_alternates (evs : list Event) :
  let room := run evs mounted in
  sessionsCreated room <= 1
  /\ List.length (inFlight room)
     = (if isLoading (view room) then 1 else 0)
  /\ match chatRef (view room) with
     | None => messages (view room) = [] /\ sessionsCreated room = 0
     | Some chat =>
         chat = createChatSession
         /\ sessionsCreated room = 1
         /\ exists rest,
              messages (view room) = greeting :: rest
              /\ exchanges (isLoading (view room)) rest = true
     end.
Proof.
  intros room.
  assert (Hwf : wellFormed room = true)
    by (apply wellFormed_run; reflexivity).
  assert (Hchat : forall chat, chatRef (view room) = Some chat ->
                    chat = createChatSession
                    /\ exists rest, messages (view room) = greeting :: rest).
  { subst room. clear Hwf.
    induction evs as [|ev evs IH] using rev_ind; [discriminate|].
    unfold run in *. rewrite fold_left_app. cbn [fold_left].
    pose proof (wellFormed_run evs mounted eq_refl) as Hwf. unfold run in Hwf.
    destruct (react_extends _ ev Hwf) as [suffix Hsuffix].
    set (room := fold_left react evs mounted) in *.
    intros chat Hchat.
    destruct (chatRef (view room)) as [chat0|] eqn:Hprev.
    - destruct (IH chat0 eq_refl) as [-> [rest Hrest]].
      assert (Hsame : chatRef (view (react room ev)) = chatRef (view room)).
      { destruct room as [[ms input loading ref] open flight created].
        cbn [view chatRef] in Hprev. subst ref.
        destruct ev; cbn [react view]; try reflexivity.
        - unfold handleSendMessage. cbn [userInput isLoading chatRef].
          destruct (negb (truthy (trim input)) || loading || false);
            reflexivity.
        - cbn [inFlight]. destruct flight; reflexivity. }
      rewrite Hsame, Hprev in Hchat. injection Hchat as <-.
      split; [reflexivity|]. rewrite Hsuffix, Hrest. eexists. reflexivity.
    - destruct room as [[ms input loading ref] open flight created].
      cbn [view chatRef] in Hprev. subst ref.
      unfold wellFormed in Hwf. cbn in Hwf.
      destruct ms; [|discriminate]. destruct flight; [|discriminate].
      destruct loading; [discriminate|].
      destruct ev; cbn in Hchat; try discriminate.
      + injection Hchat as <-. split; [reflexivity|].
        eexists. reflexivity.
      + unfold handleSendMessage in Hchat. cbn in Hchat.
        rewrite orb_true_r in Hchat. discriminate. }
  unfold wellFormed in Hwf.
  destruct (chatRef (view room)) as [chat|] eqn:Href.
  - apply andb_prop in Hwf as [Hwf Hflight].
    apply andb_prop in Hwf as [Hc Hms].
    apply Nat.eqb_eq in Hc, Hflight.
    destruct (Hchat chat eq_refl) as [-> [rest Hrest]].
    split; [lia|]. split; [exact Hflight|].
    split; [reflexivity|]. split; [exact Hc|].
    exists rest. split; [exact Hrest|]. rewrite Hrest in Hms. exact Hms.
  - destruct (messages (view room)); [|discriminate].
    destruct (inFlight room); [|discriminate].
    apply andb_prop in Hwf as [Hload Hc]. apply Nat.eqb_eq in Hc.
    destruct (isLoading (view room)); [discriminate|].
    split; [lia|]. split; [reflexivity|]. split; [reflexivity | exact Hc].
Qed.

(** X24.  The transcript only grows: whatever happens next, closing and
    reopening the panel included, the messages so far stay, in order, at
    the front of the transcript. *)
Theorem transcript_only_grows (before after : list Event) :
  exists suffix,
    messages (view (run (before ++ after) mounted))
    = messages (view (run before mounted)) ++ suffix.
Proof.
  unfold run. rewrite fold_left_app.
  pose proof (wellFormed_run before mounted eq_refl) as Hwf. unfold run in Hwf.
  revert Hwf. generalize (fold_left react before mounted) as room.
  induction after as [|ev after IH]; intros room Hwf; cbn [fold_left].
  - exists []. symmetry. apply app_nil_r.
  - destruct (react_extends room ev Hwf) as [s1 H1].
    destruct (IH (react room ev) (wellFormed_react room ev Hwf)) as [s2 H2].
    exists (s1 ++ s2). rewrite H2, H1, app_assoc. reflexivity.
Qed.

Lemma react_chatRef (room : Room) (ev : Event) (chat : Chat) :
  chatRef (view room) = Some chat ->
  chatRef (view (react room ev)) = Some chat.
Proof.
  destruct room as [[ms input loading ref] open flight created].
  cbn [view chatRef]. intros ->.
  destruct ev; cbn [react view]; try reflexivity.
  - unfold handleSendMessage. cbn [userInput isLoading chatRef].
    destruct (negb (truthy (trim input)) || loading || false); reflexivity.
  - cbn [inFlight]. destruct flight; reflexivity.
Qed.

Lemma open_has_session (evs : list Event) :
  isOpen (run evs mounted) = true ->
  present (chatRef (view (run evs mounted))) = true.
Proof.
  induction evs as [|ev evs IH] using rev_ind; [discriminate|].
  unfold run in *. rewrite fold_left_app. cbn [fold_left].
  set (room := fold_left react evs mounted) in *.
  destruct (chatRef (view room)) as [chat|] eqn:Href.
  - intros _. rewrite (react_chatRef room ev chat Href). reflexivity.
  - destruct room as [[ms input loading ref] open flight created].
    cbn [view chatRef isOpen] in Href, IH. subst ref.
    destruct ev; cbn [react isOpen view]; try reflexivity;
      try discriminate; try exact IH.
    + destruct (handleSendMessage _ _). cbn [isOpen]. intros H.
      discriminate (IH H).
    + cbn [inFlight]. destruct flight; cbn [isOpen]; intros H;
        discriminate (IH H).
Qed.

(** X25.  One exchange in an open, idle panel with a non-blank input adds
    two messages to the transcript, the input and then the reply, or the
    fixed apology when the request fails; what was typed meanwhile is
    kept, and the panel is idle again with nothing awaited. *)
Theorem exchange_appends_question_and_answer
    (evs : list Event) (typed : jsstring) (o : Reply) :
  let room := run evs mounted in
  isOpen room = true ->
  isLoading (view room) = false ->
  forallb isWhiteSpace (userInput (view room)) = false ->
  let room' := run [Submitted; Typed typed; Replied o] room in
  messages (view room')
  = messages (view room)
    ++ [ {| role := user; text := Some (userInput (view room)) |};
         match o with
         | Returns responseText => {| role := model; text := responseText |}
         | Throws _ => apology
         end ]
  /\ isLoading (view room') = false
  /\ userInput (view room') = typed
  /\ inFlight room' = [].
Proof.
  intros room Hopen Hload Hinput room'.
  pose proof (open_has_session evs Hopen) as Hsession.
  pose proof (wellFormed_run evs mounted eq_refl) as Hwf.
  fold room in Hsession, Hwf. subst room'.
  destruct room as [[ms input loading ref] open flight created].
  cbn [view isLoading userInput chatRef messages] in *. subst loading.
  destruct ref as [chat|]; [|discriminate].
  unfold wellFormed in Hwf. cbn in Hwf.
  apply andb_prop in Hwf as [_ Hflight]. apply Nat.eqb_eq in Hflight.
  destruct flight; [|discriminate].
  assert (Htrim : truthy (trim input) = true).
  { destruct (truthy (trim input)) eqn:E; [reflexivity|].
    apply trim_empty in E. congruence. }
  unfold run. cbn [fold_left react view]. unfold handleSendMessage.
  cbn [userInput isLoading chatRef]. rewrite Htrim.
  cbn. rewrite <- app_assoc. destruct o; repeat split; reflexivity.
Qed.

Lemma exchange_appends_question_and_answer_witness :
  messages
    (view (run [Submitted; Typed (js "and"); Replied (Throws ThrownOther)]
             (run [Opened; Typed (js "Which lens?")] mounted)))
  = [greeting; {| role := user; text := Some (js "Which lens?") |}; apology].
Proof.
  exact (proj1 (exchange_appends_question_and_answer
                  [Opened; Typed (js "Which lens?")] (js "and")
                  (Throws ThrownOther) eq_refl eq_refl eq_refl)).
Defined.

End ChatbotFacts.

(** ** The uploader and the decoder *)

Module UploaderFacts.

Import RegExp DataUrl Spec DataUrlFacts Uploader App.

Local Open Scope nat_scope.

Lemma startsWith_app (prefix rest : jsstring) :
  Gemini.startsWith (prefix ++ rest) prefix = true.
Proof.
  induction prefix as [|p prefix IH]; cbn [app Gemini.startsWith];
    [destruct rest; reflexivity|].
  rewrite N.eqb_refl. exact IH.
Qed.

Lemma upload_then_failed_generate (oracle : Oracle) (st : State)
    (base64Image style : jsstring) (err : Thrown) :
  truthy base64Image = true -> truthy style = true ->
  (forall s, oracle _ (GenerateImage base64Image style false) s
             = (s, Some (Throws err))) ->
  let run :=
    session [ (oracle, ImageUploaded base64Image);
              (oracle, StyleSelected style);
              (oracle, GenerateClicked) ] st [] in
  step (fst run) = STYLE
  /\ generatedImage (fst run) = None
  /\ error (fst run) = Some (messageOr (js "An unknown error occurred.") err)
  /\ isLoading (fst run) = false.
Proof.
  intros Himg Hstyle Hor run. subst run.
  destruct base64Image as [|c0 image]; [discriminate|].
  destruct style as [|c1 style]; [discriminate|].
  destruct_state st.
  destruct step0; vm_compute; rewrite Hor; vm_compute; repeat split;
    reflexivity.
Qed.

(** X26.  The uploader hands on every readable file whose type starts with
    image/, as the data URL of its type and contents.  The decoder takes
    that URL, with the file's type and contents, when the subtype is made
    of word characters, and rejects it when the subtype runs into another
    character, as for image/svg+xml; such an upload is accepted, and the
    generation that follows fails with the generic message and stays on the
    style screen. *)
Theorem uploaded_file_decodes_by_subtype (file : File) (subtype base64 : jsstring) :
  type file = js "image/" ++ subtype ->
  contents file = Some base64 ->
  forallb notLineTerminator base64 = true ->
  let url := js "data:" ++ type file ++ js ";base64," ++ base64 in
  handleFileChange (Some file) = Some url
  /\ (subtype <> [] -> forallb isWordChar subtype = true ->
      fileToGenerativePart url
      = Returns {| data := base64; mimeType := type file |})
  /\ (forall w c rest,
        subtype = w ++ c :: rest -> forallb isWordChar w = true ->
        isWordChar c = false -> c <> 59%N ->
        fileToGenerativePart url = Throws invalidFormat
        /\ forall host style st,
             truthy style = true ->
             let run :=
               session [ (hostOracle host, ImageUploaded url);
                         (hostOracle host, StyleSelected style);
                         (hostOracle host, GenerateClicked) ] st [] in
             step (fst run) = STYLE
             /\ generatedImage (fst run) = None
             /\ error (fst run) = Some Gemini.imageFailedMessage
             /\ isLoading (fst run) = false).
Proof.
  intros Htype Hcontents Hbase64 url. split; [|split].
  - unfold handleFileChange, readAsDataURL.
    rewrite Htype at 1. rewrite startsWith_app, Hcontents. reflexivity.
  - intros Hne Hword. rewrite fileToGenerativePart_parse.
    assert (Hurl : isDataUrl url (type file) base64).
    { exists subtype. repeat split; assumption. }
    apply parseDataUrl_Some in Hurl. rewrite Hurl. reflexivity.
  - intros w c rest Hsub Hw Hc Hsemi.
    assert (Hrejected : fileToGenerativePart url = Throws invalidFormat).
    { rewrite fileToGenerativePart_parse. subst url.
      rewrite Htype, Hsub.
      replace (js "data:" ++ (js "image/" ++ w ++ c :: rest) ++ js ";base64," ++ base64)
        with (js "data:image/" ++ w ++ c :: (rest ++ js ";base64," ++ base64)).
      - rewrite (DataUrlEdgeFacts.nonword_subtype_rejected w _ c Hw Hc Hsemi).
        reflexivity.
      - change (js "data:image/") with (js "data:" ++ js "image/").
        rewrite <- !app_assoc. cbn [app]. reflexivity. }
    split; [exact Hrejected|].
    intros host style st Hstyle run. subst run.
    assert (Hgen : Gemini.generateImage (remote host) url style false
                   = Throws (ThrownError Gemini.imageFailedMessage)).
    { unfold Gemini.generateImage, Gemini.generateImage_try.
      rewrite Hrejected. reflexivity. }
    apply (upload_then_failed_generate (hostOracle host) st url style
             (ThrownError Gemini.imageFailedMessage));
      [reflexivity | exact Hstyle |].
    intros s. cbn [hostOracle]. rewrite Hgen. reflexivity.
Qed.

Lemma uploaded_file_decodes_by_subtype_witness :
  handleFileChange
    (Some {| type := js "image/svg+xml"; contents := Some (js "PHN2Zz4=") |})
  = Some (js "data:image/svg+xml;base64,PHN2Zz4=")
  /\ fileToGenerativePart (js "data:image/svg+xml;base64,PHN2Zz4=")
     = Throws invalidFormat.
Proof.
  pose proof (uploaded_file_decodes_by_subtype
                {| type := js "image/svg+xml"; contents := Some (js "PHN2Zz4=") |}
                (js "svg+xml") (js "PHN2Zz4=") eq_refl eq_refl eq_refl) as H.
  cbv zeta in H. destruct H as (Hupload & _ & Hreject).
  split; [exact Hupload|].
  apply (Hreject (js "svg") 43%N (js "xml"));
    [reflexivity | reflexivity | reflexivity | discriminate].
Defined.

End UploaderFacts.

(** ** The two versions of [generateImage] *)

Module LegacyFacts.

Import DataUrl Gemini App.

Local Open Scope nat_scope.

(** X27.  The first version of [generateImage] and the current one in
    generation mode give the same outcome for every prompt that mentions a
    headshot, hence for every style of the catalogue. *)
Theorem legacy_generateImage_agrees_on_headshot_prompts :
  (forall env base64Image prompt,
     includes prompt (js "headshot") = true ->
     Legacy.generateImage env base64Image prompt
     = generateImage env base64Image prompt false)
  /\ (forall s env base64Image,
        In s HEADSHOT_STYLES ->
        Legacy.generateImage env base64Image (App.prompt s)
        = generateImage env base64Image (App.prompt s) false).
Proof.
  assert (H : forall env base64Image prompt,
            includes prompt (js "headshot") = true ->
            Legacy.generateImage env base64Image prompt
            = generateImage env base64Image prompt false).
  { intros env base64Image prompt H.
    unfold Legacy.generateImage, generateImage, Legacy.generateImage_try,
      generateImage_try.
    rewrite H. reflexivity. }
  split; [exact H|].
  intros s env base64Image Hin. apply H.
  cbn [In HEADSHOT_STYLES] in Hin.
  repeat (destruct Hin as [<-|Hin]; [vm_compute; reflexivity|]).
  destruct Hin.
Qed.

Lemma legacy_generateImage_agrees_on_headshot_prompts_witness :
  Legacy.generateImage Scenario.service Scenario.selfie
    (js "A classic headshot.")
  = generateImage Scenario.service Scenario.selfie (js "A classic headshot.")
      false.
Proof.
  apply (proj1 legacy_generateImage_agrees_on_headshot_prompts). reflexivity.
Defined.

End LegacyFacts.
